(** * word_counter: the text-analysis core and its two JSON endpoints

    A shallow embedding of [counter/utils.py] ([TextAnalyzer],
    [FileProcessor], [TextCleaner], [CaseConverter]) and of the two API
    views of [counter/views.py] ([analyze_text_api], [process_file_api]),
    followed by the properties the specification states about them and by
    further properties of the same code: the shape of the three views, the
    statistics as a whole, the cleaned text, the extractors, the answers of
    the two endpoints, and sentence and title case.

    Python values are modelled as follows.
    - [str] is a sequence of Unicode code points: [list N].
    - [bytes] is [list byte].
    - [int] is [Z]; [float] is an IEEE 754 binary64 value, [spec_float]
      with precision 53 and maximal exponent 1024.
    - a raised exception is the left injection of a sum, carrying the
      exception's class and message.
    - the [re] module is a backtracking matcher that lists the ends of all
      matches of a pattern at a position in the order in which Python's
      engine tries them. *)

From Stdlib Require Import ZArith NArith List Lia Bool String Ascii.
From Stdlib Require Import Strings.Byte.
From Stdlib Require Import Sorting.Sorted Sorting.Permutation.
From Stdlib Require Import Floats.SpecFloat.
Import ListNotations.
Open Scope list_scope.

Set Implicit Arguments.

(** ** Strings *)

(** A Python [str]: its code points, in order. *)
Definition str := list N.

(** A literal of the source, character by character (the literals of the
    program are ASCII). *)
Definition lit (s : string) : str := map N_of_ascii (list_ascii_of_string s).

Definition str_eqb (a b : str) : bool :=
  if list_eq_dec N.eq_dec a b then true else false.

(** [len(s)] *)
Definition len {A : Type} (l : list A) : Z := Z.of_nat (List.length l).

Definition LF : N := 10%N.
Definition SPACE : N := 32%N.
Definition TAB : N := 9%N.

(** The characters for which [str.isspace] holds, which are also the class
    [\s] of [re] on [str] patterns: those of bidirectional type WS, B or S
    or of category Zs. *)
Definition whitespace : list N :=
  [9; 10; 11; 12; 13; 28; 29; 30; 31; 32; 133; 160; 5760;
   8192; 8193; 8194; 8195; 8196; 8197; 8198; 8199; 8200; 8201; 8202;
   8232; 8233; 8239; 8287; 12288]%N.

Definition isspace (c : N) : bool := existsb (N.eqb c) whitespace.

Fixpoint dropwhile {A : Type} (f : A -> bool) (l : list A) : list A :=
  match l with
  | [] => []
  | c :: t => if f c then dropwhile f t else l
  end.

(** [s.lstrip()], [s.rstrip()] and [s.strip()] *)
Definition lstrip (s : str) : str := dropwhile isspace s.
Fixpoint rstrip (s : str) : str :=
  match s with
  | [] => []
  | c :: t =>
      match rstrip t with
      | [] => if isspace c then [] else [c]
      | t' => c :: t'
      end
  end.
Definition strip (s : str) : str := rstrip (lstrip s).

(** [sep.join(parts)] *)
Fixpoint join (sep : str) (parts : list str) : str :=
  match parts with
  | [] => []
  | [p] => p
  | p :: rest => p ++ sep ++ join sep rest
  end.

(** [s.replace(c, '')] for a one-character [c] *)
Definition remove_char (c : N) (s : str) : str :=
  filter (fun x => negb (N.eqb x c)) s.

(** ** The part of the Unicode character database the program consults

    [\w], [str.lower] and [str.upper] read tables of the interpreter that
    are not part of this repository.  They are taken as given. *)
Record unicode_db : Type := {
  isalnum : N -> bool;        (* [str.isalnum] on one character *)
  str_lower : str -> str;     (* [str.lower] *)
  str_upper : str -> str      (* [str.upper] *)
}.

(** ** Exceptions *)

(** The exception classes the program can meet, and an exception: its
    class and its message [str(e)]. *)
Inductive exn_class : Type :=
| ValueError | OverflowError | ZeroDivisionError | AttributeError.

Record exn : Type := { exn_kind : exn_class; exn_msg : string }.

(** A computation that returns a value or raises. *)
Definition result (A : Type) : Type := (exn + A)%type.
Definition Raise {A : Type} (k : exn_class) (msg : string) : result A :=
  inl {| exn_kind := k; exn_msg := msg |}.
Definition Return {A : Type} (a : A) : result A := inr a.
Definition bind {A B : Type} (m : result A) (k : A -> result B) : result B :=
  match m with
  | inl e => inl e
  | inr a => k a
  end.
Notation "x <- m ;; k" := (bind m (fun x => k))
  (at level 61, m at next level, right associativity).

Fixpoint mapM {A B : Type} (f : A -> result B) (l : list A) : result (list B) :=
  match l with
  | [] => Return []
  | a :: t => b <- f a ;; bs <- mapM f t ;; Return (b :: bs)
  end.

(** ** Floating point: [float], [int / int], [math.ceil], [round(x, 2)] *)

Module PyFloat.
Local Open Scope Z_scope.

Definition float : Type := spec_float.
Definition prec : Z := 53.
Definition emax : Z := 1024.

(** [float(n)] for an [int] literal of the program (60, 100): exact. *)
Definition of_int (n : Z) : float := binary_normalize prec emax n 0 false.

(** [a / b] on two [int]s: the binary64 value nearest to the exact
    quotient (ties to even), as [long_true_divide] computes it. *)
Definition int_true_divide (a b : Z) : result float :=
  match b with
  | Z0 => Raise ZeroDivisionError "division by zero"
  | _ =>
    match a with
    | Z0 => Return (S754_zero (b <? 0))
    | _ =>
      match SFdiv prec emax (S754_finite (a <? 0) (Z.to_pos (Z.abs a)) 0)
                            (S754_finite (b <? 0) (Z.to_pos (Z.abs b)) 0) with
      | S754_infinity _ => Raise OverflowError "integer division result too large for a float"
      | q => Return q
      end
    end
  end.

(** [x * y] on two [float]s *)
Definition mul (x y : float) : float := SFmul prec emax x y.

(** The ceiling of [v / 2^p], for any sign of [v]. *)
Definition ceil_div_pow2 (v : Z) (p : positive) : Z := - ((- v) / Z.pow_pos 2 p).

(** [math.ceil(x)]: the least [int] not below [x]. *)
Definition ceil (x : float) : result Z :=
  match x with
  | S754_zero _ => Return 0
  | S754_finite s m e =>
      let v := if s then Zneg m else Zpos m in
      Return match e with
             | Zneg p => ceil_div_pow2 v p
             | _ => v * 2 ^ e
             end
  | S754_infinity _ => Raise OverflowError "cannot convert float infinity to integer"
  | S754_nan => Raise ValueError "cannot convert float NaN to integer"
  end.

(** [num / den] rounded to the nearest integer, ties to even
    ([0 <= num], [0 < den]). *)
Definition round_half_even_div (num den : Z) : Z :=
  let q := num / den in
  let r2 := 2 * (num mod den) in
  if r2 <? den then q
  else if den <? r2 then q + 1
  else if Z.even q then q else q + 1.

(** [round(x, 2)]: the exact value of [x] is rounded to two decimals, ties
    to even, and the decimal [d / 100] so obtained is read back as the
    nearest [float] ([double_round] of floatobject.c: [_Py_dg_dtoa] in mode
    3, then [_Py_dg_strtod]). *)
Definition round2 (x : float) : result float :=
  match x with
  | S754_finite s m e =>
      let d := match e with
               | Zneg p => round_half_even_div (Zpos m * 100) (Z.pow_pos 2 p)
               | _ => Zpos m * 100 * 2 ^ e
               end in
      match d with
      | Zpos d =>
          match SFdiv prec emax (S754_finite s d 0) (S754_finite false 100 0) with
          | S754_infinity _ => Raise OverflowError "rounded value too large to represent"
          | r => Return r
          end
      | _ => Return (S754_zero s)
      end
  | _ => Return x
  end.

End PyFloat.

(** ** The [re] module: a backtracking matcher *)

Module Re.

(** The patterns the program uses are built from character classes,
    concatenation, alternation, the greedy [*] and [+], the anchors [^] and
    [$] of [re.MULTILINE], and the word boundary [\b]. *)
Inductive regex : Type :=
| Class (f : N -> bool)
| Cat (a b : regex)
| Alt (a b : regex)
| Star (a : regex)
| Plus (a : regex)
| Bol
| Eol
| WordB (w : N -> bool).

(** A position in the subject: the character before it, if any, and the
    text from it on. *)
Definition pos : Type := (option N * str)%type.

(** [^] with [re.MULTILINE]: at the start of the text or just after a
    line feed. *)
Definition at_bol (p : pos) : bool :=
  match fst p with
  | None => true
  | Some c => N.eqb c LF
  end.

(** [$] with [re.MULTILINE]: at the end of the text or just before a
    line feed. *)
Definition at_eol (p : pos) : bool :=
  match snd p with
  | [] => true
  | c :: _ => N.eqb c LF
  end.

(** [\b]: exactly one of the two neighbouring characters is a word
    character. *)
Definition at_wordb (w : N -> bool) (p : pos) : bool :=
  xorb (match fst p with Some c => w c | None => false end)
       (match snd p with c :: _ => w c | [] => false end).

(** The ends of the matches of a greedy repetition whose body ends are
    listed by [f]: one more iteration first, then stopping here.  An
    iteration that consumes nothing is abandoned. *)
Fixpoint star_ends (f : pos -> list pos) (fuel : nat) (p : pos) : list pos :=
  match fuel with
  | O => [p]
  | S k =>
      flat_map (fun q => if Nat.ltb (List.length (snd q)) (List.length (snd p))
                         then star_ends f k q else [])
               (f p) ++ [p]
  end.

(** The ends of all matches of [r] that start at [p], in the order in which
    the backtracking engine finds them: the first is the match [re]
    reports. *)
Fixpoint ends (r : regex) (p : pos) : list pos :=
  match r with
  | Class f =>
      match snd p with
      | c :: t => if f c then [(Some c, t)] else []
      | [] => []
      end
  | Cat a b => flat_map (ends b) (ends a p)
  | Alt a b => ends a p ++ ends b p
  | Star a => star_ends (ends a) (List.length (snd p)) p
  | Plus a =>
      flat_map (fun q => star_ends (ends a) (List.length (snd q)) q) (ends a p)
  | Bol => if at_bol p then [p] else []
  | Eol => if at_eol p then [p] else []
  | WordB w => if at_wordb w p then [p] else []
  end.

(** What a compiled pattern answers at a position: the length of the match
    that starts there, if there is one. *)
Definition matcher : Type := option N -> str -> option nat.

Definition match_at (r : regex) : matcher :=
  fun prev s =>
    match ends r (prev, s) with
    | [] => None
    | q :: _ => Some (List.length s - List.length (snd q))%nat
    end.

(** The scans below walk the subject from left to right.  [skip] counts the
    characters of the current match that are still to be passed over; a new
    match is looked for only when it is zero. *)

(** [re.sub]: every match is replaced by [repl]. *)
Fixpoint sub_scan (m : matcher) (repl : str) (skip : nat) (prev : option N)
    (s : str) {struct s} : str :=
  match skip with
  | S k =>
      match s with
      | [] => []
      | c :: t => sub_scan m repl k (Some c) t
      end
  | O =>
      match m prev s with
      | Some (S k) =>
          repl ++ match s with
                  | [] => []
                  | c :: t => sub_scan m repl k (Some c) t
                  end
      | Some O =>
          repl ++ match s with
                  | [] => []
                  | c :: t => c :: sub_scan m repl 0 (Some c) t
                  end
      | None =>
          match s with
          | [] => []
          | c :: t => c :: sub_scan m repl 0 (Some c) t
          end
      end
  end.

(** [re.split], for a pattern without groups: the pieces between the
    matches; [cur] is the piece being read. *)
Fixpoint split_scan (m : matcher) (skip : nat) (prev : option N) (s : str)
    (cur : str) {struct s} : list str :=
  match skip with
  | S k =>
      match s with
      | [] => [cur]
      | c :: t => split_scan m k (Some c) t cur
      end
  | O =>
      match m prev s with
      | Some (S k) =>
          cur :: match s with
                 | [] => [[]]
                 | c :: t => split_scan m k (Some c) t []
                 end
      | Some O =>
          cur :: match s with
                 | [] => [[]]
                 | c :: t => split_scan m 0 (Some c) t [c]
                 end
      | None =>
          match s with
          | [] => [cur]
          | c :: t => split_scan m 0 (Some c) t (cur ++ [c])
          end
      end
  end.

(** [re.findall], for a pattern without groups: the matched texts. *)
Fixpoint findall_scan (m : matcher) (skip : nat) (prev : option N) (s : str)
    {struct s} : list str :=
  match skip with
  | S k =>
      match s with
      | [] => []
      | c :: t => findall_scan m k (Some c) t
      end
  | O =>
      match m prev s with
      | Some (S k) =>
          firstn (S k) s :: match s with
                            | [] => []
                            | c :: t => findall_scan m k (Some c) t
                            end
      | Some O =>
          [] :: match s with
                | [] => []
                | c :: t => findall_scan m 0 (Some c) t
                end
      | None =>
          match s with
          | [] => []
          | c :: t => findall_scan m 0 (Some c) t
          end
      end
  end.

Definition sub (r : regex) (repl : str) (s : str) : str :=
  sub_scan (match_at r) repl 0 None s.
Definition split (r : regex) (s : str) : list str :=
  split_scan (match_at r) 0 None s [].
Definition findall (r : regex) (s : str) : list str :=
  findall_scan (match_at r) 0 None s.

(** Character classes of the patterns. *)
Definition is_lf (c : N) : bool := N.eqb c LF.                       (* \n *)
Definition is_blank (c : N) : bool := N.eqb c SPACE || N.eqb c TAB. (* [ \t] *)
Definition is_stop (c : N) : bool :=                       (* [.!?] *)
  N.eqb c 46 || N.eqb c 33 || N.eqb c 63.
(** [\w] on a [str] pattern: alphanumeric or the underscore. *)
Definition is_word (U : unicode_db) (c : N) : bool := isalnum U c || N.eqb c 95.

End Re.

(** ** [collections.Counter] *)

Module Counter.
Local Open Scope Z_scope.

(** A [Counter] over words: the keys in the order of their first insertion,
    each with its count. *)
Definition t : Type := list (str * Z).

(** [c[w] += 1] *)
Fixpoint incr (w : str) (c : t) : t :=
  match c with
  | [] => [(w, 1)]
  | (k, v) :: rest =>
      if str_eqb k w then (k, v + 1) :: rest else (k, v) :: incr w rest
  end.

(** [Counter(ws)] *)
Definition of_list (ws : list str) : t :=
  fold_left (fun c w => incr w c) ws [].

(** The place of an item in a list sorted by count, largest first; among
    equal counts the item that comes first stays first. *)
Fixpoint insert (x : str * Z) (l : t) : t :=
  match l with
  | [] => [x]
  | y :: rest => if snd x <? snd y then y :: insert x rest else x :: l
  end.

(** [sorted(c.items(), key=itemgetter(1), reverse=True)] *)
Definition sorted_desc (c : t) : t := fold_right insert [] c.

(** [c.most_common(n)], which is [heapq.nlargest(n, c.items(), key=...)]:
    the first [n] items of the stable descending sort. *)
Definition most_common (n : nat) (c : t) : t := firstn n (sorted_desc c).

End Counter.

(** ** [class TextAnalyzer] *)

Module TextAnalyzer.
Import Re PyFloat.
Local Open Scope Z_scope.

Definition STOPWORDS : list str :=
  map lit
    ["a"; "an"; "and"; "are"; "as"; "at"; "be"; "by"; "for"; "from";
     "has"; "he"; "in"; "is"; "it"; "its"; "of"; "on"; "that"; "the";
     "to"; "was"; "were"; "will"; "with"; "the"; "this"; "but"; "they";
     "have"; "had"; "what"; "said"; "each"; "which"; "she"; "do"; "how";
     "their"; "if"; "up"; "out"; "many"; "then"; "them"; "these"; "so";
     "some"; "her"; "would"; "make"; "like"; "into"; "him"; "time"; "two";
     "more"; "go"; "no"; "way"; "could"; "my"; "than"; "first"; "been";
     "call"; "who"; "its"; "now"; "find"; "long"; "down"; "day"; "did";
     "get"; "come"; "made"; "may"; "part"]%string.

(** [w in self.STOPWORDS] *)
Definition is_stopword (w : str) : bool := existsb (str_eqb w) STOPWORDS.

(** The instance: the text and the three cached views. *)
Record t : Type := {
  text : str;
  _words : option (list str);
  _sentences : option (list str);
  _paragraphs : option (list str)
}.

(** [__init__] *)
Definition init (text : str) : t :=
  {| text := text; _words := None; _sentences := None; _paragraphs := None |}.

Record time : Type := { minutes : Z; seconds : Z }.

Record keyword : Type := { word : str; count : Z; density : float }.

Record stats : Type := {
  word_count : Z;
  character_count : Z;
  character_count_no_spaces : Z;
  sentence_count : Z;
  paragraph_count : Z;
  reading_time : time;
  speaking_time : time;
  keyword_density : list keyword
}.

Definition nonempty (s : str) : bool :=
  match s with
  | [] => false
  | _ :: _ => true
  end.

(** [r'\b\w+\b'], [r'[.!?]+'], [r'\n\s*\n'] *)
Definition word_re (U : unicode_db) : regex :=
  Cat (WordB (is_word U)) (Cat (Plus (Class (is_word U))) (WordB (is_word U))).
Definition sentence_end_re : regex := Plus (Class is_stop).
Definition paragraph_break_re : regex :=
  Cat (Class is_lf) (Cat (Star (Class isspace)) (Class is_lf)).

(** The three properties: each computes its view on first access, stores
    it in the instance and returns the stored view afterwards. *)
Definition words (U : unicode_db) (self : t) : list str * t :=
  match _words self with
  | Some ws => (ws, self)
  | None =>
      let ws := filter nonempty (findall (word_re U) (str_lower U (text self))) in
      (ws, {| text := text self; _words := Some ws;
              _sentences := _sentences self; _paragraphs := _paragraphs self |})
  end.

Definition sentences (self : t) : list str * t :=
  match _sentences self with
  | Some ss => (ss, self)
  | None =>
      let sentences := split sentence_end_re (text self) in
      let ss := map strip (filter (fun s => nonempty (strip s)) sentences) in
      (ss, {| text := text self; _words := _words self;
              _sentences := Some ss; _paragraphs := _paragraphs self |})
  end.

Definition paragraphs (self : t) : list str * t :=
  match _paragraphs self with
  | Some ps => (ps, self)
  | None =>
      let paragraphs := split paragraph_break_re (strip (text self)) in
      let ps := map strip (filter (fun p => nonempty (strip p)) paragraphs) in
      (ps, {| text := text self; _words := _words self;
              _sentences := _sentences self; _paragraphs := Some ps |})
  end.

Definition calculate_reading_time (word_count : Z) : result time :=
  let wpm := 225 in
  q <- int_true_divide word_count wpm ;;
  minutes <- ceil q ;;
  seconds <- (if minutes =? 0
              then q' <- int_true_divide word_count wpm ;;
                   c <- ceil (mul q' (of_int 60)) ;;
                   Return (c mod 60)
              else Return 0) ;;
  Return {| minutes := minutes; seconds := seconds |}.

Definition calculate_speaking_time (word_count : Z) : result time :=
  let wpm := 155 in
  q <- int_true_divide word_count wpm ;;
  minutes <- ceil q ;;
  seconds <- (if minutes =? 0
              then q' <- int_true_divide word_count wpm ;;
                   c <- ceil (mul q' (of_int 60)) ;;
                   Return (c mod 60)
              else Return 0) ;;
  Return {| minutes := minutes; seconds := seconds |}.

(** The filter of [get_keyword_density]. *)
Definition is_keyword (w : str) : bool := (3 <=? len w) && negb (is_stopword w).

Definition get_keyword_density (words : list str) : result (list keyword) :=
  match words with
  | [] => Return []
  | _ :: _ =>
      let filtered_words := filter is_keyword words in
      match filtered_words with
      | [] => Return []
      | _ :: _ =>
          let word_counts := Counter.of_list filtered_words in
          let total_words := len filtered_words in
          mapM (fun item : str * Z =>
                  let (word, count) := item in
                  q <- int_true_divide count total_words ;;
                  let density := mul q (of_int 100) in
                  d <- round2 density ;;
                  Return {| word := word; count := count; density := d |})
               (Counter.most_common 10 word_counts)
      end
  end.

(** [get_stats]: the views are read in the order of the source (words,
    then sentences, then paragraphs), each access filling its cache. *)
Definition get_stats (U : unicode_db) (self : t) : result stats * t :=
  let (words, self1) := words U self in
  let (ss, self2) := sentences self1 in
  let (ps, self3) := paragraphs self2 in
  (rt <- calculate_reading_time (len words) ;;
   st <- calculate_speaking_time (len words) ;;
   kd <- get_keyword_density words ;;
   Return {| word_count := len words;
             character_count := len (text self);
             character_count_no_spaces := len (remove_char SPACE (text self));
             sentence_count := len ss;
             paragraph_count := len ps;
             reading_time := rt;
             speaking_time := st;
             keyword_density := kd |},
   self3).

End TextAnalyzer.

(** ** Codecs and uploaded files *)

Module Codec.
Local Open Scope N_scope.

Definition is_cont (b : N) : bool := (128 <=? b) && (b <=? 191).

(** [bytes.decode('utf-8')] in strict mode, on the byte values: [None] is
    [UnicodeDecodeError].  Overlong forms, surrogates and code points
    above U+10FFFF are refused. *)
Fixpoint utf_8 (bs : list N) : option str :=
  match bs with
  | [] => Some []
  | b0 :: t0 =>
    if b0 <? 128 then option_map (cons b0) (utf_8 t0)
    else if (194 <=? b0) && (b0 <=? 223) then
      match t0 with
      | b1 :: t1 =>
        if is_cont b1
        then option_map (cons ((b0 - 192) * 64 + (b1 - 128))) (utf_8 t1)
        else None
      | _ => None
      end
    else if (224 <=? b0) && (b0 <=? 239) then
      match t0 with
      | b1 :: b2 :: t2 =>
        if is_cont b1 && is_cont b2
           && (if b0 =? 224 then 160 <=? b1 else true)
           && (if b0 =? 237 then b1 <=? 159 else true)
        then option_map
               (cons ((b0 - 224) * 4096 + (b1 - 128) * 64 + (b2 - 128)))
               (utf_8 t2)
        else None
      | _ => None
      end
    else if (240 <=? b0) && (b0 <=? 244) then
      match t0 with
      | b1 :: b2 :: b3 :: t3 =>
        if is_cont b1 && is_cont b2 && is_cont b3
           && (if b0 =? 240 then 144 <=? b1 else true)
           && (if b0 =? 244 then b1 <=? 143 else true)
        then option_map
               (cons ((b0 - 240) * 262144 + (b1 - 128) * 4096
                      + (b2 - 128) * 64 + (b3 - 128)))
               (utf_8 t3)
        else None
      | _ => None
      end
    else None
  end.

(** A single-byte codec is a table from byte values to code points; a byte
    without an entry cannot be decoded. *)
Definition charmap : Type := byte -> option N.

Fixpoint decode_charmap (table : charmap) (bs : list byte) : option str :=
  match bs with
  | [] => Some []
  | b :: t =>
      match table b with
      | Some c => option_map (cons c) (decode_charmap table t)
      | None => None
      end
  end.

(** ISO 8859-1: byte [b] is U+00[b]. *)
Definition latin_1 : charmap := fun b => Some (Byte.to_N b).

End Codec.

(** An uploaded file: its name, its declared size, its bytes and the read
    position. *)
Record file : Type := {
  file_name : str;
  file_size : Z;
  file_content : list byte;
  file_pos : nat
}.

(** [file.read()]: the bytes from the position to the end; the position
    moves to the end. *)
Definition file_read (f : file) : list byte * file :=
  (skipn (file_pos f) (file_content f),
   {| file_name := file_name f; file_size := file_size f;
      file_content := file_content f;
      file_pos := Nat.max (file_pos f) (List.length (file_content f)) |}).

(** [file.seek(n)] *)
Definition file_seek (n : nat) (f : file) : file :=
  {| file_name := file_name f; file_size := file_size f;
     file_content := file_content f; file_pos := n |}.

(** What lies outside the repository: the Django setting and the two
    document parsers, each giving the texts of the paragraphs (python-docx)
    or of the pages (PyMuPDF) of a document, or raising; python-docx is
    handed the file itself and leaves it at a read position of its own. *)
Record environment : Type := {
  ENABLE_PDF_SUPPORT : bool;
  docx_paragraphs : list byte -> result (list str);
  docx_read_to : list byte -> nat;
  pdf_pages : list byte -> result (list str)
}.

(** ** [class FileProcessor] *)

Module FileProcessor.

Definition extract_text_from_docx (env : environment) (f : file)
  : result str * file :=
  let f1 := file_seek (docx_read_to env (file_content f)) f in
  match docx_paragraphs env (file_content f) with
  | inr text => (Return (join [LF] text), f1)
  | inl e =>
      (Raise ValueError ("Error processing DOCX file: " ++ exn_msg e)%string, f1)
  end.

Definition extract_text_from_pdf (env : environment) (f : file)
  : result str * file :=
  if negb (ENABLE_PDF_SUPPORT env)
  then (Raise ValueError "PDF support is not enabled", f)
  else
    let (data, f1) := file_read f in
    match pdf_pages env data with
    | inr text => (Return (join [LF] text), f1)
    | inl e =>
        (Raise ValueError ("Error processing PDF file: " ++ exn_msg e)%string, f1)
    end.

Definition extract_text_from_txt (f : file) : result str * file :=
  let (data, f1) := file_read f in
  match Codec.utf_8 (map Byte.to_N data) with
  | Some text => (Return text, f1)
  | None =>
      let f2 := file_seek 0 f1 in
      let (data2, f3) := file_read f2 in
      match Codec.decode_charmap Codec.latin_1 data2 with
      | Some text => (Return text, f3)
      | None =>
          (Raise ValueError
             ("Error processing text file: "
              ++ "'latin-1' codec can't decode bytes")%string, f3)
      end
  end.

End FileProcessor.

(** ** [class TextCleaner] *)

Module TextCleaner.
Import Re.

(** [r'[ \t]+'], [r'\n\s*\n\s*\n+'] and [r'^\s+|\s+$'] *)
Definition blanks_re : regex := Plus (Class is_blank).
Definition breaks_re : regex :=
  Cat (Class is_lf)
    (Cat (Star (Class isspace))
       (Cat (Class is_lf) (Cat (Star (Class isspace)) (Plus (Class is_lf))))).
Definition trim_re : regex :=
  Alt (Cat Bol (Plus (Class isspace))) (Cat (Plus (Class isspace)) Eol).

Definition remove_extra_spaces (text : str) : str :=
  let text1 := sub blanks_re [SPACE] text in
  let text2 := sub breaks_re [LF; LF] text1 in
  let text3 := sub trim_re [] text2 in
  strip text3.

End TextCleaner.

(** ** [class CaseConverter] *)

Module CaseConverter.

Definition to_upper (U : unicode_db) (text : str) : str := str_upper U text.
Definition to_lower (U : unicode_db) (text : str) : str := str_lower U text.

End CaseConverter.

(** ** The views of [counter/views.py] *)

Module Views.

(** The body of a request to [analyze_text_api] as [json.loads] sees it:
    not JSON, a JSON object (with the value of its ['text'] member, if it
    has one), another JSON value, or a body on which [json.loads] raises
    something other than [JSONDecodeError] ([UnicodeDecodeError] on bytes
    that are no UTF-8, [RecursionError] on a value nested too deep), with
    the message of what it raises. *)
Inductive json_value : Type :=
| JString (s : str)
| JOther (type_name : string).

Inductive json_body : Type :=
| InvalidJSON
| JsonObject (text : option json_value)
| JsonNonObject (type_name : string)
| LoadsError (message : string).

(** A [JsonResponse]: an error with its status, or one of the two success
    payloads. *)
Inductive response : Type :=
| JsonError (status : Z) (error : string)
| AnalyzeSuccess (stats : TextAnalyzer.stats)
| FileSuccess (text : str) (stats : TextAnalyzer.stats) (filename : str).

Definition no_attribute (type_name attr : string) : string :=
  ("'" ++ type_name ++ "' object has no attribute '" ++ attr ++ "'")%string.

(** [analyze_text_api], with the analysis it hands the text to as a
    parameter. *)
Definition analyze_text_with (core : str -> result TextAnalyzer.stats)
    (body : json_body) : response :=
  match body with
  | InvalidJSON => JsonError 400 "Invalid JSON"
  | LoadsError message => JsonError 500 message
  | JsonNonObject ty => JsonError 500 (no_attribute ty "get")
  | JsonObject member =>
      match (match member with Some v => v | None => JString [] end) with
      | JOther ty => JsonError 500 (no_attribute ty "strip")
      | JString raw =>
          let text := strip raw in
          if negb (TextAnalyzer.nonempty text)
          then JsonError 400 "No text provided"
          else if (50000 <? len text)%Z
          then JsonError 400 "Text too long (max 50,000 characters)"
          else
            match core text with
            | inr stats => AnalyzeSuccess stats
            | inl e => JsonError 500 (exn_msg e)
            end
      end
  end.

(** [TextAnalyzer(text).get_stats()] *)
Definition analyze (U : unicode_db) (text : str) : result TextAnalyzer.stats :=
  fst (TextAnalyzer.get_stats U (TextAnalyzer.init text)).

Definition analyze_text_api (U : unicode_db) (body : json_body) : response :=
  analyze_text_with (analyze U) body.

(** [name.split('.')[-1]]: what follows the last dot. *)
Fixpoint after_last_dot (s : str) : str :=
  match s with
  | [] => []
  | c :: t => if existsb (N.eqb 46) t then after_last_dot t
              else if N.eqb c 46 then t else s
  end.

(** [process_file_api] beneath its two decorators, which
    [process_file_endpoint] below applies; [upload] is
    [request.FILES.get('file')]. *)
Definition process_file_api (env : environment) (U : unicode_db)
    (upload : option file) : response :=
  match upload with
  | None => JsonError 400 "No file uploaded"
  | Some f =>
      if (5 * 1024 * 1024 <? file_size f)%Z
      then JsonError 400 "File too large (max 5MB)"
      else
        let file_extension := after_last_dot (str_lower U (file_name f)) in
        let extracted :=
          if str_eqb file_extension (lit "txt")
          then Some (fst (FileProcessor.extract_text_from_txt f))
          else if str_eqb file_extension (lit "docx")
          then Some (fst (FileProcessor.extract_text_from_docx env f))
          else if str_eqb file_extension (lit "pdf")
          then Some (fst (FileProcessor.extract_text_from_pdf env f))
          else None in
        match extracted with
        | None => JsonError 400 "Unsupported file type. Use TXT, DOCX, or PDF"
        | Some (inl e) =>
            match exn_kind e with
            | ValueError => JsonError 400 (exn_msg e)
            | _ => JsonError 500 "File processing failed"
            end
        | Some (inr text) =>
            if negb (TextAnalyzer.nonempty (strip text))
            then JsonError 400 "No text found in file"
            else
              match analyze U text with
              | inr stats => FileSuccess (firstn 10000 text) stats (file_name f)
              | inl e =>
                  match exn_kind e with
                  | ValueError => JsonError 400 (exn_msg e)
                  | _ => JsonError 500 "File processing failed"
                  end
              end
        end
  end.

End Views.

(** ** What is known of the character database *)

Definition is_ascii (c : N) : bool := (c <? 128)%N.

Definition ascii_lower (c : N) : N :=
  if ((65 <=? c) && (c <=? 90))%N then (c + 32)%N else c.
Definition ascii_upper (c : N) : N :=
  if ((97 <=? c) && (c <=? 122))%N then (c - 32)%N else c.

(** The facts about the tables that the properties below rest on: no white
    space character is alphanumeric; a text of white space has no lower
    case form other than itself; on ASCII text [lower] and [upper] act
    letter by letter on [A-Z] and [a-z]. *)
Record unicode_laws (U : unicode_db) : Prop := {
  space_not_alnum : forall c, isspace c = true -> isalnum U c = false;
  lower_space : forall s, forallb isspace s = true -> str_lower U s = s;
  lower_ascii : forall s, forallb is_ascii s = true ->
                          str_lower U s = map ascii_lower s;
  upper_ascii : forall s, forallb is_ascii s = true ->
                          str_upper U s = map ascii_upper s
}.

(** The rows of the tables for Basic Latin, Latin-1 Supplement, U+0130 and
    the Kelvin sign U+212A, used to run the program on texts of these
    characters; the rows of the other blocks are not entered. *)
Module BasicLatin.
Local Open Scope N_scope.

Definition in_range (lo hi c : N) : bool := (lo <=? c) && (c <=? hi).

Definition alnum_char (c : N) : bool :=
  in_range 48 57 c || in_range 65 90 c || in_range 97 122 c
  || N.eqb c 170 || N.eqb c 178 || N.eqb c 179 || N.eqb c 181
  || N.eqb c 185 || N.eqb c 186 || in_range 188 190 c
  || in_range 192 214 c || in_range 216 246 c || in_range 248 255 c
  || N.eqb c 304 || N.eqb c 8490.

Definition lower_char (c : N) : str :=
  if in_range 65 90 c || (in_range 192 222 c && negb (N.eqb c 215))
  then [c + 32]
  else if N.eqb c 8490 then [107]
  else if N.eqb c 304 then [105; 775]
  else [c].

Definition upper_char (c : N) : str :=
  if in_range 97 122 c || (in_range 224 254 c && negb (N.eqb c 247))
  then [c - 32]
  else if N.eqb c 181 then [924]
  else if N.eqb c 223 then [83; 83]
  else if N.eqb c 255 then [376]
  else [c].

Definition db : unicode_db :=
  {| isalnum := alnum_char;
     str_lower := flat_map lower_char;
     str_upper := flat_map upper_char |}.

End BasicLatin.

(** ** Notions used to state the properties *)

(** The ceiling of the exact quotient [a / b], for [0 < b]. *)
Definition ceil_div (a b : Z) : Z := (- ((- a) / b))%Z.

(** A float that is zero, or finite and at most [2^K]. *)
Definition bounded_by (K : Z) (x : PyFloat.float) : Prop :=
  (exists s, x = S754_zero s)
  \/ exists s m e, x = S754_finite s m e /\ (e <= K)%Z /\ (Zpos m <= 2 ^ (K - e))%Z.

(** The common body of [calculate_reading_time] and
    [calculate_speaking_time], with the speed as a parameter. *)
Definition time_estimate (wpm word_count : Z) : result TextAnalyzer.time :=
  q <- PyFloat.int_true_divide word_count wpm ;;
  minutes <- PyFloat.ceil q ;;
  seconds <- (if (minutes =? 0)%Z
              then q' <- PyFloat.int_true_divide word_count wpm ;;
                   c <- PyFloat.ceil (PyFloat.mul q' (PyFloat.of_int 60)) ;;
                   Return (c mod 60)%Z
              else Return 0%Z) ;;
  Return {| TextAnalyzer.minutes := minutes; TextAnalyzer.seconds := seconds |}.

(** ** Sample inputs on which the program is run below *)

Module Samples.

(** An installation without PDF support whose document parsers refuse
    what they are given. *)
Definition plain_env : environment :=
  {| ENABLE_PDF_SUPPORT := false;
     docx_paragraphs := fun _ => Raise ValueError "File is not a zip file";
     docx_read_to := fun bs => List.length bs;
     pdf_pages := fun _ => Raise ValueError "Failed to open stream" |}.

Definition bytes_of (s : string) : list byte :=
  map byte_of_ascii (list_ascii_of_string s).

(** An upload [notes.txt] holding ["hello world"]. *)
Definition notes_txt : file :=
  {| file_name := lit "notes.txt";
     file_size := 11;
     file_content := bytes_of "hello world";
     file_pos := 0 |}.

(** The letter [a] followed by 50,000 spaces: 50,001 characters. *)
Definition padded_text : str := 97%N :: repeat SPACE 50000.

(** 50,001 letters [a]. *)
Definition long_text : str := repeat 97%N 50001.

(** The Kelvin sign, U+212A. *)
Definition kelvin : str := [8490%N].

End Samples.

(** ** Notions used to state the keyword ranking *)

(** How often [w] occurs in [ws]. *)
Definition freq (w : str) (ws : list str) : Z := len (filter (str_eqb w) ws).

(** Where [w] occurs first in [ws]. *)
Fixpoint first_index (w : str) (ws : list str) : nat :=
  match ws with
  | [] => O
  | x :: t => if str_eqb x w then O else S (first_index w t)
  end.

(** [a] is listed before [b]: a larger count, or the same count and an
    earlier first occurrence in [ws]. *)
Definition ranks_before (ws : list str) (a b : str * Z) : Prop :=
  (snd b < snd a)%Z
  \/ (snd a = snd b /\ (first_index (fst a) ws < first_index (fst b) ws)%nat).

(** [round((count / total) * 100, 2)] *)
Definition density_of (count total : Z) : result PyFloat.float :=
  q <- PyFloat.int_true_divide count total ;;
  PyFloat.round2 (PyFloat.mul q (PyFloat.of_int 100)).

Definition entry (e : TextAnalyzer.keyword) : str * Z :=
  (TextAnalyzer.word e, TextAnalyzer.count e).

(** The distinct words of [ws], each at its first occurrence. *)
Fixpoint distinct (ws : list str) : list str :=
  match ws with
  | [] => []
  | w :: t => w :: filter (fun x => negb (str_eqb x w)) (distinct t)
  end.

(** The body of the loop of [get_keyword_density], for [total_words]
    filtered words. *)
Definition keyword_of (total_words : Z) (item : str * Z)
  : result TextAnalyzer.keyword :=
  let (word, count) := item in
  q <- PyFloat.int_true_divide count total_words ;;
  let density := PyFloat.mul q (PyFloat.of_int 100) in
  d <- PyFloat.round2 density ;;
  Return {| TextAnalyzer.word := word; TextAnalyzer.count := count;
            TextAnalyzer.density := d |}.

(** ** Notions used to describe the scans of [remove_extra_spaces] *)

(** The positions a greedy run of class [f] can end at, longest first. *)
Fixpoint backs (f : N -> bool) (prev : option N) (s : str) : list Re.pos :=
  match s with
  | c :: t => if f c then backs f (Some c) t ++ [(prev, s)] else [(prev, s)]
  | [] => [(prev, [])]
  end.

(** The length of the longest prefix in class [f]. *)
Fixpoint run_len (f : N -> bool) (s : str) : nat :=
  match s with
  | c :: t => if f c then S (run_len f t) else O
  | [] => O
  end.

(** The character before the position reached after passing over [l]. *)
Definition last_char (prev : option N) (l : str) : option N :=
  fold_left (fun _ c => Some c) l prev.

(** Every run of spaces and tabs replaced by one space: a space is written
    at the last character of each run. *)
Fixpoint squeeze (s : str) : str :=
  match s with
  | [] => []
  | c :: t =>
      if Re.is_blank c
      then match t with
           | c' :: _ => if Re.is_blank c' then squeeze t else SPACE :: squeeze t
           | [] => [SPACE]
           end
      else c :: squeeze t
  end.

Definition head_blank (s : str) : bool :=
  match s with
  | c :: _ => Re.is_blank c
  | [] => false
  end.

(** No tab and no two adjacent spaces. *)
Fixpoint tidy (s : str) : bool :=
  match s with
  | [] => true
  | c :: t => negb (N.eqb c TAB) && negb (Re.is_blank c && head_blank t) && tidy t
  end.

(** Whether the character before a position is a line feed. *)
Definition after_lf (prev : option N) : bool :=
  match prev with
  | Some c => Re.is_lf c
  | None => false
  end.

(** For a run [w] of white space that follows [prev]: [None] when it has
    no line feed, otherwise whether its last line feed comes right after
    another line feed. *)
Fixpoint last_lf_after_lf (prev : option N) (w : str) : option bool :=
  match w with
  | [] => None
  | c :: t =>
      match last_lf_after_lf (Some c) t with
      | Some b => Some b
      | None => if Re.is_lf c then Some (after_lf prev) else None
      end
  end.

(** What the third substitution of [remove_extra_spaces] leaves of a run
    of white space that stands between two other characters: a run without
    line feed stays; of a run with line feeds one line feed stays, or
    nothing when the last two line feeds are adjacent. *)
Definition trim_interior (prev : option N) (w : str) : str :=
  match last_lf_after_lf prev w with
  | None => w
  | Some true => []
  | Some false => [LF]
  end.

(** White space other than the line feed. *)
Definition is_gap (c : N) : bool := isspace c && negb (Re.is_lf c).

(** The runs of white space of a cleaned text: a single line feed, or
    white space without line feed, tab or doubled space. *)
Definition good_run (y : str) : Prop :=
  y = [LF] \/ (forallb is_gap y = true /\ tidy y = true).

(** What follows the first character of a cleaned text: runs as above, each
    followed by a character that is no white space. *)
Inductive clean_tail : str -> Prop :=
| clean_end : clean_tail []
| clean_run (y : str) (c : N) (t : str) :
    good_run y -> isspace c = false -> clean_tail t ->
    clean_tail (y ++ c :: t).

Definition clean (r : str) : Prop :=
  r = [] \/ exists c t, r = c :: t /\ isspace c = false /\ clean_tail t.

(** Whether a position is at the beginning of a line: at the start of the
    text or just after a line feed. *)
Definition line_start (prev : option N) : bool :=
  match prev with
  | Some c => Re.is_lf c
  | None => true
  end.

(** ** Notions used to describe what a pattern consumes *)

(** Every character class of the pattern lies within [W]. *)
Fixpoint classes_in (W : N -> bool) (r : Re.regex) : Prop :=
  match r with
  | Re.Class f => forall c, f c = true -> W c = true
  | Re.Cat a b | Re.Alt a b => classes_in W a /\ classes_in W b
  | Re.Star a | Re.Plus a => classes_in W a
  | Re.Bol | Re.Eol | Re.WordB _ => True
  end.

(** The least number of characters a match of the pattern has. *)
Fixpoint min_len (r : Re.regex) : nat :=
  match r with
  | Re.Class _ => 1
  | Re.Cat a b => min_len a + min_len b
  | Re.Alt a b => Nat.min (min_len a) (min_len b)
  | Re.Star _ => 0
  | Re.Plus a => min_len a
  | Re.Bol | Re.Eol | Re.WordB _ => 0
  end.

(** The characters of a text that are no white space. *)
Definition visible (s : str) : str := filter (fun c => negb (isspace c)) s.


(** What a pattern has consumed between a position [p] and the end [q] of
    one of its matches: characters of [W], at least [n] of them. *)
Definition consumed (W : N -> bool) (n : nat) (p q : Re.pos) : Prop :=
  exists w, snd p = w ++ snd q /\ forallb W w = true
            /\ fst q = last_char (fst p) w /\ (n <= List.length w)%nat.

(** The maximal runs of characters of class [f] in [s], in order; [cur] is
    the run being read. *)
Fixpoint runs (f : N -> bool) (s : str) (cur : str) : list str :=
  match s with
  | [] => if TextAnalyzer.nonempty cur then [cur] else []
  | c :: t =>
      if f c then runs f t (cur ++ [c])
      else (if TextAnalyzer.nonempty cur then [cur] else []) ++ runs f t []
  end.

(** The characters other than the sentence terminators [.], [!] and [?]. *)
Definition unstopped (s : str) : str := filter (fun c => negb (Re.is_stop c)) s.

(** Whether a text has an empty line: two line feeds with nothing but
    white space between them.  [seen_lf] tells whether the white space
    just read has a line feed. *)
Fixpoint blank_line (seen_lf : bool) (s : str) : bool :=
  match s with
  | [] => false
  | c :: t =>
      if Re.is_lf c then (if seen_lf then true else blank_line true t)
      else if isspace c then blank_line seen_lf t
      else blank_line false t
  end.

(** The text goes on with white space up to a line feed. *)
Definition opens_blank (s : str) : Prop :=
  exists w r, s = w ++ LF :: r /\ forallb isspace w = true.

(** The text ends with a line feed followed by white space only. *)
Definition pending_lf (cur : str) : Prop :=
  exists a w, cur = a ++ LF :: w /\ forallb isspace w = true.

(** No two neighbouring characters [x], [y] of the text have [bad x y]. *)
Fixpoint no_pair (bad : N -> N -> bool) (s : str) : bool :=
  match s with
  | x :: (y :: _) as t => negb (bad x y) && no_pair bad t
  | _ => true
  end.

(** Two neighbours that are both a space or a tab. *)
Definition both_blank (x y : N) : bool := Re.is_blank x && Re.is_blank y.

(** A line feed next to white space. *)
Definition lf_by_space (x y : N) : bool :=
  (Re.is_lf x && isspace y) || (isspace x && Re.is_lf y).

(** The full stop, which separates a file name from its extension. *)
Definition DOT : N := 46%N.

(** The bytes a [read()] of the file returns. *)
Definition unread (f : file) : list byte := skipn (file_pos f) (file_content f).

(** [file.name.lower().split('.')[-1]] *)
Definition file_extension (U : unicode_db) (f : file) : str :=
  Views.after_last_dot (str_lower U (file_name f)).

Definition has_dot (s : str) : bool := existsb (N.eqb DOT) s.

(** ** [CaseConverter.to_sentence] *)

(** [re.split] for a pattern that is one capturing group: the pieces
    between the matches, each followed by the text of the match that ends
    it. *)
Fixpoint split_group_scan (m : Re.matcher) (skip : nat) (prev : option N)
    (s : str) (cur : str) {struct s} : list str :=
  match skip with
  | S k =>
      match s with
      | [] => [cur]
      | c :: t => split_group_scan m k (Some c) t cur
      end
  | O =>
      match m prev s with
      | Some (S k) =>
          cur :: firstn (S k) s ::
            match s with
            | [] => [[]]
            | c :: t => split_group_scan m k (Some c) t []
            end
      | Some O =>
          cur :: [] ::
            match s with
            | [] => [[]]
            | c :: t => split_group_scan m 0 (Some c) t [c]
            end
      | None =>
          match s with
          | [] => [cur]
          | c :: t => split_group_scan m 0 (Some c) t (cur ++ [c])
          end
      end
  end.

Definition split_group (r : Re.regex) (s : str) : list str :=
  split_group_scan (Re.match_at r) 0 None s [].

(** [r'([.!?]+)'] *)
Definition sentence_split_re : Re.regex := Re.Plus (Re.Class Re.is_stop).

(** [part[0].upper() + part[1:].lower() if len(part) > 1 else part.upper()] *)
Definition capitalize (U : unicode_db) (part : str) : str :=
  if (1 <? len part)%Z
  then str_upper U (firstn 1 part) ++ str_lower U (skipn 1 part)
  else str_upper U part.

(** The loop of [to_sentence] from index [i] on: the parts at even indices
    are text, those at odd indices are punctuation. *)
Fixpoint to_sentence_parts (U : unicode_db) (i : nat) (sentences : list str)
  : list str :=
  match sentences with
  | [] => []
  | part :: rest =>
      (if Nat.even i
       then let part := strip part in
            if TextAnalyzer.nonempty part then capitalize U part else part
       else part)
      :: to_sentence_parts U (S i) rest
  end.

Definition to_sentence (U : unicode_db) (text : str) : str :=
  if negb (TextAnalyzer.nonempty text) then text
  else join [] (to_sentence_parts U 0 (split_group sentence_split_re text)).

(** ** Notions used to describe [to_sentence] *)

(** A stripped piece of text with its first character in upper case and
    the others in lower case; the empty piece stays empty. *)
Definition sentence_piece (U : unicode_db) (cur : str) : str :=
  let part := strip cur in
  if TextAnalyzer.nonempty part then capitalize U part else part.

(** The text read from left to right: the piece [cur] read so far is
    written out as a [sentence_piece] when a terminator or the end is
    reached, and terminators are copied. *)
Fixpoint sentence_case (U : unicode_db) (s : str) (cur : str) : str :=
  match s with
  | [] => sentence_piece U cur
  | c :: t =>
      if Re.is_stop c then sentence_piece U cur ++ c :: sentence_case U t []
      else sentence_case U t (cur ++ [c])
  end.

(** A sentence terminator next to white space. *)
Definition stop_by_space (x y : N) : bool :=
  (Re.is_stop x && isspace y) || (isspace x && Re.is_stop y).

(** The sharp s, U+00DF. *)
Definition sharp_s : str := [223%N].

(** [sentence_piece] on ASCII text. *)
Definition ascii_piece (cur : str) : str :=
  match strip cur with
  | [] => []
  | c :: t => ascii_upper c :: map ascii_lower t
  end.

(** Whether the first, and the last, character of a text is no white
    space; an empty text passes. *)
Definition head_visible (p : str) : bool :=
  match p with
  | [] => true
  | c :: _ => negb (isspace c)
  end.

Fixpoint last_visible (p : str) : bool :=
  match p with
  | [] => true
  | c :: t => match t with [] => negb (isspace c) | _ :: _ => last_visible t end
  end.

(** ** [CaseConverter.to_title] *)

(** The tables [str.title] consults, one row per character: whether the
    character is cased, whether it is case-ignorable, its title-case and
    its lower-case mapping.  Like the other tables of the interpreter they
    are taken as given. *)
Record case_tables : Type := {
  is_cased : N -> bool;
  is_case_ignorable : N -> bool;
  to_title_full : N -> str;
  to_lower_full : N -> str
}.

Fixpoint first_not_ignorable (T : case_tables) (s : str) : option N :=
  match s with
  | [] => None
  | c :: t => if is_case_ignorable T c then first_not_ignorable T t else Some c
  end.

(** The lower case of the capital sigma U+03A3 between the characters
    before it, nearest first, and those after it: the final sigma U+03C2
    after a cased character and not before one, else U+03C3. *)
Definition handle_capital_sigma (T : case_tables) (before after : str) : N :=
  let final_sigma :=
    match first_not_ignorable T before with
    | Some c => is_cased T c
    | None => false
    end in
  let final_sigma :=
    if final_sigma
    then match first_not_ignorable T after with
         | Some c => negb (is_cased T c)
         | None => true
         end
    else false in
  if final_sigma then 962%N else 963%N.

Definition lower_ucs4 (T : case_tables) (before : str) (c : N) (after : str)
  : str :=
  if N.eqb c 931 then [handle_capital_sigma T before after]
  else to_lower_full T c.

(** [str.title]: a character that follows a cased character is written in
    lower case, any other in title case. *)
Fixpoint do_title (T : case_tables) (before : str) (previous_is_cased : bool)
    (s : str) : str :=
  match s with
  | [] => []
  | c :: t =>
      (if previous_is_cased then lower_ucs4 T before c t
       else to_title_full T c)
      ++ do_title T (c :: before) (is_cased T c) t
  end.

Definition to_title (T : case_tables) (text : str) : str :=
  do_title T [] false text.

(** A letter of the ASCII alphabet. *)
Definition is_letter (c : N) : bool :=
  ((65 <=? c) && (c <=? 90) || (97 <=? c) && (c <=? 122))%N.

(** What is known of the tables: on ASCII the cased characters are the
    letters, and the mappings are those of [A-Z] and [a-z]. *)
Record title_laws (T : case_tables) : Prop := {
  cased_ascii : forall c, is_ascii c = true -> is_cased T c = is_letter c;
  title_ascii_row : forall c, is_ascii c = true ->
                              to_title_full T c = [ascii_upper c];
  lower_ascii_row : forall c, is_ascii c = true ->
                              to_lower_full T c = [ascii_lower c]
}.

(** The rows of the tables for ASCII; the rows of the other blocks are not
    entered. *)
Definition ascii_tables : case_tables :=
  {| is_cased := is_letter;
     is_case_ignorable :=
       fun c => existsb (N.eqb c) [39; 46; 58; 94; 96]%N;
     to_title_full := fun c => [ascii_upper c];
     to_lower_full := fun c => [ascii_lower c] |}.

(** Title case of ASCII text: a letter is written in upper case at the
    start and after a character that is no letter, in lower case after a
    letter. *)
Fixpoint title_ascii (previous_is_letter : bool) (s : str) : str :=
  match s with
  | [] => []
  | c :: t =>
      (if previous_is_letter then ascii_lower c else ascii_upper c)
      :: title_ascii (is_letter c) t
  end.

(** A Unicode scalar value: a code point up to U+10FFFF that is no
    surrogate. *)
Definition is_scalar (c : N) : bool :=
  ((c <? 55296) || ((57343 <? c) && (c <? 1114112)))%N.

(** ** The decorators of [process_file_api] *)

Inductive http_method : Type :=
| GET
| POST
| OtherMethod (name : string).

(** What the client receives from the decorated view: 405 from
    [require_http_methods], 403 when [ratelimit] raises [Ratelimited], or
    the [JsonResponse] of the view. *)
Inductive http_response : Type :=
| MethodNotAllowed
| Forbidden
| Json (r : Views.response).

(** [rate='10/m'] *)
Definition RATE_LIMIT : Z := 10.

(** [@require_http_methods(["POST"])] over
    [@ratelimit(key='ip', rate='10/m', method='POST')] over the view.
    [count] is what the limiter has counted for the address of the client
    in the current minute; the limiter counts the request, and refuses it
    when the count is above the limit.  A request that is no POST is
    turned away before the limiter sees it. *)
Definition process_file_endpoint (env : environment) (U : unicode_db)
    (method : http_method) (count : Z) (upload : option file)
  : http_response * Z :=
  match method with
  | POST =>
      let count := (count + 1)%Z in
      if (RATE_LIMIT <? count)%Z then (Forbidden, count)
      else (Json (Views.process_file_api env U upload), count)
  | _ => (MethodNotAllowed, count)
  end.

(** ** What is known of [str.upper] after [str.lower]

    [str.upper] maps each character by itself.  [str.lower] does so too
    except at the capital sigma, whose two lower-case forms have the same
    upper case; so the upper case of the lower case of a text is again
    formed character by character. *)
Record case_laws (U : unicode_db) : Prop := {
  upper_app : forall a b,
    str_upper U (a ++ b) = str_upper U a ++ str_upper U b;
  upper_lower_app : forall a b,
    str_upper U (str_lower U (a ++ b))
    = str_upper U (str_lower U a) ++ str_upper U (str_lower U b)
}.

(** The characters of Latin-1. *)
Definition latin_1_characters : list N := map N.of_nat (seq 0 256).

(** A database that has the rows of the Unicode tables for the characters
    of Latin-1, which [BasicLatin] tabulates. *)
Definition latin_1_rows (U : unicode_db) : Prop :=
  forall c, (c < 256)%N ->
    str_lower U [c] = BasicLatin.lower_char c
    /\ str_upper U [c] = BasicLatin.upper_char c.

(** * Properties *)

(** ** Binary64 arithmetic *)

Section FloatFacts.
Import PyFloat.
Local Open Scope Z_scope.

Lemma digits2_pos_bounds (p : positive) :
  2 ^ (Zpos (digits2_pos p) - 1) <= Zpos p < 2 ^ Zpos (digits2_pos p).
Proof.
  induction p as [p IH | p IH |]; cbn [digits2_pos].
  - rewrite Pos2Z.inj_succ.
    replace (Z.succ (Zpos (digits2_pos p)) - 1) with (Z.succ (Zpos (digits2_pos p) - 1)) by lia.
    rewrite !Z.pow_succ_r by lia. lia.
  - rewrite Pos2Z.inj_succ.
    replace (Z.succ (Zpos (digits2_pos p)) - 1) with (Z.succ (Zpos (digits2_pos p) - 1)) by lia.
    rewrite !Z.pow_succ_r by lia. lia.
  - cbn. lia.
Qed.

Lemma Zdigits2_pos_eq (p : positive) (d : Z) :
  2 ^ (d - 1) <= Zpos p < 2 ^ d -> Zpos (digits2_pos p) = d.
Proof.
  intros [Hlo Hhi].
  destruct (digits2_pos_bounds p) as [Hlo' Hhi'].
  assert (0 < d).
  { destruct (Z_lt_le_dec 0 d) as [|Hd]; [assumption|].
    assert (2 ^ d <= 2 ^ 0) by (apply Z.pow_le_mono_r; lia). simpl in *. lia. }
  assert (d - 1 < Zpos (digits2_pos p)).
  { apply (Z.pow_lt_mono_r_iff 2); lia. }
  assert (Zpos (digits2_pos p) - 1 < d).
  { apply (Z.pow_lt_mono_r_iff 2); lia. }
  lia.
Qed.

Lemma Zdigits2_upper (m k : Z) : 0 <= k -> 0 <= m < 2 ^ k -> Zdigits2 m <= k.
Proof.
  intros Hk [H0 Hm]. destruct m as [|p|p]; cbn; try lia.
  destruct (digits2_pos_bounds p) as [Hlo _].
  assert (Zpos (digits2_pos p) - 1 < k); [|lia].
  apply (Z.pow_lt_mono_r_iff 2); lia.
Qed.

Lemma loc_of_record_of (m : Z) (l : location) :
  loc_of_shr_record (shr_record_of_loc m l) = l.
Proof. destruct l as [|[]]; reflexivity. Qed.

Lemma shr_m_record_of (m : Z) (l : location) :
  shr_m (shr_record_of_loc m l) = m.
Proof. destruct l as [|[]]; reflexivity. Qed.

(* The final normalisation of binary_round_aux on a mantissa of 53 bits, or
   on 2^53. *)
Lemma renormalise (m1 e : Z) :
  2 ^ 52 <= m1 <= 2 ^ 53 -> -1074 <= e <= 970 ->
  exists m ef,
    (let '(mrs, e'') := shr_fexp prec emax m1 e loc_Exact in
     match shr_m mrs with
     | Z0 => S754_zero false
     | Zpos m => if e'' <=? emax - prec then S754_finite false m e''
                 else S754_infinity false
     | Zneg _ => S754_nan
     end) = S754_finite false m ef
    /\ e <= ef <= e + 1 /\ Zpos m * 2 ^ (ef - e) = m1.
Proof.
  intros Hm He.
  destruct m1 as [|p|p]; try lia.
  destruct (Z_lt_le_dec (Zpos p) (2 ^ 53)) as [Hlt | Hge].
  - assert (Hd : Zpos (digits2_pos p) = 53) by (apply Zdigits2_pos_eq; lia).
    unfold shr_fexp. cbn [Zdigits2]. rewrite Hd.
    replace (fexp prec emax (53 + e) - e) with 0
      by (unfold fexp, emin, prec, emax; lia).
    cbn [shr shr_record_of_loc shr_m].
    exists p, e. replace (e <=? emax - prec) with true
      by (symmetry; apply Z.leb_le; unfold emax, prec; lia).
    rewrite Z.sub_diag. cbn. split; [reflexivity | lia].
  - assert (Hp : Zpos p = 2 ^ 53) by lia.
    injection Hp as ->.
    unfold shr_fexp. cbn [Zdigits2 digits2_pos Pos.succ].
    replace (fexp prec emax (54 + e) - e) with 1
      by (unfold fexp, emin, prec, emax; lia).
    cbn [shr shr_record_of_loc shr_m iter_pos shr_1].
    eexists _, (e + 1). replace (e + 1 <=? emax - prec) with true
      by (symmetry; apply Z.leb_le; unfold emax, prec; lia).
    split; [reflexivity|]. split; [lia|].
    replace (e + 1 - e) with 1 by lia. reflexivity.
Qed.

Lemma round_53_54 (q e : Z) (l : location) :
  2 ^ 52 <= q < 2 ^ 54 -> -1074 <= e <= 960 ->
  exists m ef,
    binary_round_aux prec emax false q e l = S754_finite false m ef
    /\ e <= ef <= e + 2
    /\ q - 1 <= Zpos m * 2 ^ (ef - e) <= q + 1
    /\ (Z.even q = true -> l = loc_Exact -> Zpos m * 2 ^ (ef - e) = q).
Proof.
  intros Hq He.
  destruct q as [|p|p]; try lia.
  destruct (Z_lt_le_dec (Zpos p) (2 ^ 53)) as [Hlt | Hge].
  - assert (Hd : Zpos (digits2_pos p) = 53) by (apply Zdigits2_pos_eq; lia).
    assert (Hfirst : shr_fexp prec emax (Zpos p) e l
                     = (shr_record_of_loc (Zpos p) l, e)).
    { unfold shr_fexp. cbn [Zdigits2]. rewrite Hd.
      replace (fexp prec emax (53 + e) - e) with 0
        by (unfold fexp, emin, prec, emax; lia).
      reflexivity. }
    unfold binary_round_aux. rewrite Hfirst.
    rewrite shr_m_record_of, loc_of_record_of.
    set (m1 := round_nearest_even (Zpos p) l).
    assert (Hm1 : Zpos p <= m1 <= Zpos p + 1 /\ (l = loc_Exact -> m1 = Zpos p)).
    { subst m1. destruct l as [|[]]; cbn [round_nearest_even];
        try destruct (Z.even (Zpos p)); split; try lia; try discriminate;
        reflexivity. }
    destruct (@renormalise m1 e) as (m & ef & Heq & Hef & HM); [lia | lia |].
    rewrite Heq. exists m, ef. rewrite HM. repeat split; try lia.
    intros _ Hl. apply Hm1, Hl.
  - assert (Hd : Zpos (digits2_pos p) = 54) by (apply Zdigits2_pos_eq; lia).
    assert (Hfirst : shr_fexp prec emax (Zpos p) e l
                     = (shr_1 (shr_record_of_loc (Zpos p) l), e + 1)).
    { unfold shr_fexp. cbn [Zdigits2]. rewrite Hd.
      replace (fexp prec emax (54 + e) - e) with 1
        by (unfold fexp, emin, prec, emax; lia).
      reflexivity. }
    unfold binary_round_aux. rewrite Hfirst.
    set (mrs := shr_1 (shr_record_of_loc (Zpos p) l)).
    set (m1 := round_nearest_even (shr_m mrs) (loc_of_shr_record mrs)).
    assert (Hm1 : Zpos p - 1 <= 2 * m1 <= Zpos p + 1
                  /\ (Z.even (Zpos p) = true -> 2 * m1 = Zpos p)).
    { subst m1 mrs.
      destruct p as [p' | p' |]; [| |cbn in Hge; lia];
        destruct l as [|[]]; cbn; try destruct p'; cbn;
        split; try lia; try discriminate; try reflexivity. }
    destruct (@renormalise m1 (e + 1)) as (m & ef & Heq & Hef & HM); [lia | lia |].
    rewrite Heq. exists m, ef.
    replace (ef - e) with (Z.succ (ef - (e + 1))) by lia.
    rewrite Z.pow_succ_r by lia.
    replace (Zpos m * (2 * 2 ^ (ef - (e + 1))))
      with (2 * (Zpos m * 2 ^ (ef - (e + 1)))) by ring.
    rewrite HM. repeat split; try lia.
    intros Hev _. apply Hm1, Hev.
Qed.

Lemma div_eucl_div_mod (a b : Z) : Z.div_eucl a b = (a / b, a mod b).
Proof. unfold Z.div, Z.modulo. destruct (Z.div_eucl a b); reflexivity. Qed.

Lemma new_location_0 (w : Z) : new_location w 0 = loc_Exact.
Proof.
  unfold new_location, new_location_even, new_location_odd.
  destruct (Z.even w); reflexivity.
Qed.

Lemma div_core_small (n w : Z) :
  0 < n < 2 ^ 52 -> 2 ^ 7 <= w < 2 ^ 8 ->
  SFdiv_core_binary prec emax n 0 w 0
  = (n * 2 ^ (61 - Zdigits2 n) / w, Zdigits2 n - 61,
     new_location w ((n * 2 ^ (61 - Zdigits2 n)) mod w)).
Proof.
  intros Hn Hw.
  assert (Hdw : Zdigits2 w = 8).
  { destruct w as [|pw|pw]; try lia. cbn [Zdigits2].
    apply Zdigits2_pos_eq. lia. }
  assert (Hdn : 1 <= Zdigits2 n <= 52).
  { split.
    - destruct n as [|pn|pn]; try lia. cbn [Zdigits2]. lia.
    - apply Zdigits2_upper; lia. }
  unfold SFdiv_core_binary. rewrite Hdw.
  set (d := Zdigits2 n) in *.
  replace (Z.min (fexp prec emax (d + 0 - (8 + 0))) (0 - 0)) with (d - 61)
    by (unfold fexp, emin, prec, emax; lia).
  replace (0 - 0 - (d - 61)) with (61 - d) by lia.
  destruct (61 - d) as [|s|s] eqn:Hs; try lia.
  rewrite Z.shiftl_mul_pow2 by lia.
  rewrite div_eucl_div_mod. reflexivity.
Qed.

Lemma ceil_div_unique (a b c : Z) :
  0 < b -> (c - 1) * b < a <= c * b -> ceil_div a b = c.
Proof.
  intros Hb Hc. unfold ceil_div.
  assert (H : - c = - a / b); [|lia].
  apply Z.div_unique with (r := c * b - a); lia.
Qed.

Lemma ceil_div_bounds (a b : Z) :
  0 < b -> (ceil_div a b - 1) * b < a <= ceil_div a b * b.
Proof.
  intros Hb. unfold ceil_div.
  pose proof (Z.div_mod (- a) b ltac:(lia)) as Hdm.
  pose proof (Z.mod_pos_bound (- a) b Hb) as Hm.
  nia.
Qed.

Lemma true_divide_ceil (n w : Z) :
  0 < n < 2 ^ 52 -> 2 ^ 7 <= w < 2 ^ 8 ->
  exists q, int_true_divide n w = Return q /\ ceil q = Return (ceil_div n w).
Proof.
  intros Hn Hw.
  pose proof (div_core_small Hn Hw) as Hcore.
  assert (Hd : 1 <= Zdigits2 n <= 52).
  { split.
    - destruct n as [|pn|pn]; try lia. cbn [Zdigits2]. lia.
    - apply Zdigits2_upper; lia. }
  assert (Hnd : 2 ^ (Zdigits2 n - 1) <= n < 2 ^ Zdigits2 n).
  { destruct n as [|pn|pn]; try lia. apply digits2_pos_bounds. }
  set (d := Zdigits2 n) in *.
  set (P := 2 ^ (61 - d)) in *.
  assert (HP : 2 ^ 60 <= n * P < 2 ^ 61 /\ 2 ^ 9 <= P).
  { subst P. split.
    - assert (H60 : 2 ^ 60 = 2 ^ (d - 1) * 2 ^ (61 - d))
        by (rewrite <- Z.pow_add_r by lia; f_equal; lia).
      assert (H61 : 2 ^ 61 = 2 ^ d * 2 ^ (61 - d))
        by (rewrite <- Z.pow_add_r by lia; f_equal; lia).
      assert (0 < 2 ^ (61 - d)) by (apply Z.pow_pos_nonneg; lia).
      rewrite H60, H61. split.
      + apply Z.mul_le_mono_nonneg_r; lia.
      + apply Z.mul_lt_mono_pos_r; lia.
    - apply Z.pow_le_mono_r; lia. }
  set (q0 := n * P / w) in *. set (r0 := (n * P) mod w) in *.
  assert (Hqr : n * P = w * q0 + r0 /\ 0 <= r0 < w).
  { split; [apply Z.div_mod; lia | apply Z.mod_pos_bound; lia]. }
  assert (Hq0 : 2 ^ 52 <= q0 < 2 ^ 54).
  { change (2 ^ 7) with 128 in Hw. change (2 ^ 8) with 256 in Hw.
    change (2 ^ 60) with (256 * 2 ^ 52) in HP.
    change (2 ^ 61) with (128 * 2 ^ 54) in HP.
    subst q0. split.
    - apply Z.div_le_lower_bound; lia.
    - apply Z.div_lt_upper_bound; lia. }
  destruct (round_53_54 (q := q0) (e := d - 61) (new_location w r0))
    as (m & ef & Heq & Hef & HM & Hex); [lia | lia |].
  destruct n as [|pn|pn]; try lia. destruct w as [|pw|pw]; try lia.
  unfold int_true_divide, SFdiv. cbn [Z.ltb Z.compare Z.abs Z.to_pos xorb].
  rewrite Hcore. fold d. fold P. fold q0. fold r0. rewrite Heq.
  eexists; split; [reflexivity|].
  destruct ef as [| pe | pe]; try lia.
  unfold ceil. f_equal. unfold ceil_div_pow2. rewrite Z.pow_pos_fold.
  change (- (- Zpos m / 2 ^ Zpos pe)) with (ceil_div (Zpos m) (2 ^ Zpos pe)).
  set (A := 2 ^ Zpos pe). set (B := 2 ^ (Zneg pe - (d - 61))) in *.
  assert (HA : 0 < A) by (apply Z.pow_pos_nonneg; lia).
  assert (HB : 0 < B) by (apply Z.pow_pos_nonneg; lia).
  assert (HPAB : P = A * B).
  { subst P A B. rewrite <- Z.pow_add_r by lia. f_equal. lia. }
  pose proof (ceil_div_bounds (Zpos pn) (b := Zpos pw) ltac:(lia)) as Hc.
  set (c := ceil_div (Zpos pn) (Zpos pw)) in *.
  apply ceil_div_unique; [exact HA|].
  destruct (Z.eq_dec (Zpos pn) (c * Zpos pw)) as [Hexact | Hinexact].
  - assert (Hr0 : r0 = 0).
    { subst r0. rewrite Hexact.
      replace (c * Zpos pw * P) with (c * P * Zpos pw) by ring.
      apply Z.mod_mul. lia. }
    assert (Hq0c : q0 = c * P).
    { subst q0. rewrite Hexact.
      replace (c * Zpos pw * P) with (c * P * Zpos pw) by ring.
      apply Z.div_mul. lia. }
    assert (Heven : Z.even q0 = true).
    { rewrite Hq0c. subst P.
      replace (61 - d) with (Z.succ (60 - d)) by lia.
      rewrite Z.pow_succ_r by lia.
      replace (c * (2 * 2 ^ (60 - d))) with (2 * (c * 2 ^ (60 - d))) by ring.
      apply Z.even_mul. }
    rewrite Hr0, new_location_0 in Hex.
    specialize (Hex Heven eq_refl). nia.
  - change (2 ^ 9) with 512 in HP.
    change (2 ^ 7) with 128 in Hw. change (2 ^ 8) with 256 in Hw.
    assert (Hlo : (c - 1) * P + 2 <= q0) by nia.
    assert (Hhi : q0 <= c * P - 1) by nia.
    nia.
Qed.

(** Shifting right: the mantissa is divided by a power of two. *)
Lemma shr_1_m (mrs : shr_record) :
  0 <= shr_m mrs -> shr_m (shr_1 mrs) = shr_m mrs / 2.
Proof.
  destruct mrs as [m r s]. cbn [shr_m]. intros Hm.
  destruct m as [|[p|p|]|p]; cbn [shr_1 shr_m]; try lia.
  - reflexivity.
  - rewrite (Pos2Z.inj_xI p). apply Z.div_unique with (r := 1); lia.
  - rewrite (Pos2Z.inj_xO p). apply Z.div_unique with (r := 0); lia.
  - reflexivity.
Qed.

Lemma iter_pos_shr_m (p : positive) : forall mrs,
  0 <= shr_m mrs ->
  shr_m (iter_pos shr_1 p mrs) = shr_m mrs / 2 ^ Zpos p.
Proof.
  induction p as [p IH | p IH |]; intros mrs Hm; cbn [iter_pos].
  - assert (H1 : 0 <= shr_m (shr_1 mrs))
      by (rewrite shr_1_m by assumption; apply Z.div_pos; lia).
    assert (H2 : 0 <= shr_m (iter_pos shr_1 p (shr_1 mrs)))
      by (rewrite IH by assumption; apply Z.div_pos; [|apply Z.pow_pos_nonneg]; lia).
    rewrite IH, IH, shr_1_m by assumption.
    assert (0 < 2 ^ Zpos p) by (apply Z.pow_pos_nonneg; lia).
    rewrite !Z.div_div by lia. f_equal.
    rewrite (Pos2Z.inj_xI p), Z.pow_add_r, Z.pow_mul_r by lia.
    change (2 ^ 2) with 4. change (2 ^ 1) with 2.
    replace (4 ^ Zpos p) with (2 ^ Zpos p * 2 ^ Zpos p)
      by (rewrite <- Z.pow_mul_l; reflexivity).
    ring.
  - assert (H2 : 0 <= shr_m (iter_pos shr_1 p mrs))
      by (rewrite IH by assumption; apply Z.div_pos; [|apply Z.pow_pos_nonneg]; lia).
    rewrite IH, IH by assumption.
    assert (0 < 2 ^ Zpos p) by (apply Z.pow_pos_nonneg; lia).
    rewrite !Z.div_div by lia. f_equal.
    rewrite (Pos2Z.inj_xO p), Z.pow_mul_r by lia.
    change (2 ^ 2) with 4.
    rewrite <- Z.pow_mul_l. reflexivity.
  - rewrite shr_1_m by assumption. reflexivity.
Qed.

Lemma shr_spec (mrs : shr_record) (e n : Z) :
  0 <= shr_m mrs ->
  snd (shr mrs e n) = e + Z.max n 0
  /\ shr_m (fst (shr mrs e n)) = shr_m mrs / 2 ^ Z.max n 0.
Proof.
  intros Hm. destruct n as [|p|p]; cbn [shr fst snd].
  - rewrite Z.max_id, Z.add_0_r, Z.pow_0_r, Z.div_1_r. split; reflexivity.
  - rewrite Z.max_l by lia. split; [reflexivity | apply iter_pos_shr_m, Hm].
  - rewrite Z.max_r by lia. rewrite Z.add_0_r, Z.pow_0_r, Z.div_1_r.
    split; reflexivity.
Qed.

Lemma round_nearest_even_bounds (m : Z) (l : location) :
  m <= round_nearest_even m l <= m + 1.
Proof.
  destruct l as [|[]]; cbn [round_nearest_even];
    try destruct (Z.even m); lia.
Qed.

(** A value below [2^K] is rounded to zero or to a finite number that is at
    most [2^K]: there is no overflow as long as [K <= 1023]. *)
Lemma binary_round_aux_bound (s : bool) (mz ez : Z) (lz : location) (K : Z) :
  0 <= mz < 2 ^ (K - ez) -> ez <= K -> ez <= 971 -> -1074 <= K <= 1023 ->
  binary_round_aux prec emax s mz ez lz = S754_zero s
  \/ exists m e, binary_round_aux prec emax s mz ez lz = S754_finite s m e
                 /\ e <= K /\ Zpos m <= 2 ^ (K - e).
Proof.
  intros Hmz HezK Hez HK.
  unfold binary_round_aux, shr_fexp.
  set (n1 := fexp prec emax (Zdigits2 mz + ez) - ez).
  destruct (@shr_spec (shr_record_of_loc mz lz) ez n1) as [He1 Hm'];
    [rewrite shr_m_record_of; lia|].
  rewrite shr_m_record_of in Hm'.
  destruct (shr (shr_record_of_loc mz lz) ez n1) as [mrs' e1].
  cbn [fst snd] in He1, Hm'.
  assert (Hdz : Zdigits2 mz <= K - ez) by (apply Zdigits2_upper; lia).
  assert (He1K : ez <= e1 <= K /\ e1 <= 971).
  { subst e1 n1. unfold fexp, emin, prec, emax. lia. }
  assert (Hm'b : 0 <= shr_m mrs' < 2 ^ (K - e1)).
  { rewrite Hm'. replace (Z.max n1 0) with (e1 - ez) by lia.
    assert (0 < 2 ^ (e1 - ez)) by (apply Z.pow_pos_nonneg; lia).
    split; [apply Z.div_pos; lia|].
    apply Z.div_lt_upper_bound; [lia|].
    rewrite <- Z.pow_add_r by lia.
    replace (e1 - ez + (K - e1)) with (K - ez) by lia. lia. }
  set (m1 := round_nearest_even (shr_m mrs') (loc_of_shr_record mrs')).
  pose proof (round_nearest_even_bounds (shr_m mrs') (loc_of_shr_record mrs'))
    as Hm1. fold m1 in Hm1.
  set (n2 := fexp prec emax (Zdigits2 m1 + e1) - e1).
  destruct (@shr_spec (shr_record_of_loc m1 loc_Exact) e1 n2) as [He2 Hm''];
    [cbn; lia|].
  destruct (shr (shr_record_of_loc m1 loc_Exact) e1 n2) as [mrs'' e2].
  cbn [fst snd shr_record_of_loc shr_m] in He2, Hm''.
  assert (Hd1 : Zdigits2 m1 <= K - e1 + 1).
  { apply Zdigits2_upper; [lia|]. rewrite Z.pow_add_r by lia. lia. }
  assert (He2K : e1 <= e2 <= K /\ e2 <= 971).
  { subst e2 n2. unfold fexp, emin, prec, emax. lia. }
  assert (Hm''b : 0 <= shr_m mrs'' <= 2 ^ (K - e2)).
  { rewrite Hm''. replace (Z.max n2 0) with (e2 - e1) by lia.
    assert (0 < 2 ^ (e2 - e1)) by (apply Z.pow_pos_nonneg; lia).
    split; [apply Z.div_pos; lia|].
    apply Z.div_le_upper_bound; [lia|].
    rewrite <- Z.pow_add_r by lia.
    replace (e2 - e1 + (K - e2)) with (K - e1) by lia. lia. }
  destruct (shr_m mrs'') as [|m|m]; [left; reflexivity | | lia].
  right. exists m, e2.
  replace (e2 <=? emax - prec) with true
    by (symmetry; apply Z.leb_le; unfold emax, prec; lia).
  repeat split; lia.
Qed.

Lemma SFdiv_bounded (s1 s2 : bool) (a b : positive) (K : Z) :
  Zpos a <= Zpos b * 2 ^ (K - 1) -> 1 <= K <= 1023 ->
  bounded_by K (SFdiv prec emax (S754_finite s1 a 0) (S754_finite s2 b 0)).
Proof.
  intros Hab HK. unfold SFdiv, SFdiv_core_binary.
  set (e' := Z.min (fexp prec emax (Zdigits2 (Zpos a) + 0 - (Zdigits2 (Zpos b) + 0)))
                   (0 - 0)).
  assert (He' : e' <= 0) by (subst e'; lia).
  set (m' := match 0 - 0 - e' with
             | 0 => Zpos a
             | Zpos _ => Z.shiftl (Zpos a) (0 - 0 - e')
             | Zneg _ => 0
             end).
  assert (Hm' : m' = Zpos a * 2 ^ (- e')).
  { subst m'. replace (0 - 0 - e') with (- e') by lia.
    destruct (- e') as [|p|p] eqn:Hs; try lia.
    rewrite Z.shiftl_mul_pow2 by lia. reflexivity. }
  rewrite div_eucl_div_mod. cbv beta iota. unfold bounded_by.
  assert (Hq : 0 <= m' / Zpos b < 2 ^ (K - e')).
  { assert (0 < 2 ^ (- e')) by (apply Z.pow_pos_nonneg; lia).
    assert (0 < 2 ^ (K - 1)) by (apply Z.pow_pos_nonneg; lia).
    split; [apply Z.div_pos; nia|].
    apply Z.div_lt_upper_bound; [lia|].
    replace (K - e') with (Z.succ (K - 1) + - e') by lia.
    rewrite Z.pow_add_r, Z.pow_succ_r by lia. nia. }
  destruct (@binary_round_aux_bound (xorb s1 s2) (m' / Zpos b) e'
              (new_location (Zpos b) (m' mod Zpos b)) K)
    as [Hz | (m & e & Hf & He & Hm)]; try lia.
  - left. eexists. exact Hz.
  - right. exists (xorb s1 s2), m, e. auto.
Qed.

Lemma SFmul_bounded (x y : float) (K K' : Z) :
  bounded_by K x -> bounded_by K' y ->
  -1074 <= K + K' + 1 <= 972 ->
  bounded_by (K + K' + 1) (SFmul prec emax x y).
Proof.
  intros [[s ->] | (s & m & e & -> & He & Hm)]
         [[s' ->] | (s' & m' & e' & -> & He' & Hm')] HK;
    cbn [SFmul]; unfold bounded_by; try (left; eexists; reflexivity).
  assert (0 < 2 ^ (K - e)) by (apply Z.pow_pos_nonneg; lia).
  assert (0 < 2 ^ (K' - e')) by (apply Z.pow_pos_nonneg; lia).
  destruct (@binary_round_aux_bound (xorb s s') (Zpos (m * m')) (e + e')
              loc_Exact (K + K' + 1))
    as [Hz | (m2 & e2 & Hf & He2 & Hm2)]; try lia.
  - replace (K + K' + 1 - (e + e')) with (Z.succ ((K - e) + (K' - e'))) by lia.
    rewrite Z.pow_succ_r, Z.pow_add_r by lia. rewrite Pos2Z.inj_mul. nia.
  - left. eexists. exact Hz.
  - right. exists (xorb s s'), m2, e2. auto.
Qed.

Lemma round_half_even_div_bounds (num den : Z) :
  num / den <= round_half_even_div num den <= num / den + 1.
Proof.
  unfold round_half_even_div.
  destruct (2 * (num mod den) <? den); [lia|].
  destruct (den <? 2 * (num mod den)); [lia|].
  destruct (Z.even (num / den)); lia.
Qed.

Lemma round2_total (x : float) :
  bounded_by 9 x -> exists d, round2 x = Return d.
Proof.
  intros [[s ->] | (s & m & e & -> & He & Hm)]; [eexists; reflexivity|].
  unfold round2.
  set (d := match e with
            | Zneg p => round_half_even_div (Zpos m * 100) (Z.pow_pos 2 p)
            | _ => Zpos m * 100 * 2 ^ e
            end).
  assert (Hd : d <= 100 * 2 ^ 9 + 1).
  { subst d. destruct e as [|p|p].
    - rewrite Z.sub_0_r in Hm. rewrite Z.pow_0_r. lia.
    - assert (H8 : 2 ^ 9 = 2 ^ (9 - Zpos p) * 2 ^ Zpos p)
        by (rewrite <- Z.pow_add_r by lia; f_equal; lia).
      assert (0 < 2 ^ Zpos p) by (apply Z.pow_pos_nonneg; lia).
      rewrite H8. nia.
    - rewrite Z.pow_pos_fold.
      pose proof (round_half_even_div_bounds (Zpos m * 100) (2 ^ Zpos p)) as Hr.
      assert (0 < 2 ^ Zpos p) by (apply Z.pow_pos_nonneg; lia).
      assert (Zpos m * 100 / 2 ^ Zpos p <= 100 * 2 ^ 9); [|lia].
      apply Z.div_le_upper_bound; [lia|].
      replace (9 - Zneg p) with (Zpos p + 9) in Hm by lia.
      rewrite Z.pow_add_r in Hm by lia. nia. }
  destruct d as [|pd|pd]; try (eexists; reflexivity).
  destruct (@SFdiv_bounded s false pd 100%positive 11)
    as [[s' Hz] | (s' & m' & e' & Hf & _)]; [cbn in *; lia | lia | |].
  - rewrite Hz. eexists; reflexivity.
  - rewrite Hf. eexists; reflexivity.
Qed.

(** The density of a keyword that occurs [c] times among [t] words. *)
Lemma density_total (c t : Z) :
  0 < c <= t ->
  exists d, (q <- int_true_divide c t ;; round2 (mul q (of_int 100))) = Return d.
Proof.
  intros Hct.
  destruct c as [|pc|pc]; try lia. destruct t as [|pt|pt]; try lia.
  unfold int_true_divide. cbn [Z.ltb Z.compare Z.abs Z.to_pos].
  assert (H100 : bounded_by 7 (of_int 100)).
  { right. exists false. eexists _, _. split; [reflexivity|]. cbn. lia. }
  destruct (@SFdiv_bounded false false pc pt 1) as [[s Hz] | (s & m & e & Hf & He)];
    [cbn; lia | lia | |].
  - rewrite Hz. cbn [bind Return]. apply round2_total.
    left. eexists. reflexivity.
  - rewrite Hf. cbn [bind Return]. apply round2_total.
    apply (@SFmul_bounded (S754_finite s m e) (of_int 100) 1 7); [|exact H100|lia].
    right. exists s, m, e. auto.
Qed.

End FloatFacts.

(** ** Reading and speaking time *)

Section TimeFacts.
Import PyFloat TextAnalyzer.
Local Open Scope Z_scope.

Lemma calculate_reading_time_eq (n : Z) :
  calculate_reading_time n = time_estimate 225 n.
Proof. reflexivity. Qed.

Lemma calculate_speaking_time_eq (n : Z) :
  calculate_speaking_time n = time_estimate 155 n.
Proof. reflexivity. Qed.

Lemma true_divide_sign (n w : Z) (q : float) :
  0 < n -> 0 < w -> int_true_divide n w = Return q ->
  q = S754_zero false \/ (exists m e, q = S754_finite false m e) \/ q = S754_nan.
Proof.
  intros Hn Hw.
  destruct n as [|pn|pn]; try lia. destruct w as [|pw|pw]; try lia.
  unfold int_true_divide, SFdiv. cbn [Z.ltb Z.compare Z.abs Z.to_pos xorb].
  destruct (SFdiv_core_binary prec emax (Z.pos pn) 0 (Z.pos pw) 0)
    as [[mz ez] lz].
  unfold binary_round_aux.
  destruct (shr_fexp prec emax mz ez lz) as [mrs' e'].
  destruct (shr_fexp prec emax _ e' loc_Exact) as [mrs'' e''].
  destruct (shr_m mrs'') as [|m|m];
    [| destruct (e'' <=? emax - prec) |]; intros H; inversion H; eauto.
Qed.

Lemma Return_inj (A : Type) (a b : A) : Return a = Return b -> a = b.
Proof. unfold Return. congruence. Qed.

Lemma ceil_finite_pos (m : positive) (e c : Z) :
  ceil (S754_finite false m e) = Return c -> 1 <= c.
Proof.
  destruct e as [|p|p]; intros H; cbn [ceil] in H; apply Return_inj in H;
    subst c.
  - rewrite Z.pow_0_r. lia.
  - assert (0 < 2 ^ Zpos p) by (apply Z.pow_pos_nonneg; lia).
    assert (1 * 1 <= Zpos m * 2 ^ Zpos p)
      by (apply Z.mul_le_mono_nonneg; lia).
    lia.
  - unfold ceil_div_pow2. rewrite Z.pow_pos_fold.
    assert (0 < 2 ^ Zpos p) by (apply Z.pow_pos_nonneg; lia).
    assert (- Zpos m / 2 ^ Zpos p < 0); [|lia].
    apply Z.div_lt_upper_bound; lia.
Qed.

(** The seconds are zero whenever an estimate is produced. *)
Lemma time_estimate_seconds (wpm n : Z) (r : time) :
  0 <= n -> 0 < wpm -> time_estimate wpm n = Return r -> seconds r = 0.
Proof.
  intros Hn Hw. unfold time_estimate.
  destruct (Z.eq_dec n 0) as [-> | Hn0].
  - destruct wpm as [|pw|pw]; try lia. cbn. intros H. injection H as <-.
    reflexivity.
  - destruct (int_true_divide n wpm) as [e | q] eqn:Hq; cbn [bind];
      [discriminate|].
    destruct (@true_divide_sign n wpm q) as [-> | [(m & e & ->) | ->]];
      try lia; try assumption.
    + cbn. intros H. injection H as <-. reflexivity.
    + destruct (ceil (S754_finite false m e)) as [x | c] eqn:Hc; cbn [bind];
        [discriminate|].
      apply ceil_finite_pos in Hc.
      replace (c =? 0) with false by (symmetry; apply Z.eqb_neq; lia).
      cbn. intros H. injection H as <-. reflexivity.
    + cbn. discriminate.
Qed.

(** Below [2^52] words the minutes are the exact ceiling. *)
Lemma time_estimate_exact (wpm n : Z) :
  0 < n < 2 ^ 52 -> 2 ^ 7 <= wpm < 2 ^ 8 ->
  time_estimate wpm n = Return {| minutes := ceil_div n wpm; seconds := 0 |}
  /\ 1 <= ceil_div n wpm.
Proof.
  intros Hn Hw.
  destruct (true_divide_ceil Hn Hw) as (q & Hq & Hc).
  assert (Hpos : 1 <= ceil_div n wpm).
  { pose proof (@ceil_div_bounds n wpm ltac:(lia)). nia. }
  split; [|exact Hpos].
  unfold time_estimate. rewrite Hq. cbn [bind Return]. rewrite Hc.
  cbn [bind Return].
  replace (ceil_div n wpm =? 0) with false by (symmetry; apply Z.eqb_neq; lia).
  reflexivity.
Qed.

End TimeFacts.

Section TimeClaims.
Import PyFloat TextAnalyzer.
Local Open Scope Z_scope.

(** C2.  For a word count [n] with [0 <= n < 2^52], reading time has
    [minutes = ceil(n / 225)] and [seconds = ceil((n / 225) * 60) % 60] when
    the minutes are zero and [0] otherwise; speaking time is the same with
    155 words per minute; 450 words read in 2 minutes and 0 seconds.  Below
    the bound the binary64 quotient of the code and the exact quotient have
    the same ceiling; [large_count_minutes] shows a count above it where
    they differ. *)
Theorem reading_speaking_time_formula (n : Z) :
  0 <= n < 2 ^ 52 ->
  calculate_reading_time n
  = Return {| minutes := ceil_div n 225;
              seconds := if ceil_div n 225 =? 0
                         then ceil_div (n * 60) 225 mod 60 else 0 |}
  /\ calculate_speaking_time n
     = Return {| minutes := ceil_div n 155;
                 seconds := if ceil_div n 155 =? 0
                            then ceil_div (n * 60) 155 mod 60 else 0 |}
  /\ calculate_reading_time 450 = Return {| minutes := 2; seconds := 0 |}.
Proof.
  intros Hn.
  rewrite calculate_reading_time_eq, calculate_speaking_time_eq.
  destruct (Z.eq_dec n 0) as [-> | Hn0].
  - repeat split; reflexivity.
  - destruct (@time_estimate_exact 225 n) as [Hr Hr1]; [lia | cbn; lia |].
    destruct (@time_estimate_exact 155 n) as [Hs Hs1]; [lia | cbn; lia |].
    rewrite Hr, Hs.
    replace (ceil_div n 225 =? 0) with false by (symmetry; apply Z.eqb_neq; lia).
    replace (ceil_div n 155 =? 0) with false by (symmetry; apply Z.eqb_neq; lia).
    repeat split; reflexivity.
Qed.

Lemma reading_speaking_time_formula_witness :
  calculate_reading_time 450 = Return {| minutes := 2; seconds := 0 |}
  /\ calculate_speaking_time 450 = Return {| minutes := 3; seconds := 0 |}.
Proof.
  destruct (@reading_speaking_time_formula 450) as (Hr & Hs & _).
  - split; [discriminate | reflexivity].
  - split; [exact Hr | exact Hs].
Defined.

(** At [225 * 2^52 + 1] words the quotient [n / 225] rounds down to the
    binary64 number [2^52], so [math.ceil] gives one minute less than the
    ceiling of the exact quotient. *)
Lemma large_count_minutes :
  0 <= 1013309916158361601
  /\ calculate_reading_time 1013309916158361601
     = Return {| minutes := 4503599627370496; seconds := 0 |}
  /\ ceil_div 1013309916158361601 225 = 4503599627370497
  /\ calculate_reading_time 1013309916158361601
     <> Return {| minutes := ceil_div 1013309916158361601 225;
                  seconds := 0 |}.
Proof.
  split; [discriminate|].
  split; [vm_compute; reflexivity|].
  split; [vm_compute; reflexivity|].
  vm_compute. discriminate.
Qed.

(** C8.  No non-negative word count produces a non-zero [seconds] value,
    for reading or for speaking time: a positive count gives at least one
    minute, so the guarded expression is not evaluated, and at zero words
    it evaluates to zero.  Every count below [2^52] does produce both
    estimates. *)
Theorem seconds_always_zero (n : Z) :
  0 <= n ->
  (forall r, calculate_reading_time n = Return r -> seconds r = 0)
  /\ (forall r, calculate_speaking_time n = Return r -> seconds r = 0)
  /\ (n < 2 ^ 52 ->
      exists r s, calculate_reading_time n = Return r
                  /\ calculate_speaking_time n = Return s
                  /\ seconds r = 0 /\ seconds s = 0
                  /\ (1 <= n -> 1 <= minutes r /\ 1 <= minutes s)).
Proof.
  intros Hn.
  rewrite calculate_reading_time_eq, calculate_speaking_time_eq.
  split; [|split].
  - intros r. apply time_estimate_seconds; lia.
  - intros r. apply time_estimate_seconds; lia.
  - intros Hlt. destruct (Z.eq_dec n 0) as [-> | Hn0].
    + do 2 eexists. repeat split; try reflexivity; lia.
    + destruct (@time_estimate_exact 225 n) as [Hr Hr1]; [lia | cbn; lia |].
      destruct (@time_estimate_exact 155 n) as [Hs Hs1]; [lia | cbn; lia |].
      rewrite Hr, Hs. do 2 eexists.
      repeat split; try reflexivity; assumption.
Qed.

Lemma seconds_always_zero_witness :
  exists r s, calculate_reading_time 100 = Return r
              /\ calculate_speaking_time 100 = Return s
              /\ seconds r = 0 /\ seconds s = 0
              /\ (1 <= 100 -> 1 <= minutes r /\ 1 <= minutes s).
Proof.
  destruct (@seconds_always_zero 100) as (_ & _ & H).
  - discriminate.
  - apply H. reflexivity.
Defined.

End TimeClaims.

(** ** Strings and stripping *)

Section StringFacts.

Lemma dropwhile_all (A : Type) (f : A -> bool) (l : list A) :
  forallb f l = true -> dropwhile f l = [].
Proof.
  induction l as [|c t IH]; cbn; [reflexivity|].
  intros H. apply andb_prop in H as [Hc Ht]. rewrite Hc. exact (IH Ht).
Qed.

Lemma strip_all_space (s : str) : forallb isspace s = true -> strip s = [].
Proof.
  intros H. unfold strip, lstrip. rewrite (dropwhile_all _ _ H).
  reflexivity.
Qed.

Lemma nonempty_false (s : str) : TextAnalyzer.nonempty s = false -> s = [].
Proof. destruct s; [reflexivity | discriminate]. Qed.

End StringFacts.

(** ** Plain-text extraction *)

Section ExtractionFacts.
Import FileProcessor.

Lemma decode_latin_1 (bs : list byte) :
  Codec.decode_charmap Codec.latin_1 bs = Some (map Byte.to_N bs).
Proof.
  induction bs as [|b t IH]; cbn; [reflexivity|]. rewrite IH. reflexivity.
Qed.

(** C9.  Plain-text extraction never raises: Latin-1 has a character for
    every byte value, so a byte sequence that is not UTF-8 is decoded as
    Latin-1.  The text returned is the UTF-8 reading of what [read()]
    gives, or else the Latin-1 reading of the whole file. *)
Theorem extract_text_from_txt_total (f : file) :
  (forall b, Codec.latin_1 b <> None)
  /\ exists text,
       fst (extract_text_from_txt f) = Return text
       /\ (Codec.utf_8 (map Byte.to_N (skipn (file_pos f) (file_content f)))
           = Some text
           \/ (Codec.utf_8 (map Byte.to_N (skipn (file_pos f) (file_content f)))
               = None
               /\ text = map Byte.to_N (file_content f))).
Proof.
  split; [discriminate|].
  unfold extract_text_from_txt, file_read, file_seek. cbn [file_content file_pos].
  destruct (Codec.utf_8 (map Byte.to_N (skipn (file_pos f) (file_content f))))
    as [text|] eqn:Hutf.
  - exists text. split; [reflexivity | left; reflexivity].
  - cbn [skipn]. rewrite decode_latin_1.
    exists (map Byte.to_N (file_content f)).
    split; [reflexivity | right; split; reflexivity].
Qed.

End ExtractionFacts.

(** ** The two endpoints *)

Section ViewFacts.
Import Views.
Local Open Scope Z_scope.

(** The statistics, when produced, count the characters of the text they
    were asked about. *)
Lemma analyze_character_count (U : unicode_db) (t : str) (st : TextAnalyzer.stats) :
  analyze U t = Return st ->
  TextAnalyzer.character_count st = len t
  /\ TextAnalyzer.word_count st
     = len (fst (TextAnalyzer.words U (TextAnalyzer.init t))).
Proof.
  unfold analyze, TextAnalyzer.get_stats.
  destruct (TextAnalyzer.words U (TextAnalyzer.init t)) as [ws s1].
  destruct (TextAnalyzer.sentences s1) as [ss s2].
  destruct (TextAnalyzer.paragraphs s2) as [ps s3].
  cbn [fst].
  destruct (TextAnalyzer.calculate_reading_time (len ws)); [discriminate|].
  destruct (TextAnalyzer.calculate_speaking_time (len ws)); [discriminate|].
  destruct (TextAnalyzer.get_keyword_density ws); [discriminate|].
  cbn [bind]. intros H. apply Return_inj in H. subst st. split; reflexivity.
Qed.

(** C7.  A successful [process_file_api] call returns the first 10,000
    characters of the extracted text as the preview, the statistics of the
    whole extracted text, and the name of the uploaded file. *)
Theorem process_file_success (env : environment) (U : unicode_db)
    (upload : option file) (text : str) (st : TextAnalyzer.stats)
    (filename : str) :
  process_file_api env U upload = FileSuccess text st filename ->
  exists f full,
    upload = Some f
    /\ (fst (FileProcessor.extract_text_from_txt f) = Return full
        \/ fst (FileProcessor.extract_text_from_docx env f) = Return full
        \/ fst (FileProcessor.extract_text_from_pdf env f) = Return full)
    /\ text = firstn 10000 full
    /\ analyze U full = Return st
    /\ TextAnalyzer.character_count st = len full
    /\ filename = file_name f.
Proof.
  unfold process_file_api.
  destruct upload as [f|]; [|discriminate].
  destruct (5 * 1024 * 1024 <? file_size f); [discriminate|].
  set (ext := after_last_dot (str_lower U (file_name f))).
  assert (Hend : forall full,
    match analyze U full with
    | inl e => match exn_kind e with
               | ValueError => JsonError 400 (exn_msg e)
               | _ => JsonError 500 "File processing failed"
               end
    | inr stats => FileSuccess (firstn 10000 full) stats (file_name f)
    end = FileSuccess text st filename ->
    text = firstn 10000 full /\ analyze U full = Return st
    /\ TextAnalyzer.character_count st = len full /\ filename = file_name f).
  { intros full. destruct (analyze U full) as [e | st'] eqn:Ha.
    - destruct (exn_kind e); discriminate.
    - intros H. injection H as <- <- <-.
      repeat split. apply (analyze_character_count _ _ Ha). }
  destruct (str_eqb ext (lit "txt"));
    [| destruct (str_eqb ext (lit "docx"));
       [| destruct (str_eqb ext (lit "pdf")); [|discriminate]]].
  - destruct (fst (FileProcessor.extract_text_from_txt f)) as [e | full] eqn:Hx.
    + destruct (exn_kind e); discriminate.
    + destruct (negb (TextAnalyzer.nonempty (strip full))); [discriminate|].
      intros H. exists f, full. split; [reflexivity|]. split; [auto|].
      apply Hend, H.
  - destruct (fst (FileProcessor.extract_text_from_docx env f))
      as [e | full] eqn:Hx.
    + destruct (exn_kind e); discriminate.
    + destruct (negb (TextAnalyzer.nonempty (strip full))); [discriminate|].
      intros H. exists f, full. split; [reflexivity|]. split; [auto|].
      apply Hend, H.
  - destruct (fst (FileProcessor.extract_text_from_pdf env f))
      as [e | full] eqn:Hx.
    + destruct (exn_kind e); discriminate.
    + destruct (negb (TextAnalyzer.nonempty (strip full))); [discriminate|].
      intros H. exists f, full. split; [reflexivity|]. split; [auto|].
      apply Hend, H.
Qed.

(** C10.  An accepted [analyze_text_api] request carried a string; its
    stripped form is not empty and has at most 50,000 characters, and the
    statistics returned, [character_count] included, are those of the
    stripped text. *)
Theorem analyze_text_uses_stripped_text (U : unicode_db) (body : json_body)
    (st : TextAnalyzer.stats) :
  analyze_text_api U body = AnalyzeSuccess st ->
  exists raw,
    body = JsonObject (Some (JString raw))
    /\ strip raw <> []
    /\ len (strip raw) <= 50000
    /\ analyze U (strip raw) = Return st
    /\ TextAnalyzer.character_count st = len (strip raw).
Proof.
  unfold analyze_text_api, analyze_text_with.
  destruct body as [| member | ty | message]; try discriminate.
  assert (Hstr : forall raw,
    (if negb (TextAnalyzer.nonempty (strip raw))
     then JsonError 400 "No text provided"
     else if 50000 <? len (strip raw)
          then JsonError 400 "Text too long (max 50,000 characters)"
          else match analyze U (strip raw) with
               | inl e => JsonError 500 (exn_msg e)
               | inr stats => AnalyzeSuccess stats
               end) = AnalyzeSuccess st ->
    strip raw <> [] /\ len (strip raw) <= 50000
    /\ analyze U (strip raw) = Return st
    /\ TextAnalyzer.character_count st = len (strip raw)).
  { intros raw.
    destruct (TextAnalyzer.nonempty (strip raw)) eqn:Hne; [|discriminate].
    cbn [negb].
    destruct (50000 <? len (strip raw)) eqn:Hlen; [discriminate|].
    destruct (analyze U (strip raw)) as [e | st'] eqn:Ha; [discriminate|].
    intros H. injection H as <-.
    repeat split.
    - intros Hnil. rewrite Hnil in Hne. discriminate.
    - apply Z.ltb_ge, Hlen.
    - apply (analyze_character_count _ _ Ha). }
  destruct member as [[raw | ty]|]; try discriminate.
  intros H. exists raw. split; [reflexivity | apply Hstr, H].
Qed.

(** C6, as the code has it.  [analyze_text_api] strips the text first;
    whatever analysis it would hand the text to, it answers 400 without
    calling it when the stripped text has more than 50,000 characters or
    when the text is empty or white space only.  In particular a text of
    50,001 characters with no white space at either end is refused. *)
Theorem analyze_text_rejects (core : str -> result TextAnalyzer.stats) (raw : str) :
  (50000 < len (strip raw) ->
   analyze_text_with core (JsonObject (Some (JString raw)))
   = JsonError 400 "Text too long (max 50,000 characters)")
  /\ (forallb isspace raw = true ->
      analyze_text_with core (JsonObject (Some (JString raw)))
      = JsonError 400 "No text provided")
  /\ (len raw = 50001 -> strip raw = raw ->
      analyze_text_with core (JsonObject (Some (JString raw)))
      = JsonError 400 "Text too long (max 50,000 characters)").
Proof.
  assert (Hlong : 50000 < len (strip raw) ->
    analyze_text_with core (JsonObject (Some (JString raw)))
    = JsonError 400 "Text too long (max 50,000 characters)").
  { intros Hlen. cbn [analyze_text_with].
    destruct (strip raw) as [|c t] eqn:Hs; [cbn in Hlen; lia|].
    cbn [TextAnalyzer.nonempty negb].
    apply Z.ltb_lt in Hlen. rewrite Hlen. reflexivity. }
  split; [exact Hlong|]. split.
  - intros Hsp. cbn [analyze_text_with]. rewrite (strip_all_space _ Hsp).
    reflexivity.
  - intros Hlen Hs. apply Hlong. rewrite Hs, Hlen. reflexivity.
Qed.

End ViewFacts.

Section ViewRuns.
Import Views Samples.
Local Open Scope Z_scope.

Lemma process_file_success_witness :
  exists text st filename f full,
    Some notes_txt = Some f
    /\ (fst (FileProcessor.extract_text_from_txt f) = Return full
        \/ fst (FileProcessor.extract_text_from_docx plain_env f) = Return full
        \/ fst (FileProcessor.extract_text_from_pdf plain_env f) = Return full)
    /\ text = firstn 10000 full
    /\ analyze BasicLatin.db full = Return st
    /\ TextAnalyzer.character_count st = len full
    /\ filename = file_name f.
Proof.
  do 3 eexists.
  apply (@process_file_success plain_env BasicLatin.db (Some notes_txt)).
  vm_compute. reflexivity.
Defined.

Lemma analyze_text_uses_stripped_text_witness :
  exists st raw,
    JsonObject (Some (JString (lit "  hello world  ")))
    = JsonObject (Some (JString raw))
    /\ strip raw <> []
    /\ len (strip raw) <= 50000
    /\ analyze BasicLatin.db (strip raw) = Return st
    /\ TextAnalyzer.character_count st = len (strip raw).
Proof.
  eexists.
  apply (@analyze_text_uses_stripped_text BasicLatin.db
           (JsonObject (Some (JString (lit "  hello world  "))))).
  vm_compute. reflexivity.
Defined.

Lemma analyze_text_rejects_witness :
  analyze_text_api BasicLatin.db (JsonObject (Some (JString long_text)))
  = JsonError 400 "Text too long (max 50,000 characters)"
  /\ analyze_text_api BasicLatin.db (JsonObject (Some (JString (lit "   "))))
     = JsonError 400 "No text provided".
Proof.
  split.
  - apply (proj1 (analyze_text_rejects (analyze BasicLatin.db) long_text)).
    vm_compute. reflexivity.
  - apply (proj1 (proj2 (analyze_text_rejects (analyze BasicLatin.db)
                           (lit "   ")))).
    reflexivity.
Defined.

(** C6, as stated, fails: a text of 50,001 characters is accepted when
    stripping brings it down to 50,000 characters or fewer. *)
Lemma padded_text_accepted :
  len padded_text = 50001
  /\ exists st,
       analyze_text_api BasicLatin.db (JsonObject (Some (JString padded_text)))
       = AnalyzeSuccess st.
Proof.
  split; [vm_compute; reflexivity|].
  eexists. vm_compute. reflexivity.
Qed.

End ViewRuns.

(** ** Case conversion *)

Section CaseFacts.
Import CaseConverter.

Lemma isspace_cases (c : N) : isspace c = true -> In c whitespace.
Proof.
  unfold isspace. intros H. apply existsb_exists in H as (x & Hin & Heq).
  apply N.eqb_eq in Heq. subst x. exact Hin.
Qed.

Lemma ascii_upper_lower (c : N) : ascii_upper (ascii_lower c) = ascii_upper c.
Proof.
  unfold ascii_upper, ascii_lower.
  destruct (N.leb_spec 65 c), (N.leb_spec c 90); cbn [andb];
    repeat match goal with
           | |- context [N.leb ?a ?b] => destruct (N.leb_spec a b)
           end; cbn [andb]; lia.
Qed.

Lemma ascii_lower_is_ascii (s : str) :
  forallb is_ascii s = true -> forallb is_ascii (map ascii_lower s) = true.
Proof.
  induction s as [|c t IH]; cbn [map forallb]; [reflexivity|].
  intros H. apply andb_prop in H as [Hc Ht]. rewrite (IH Ht), andb_true_r.
  unfold is_ascii, ascii_lower in *. apply N.ltb_lt in Hc. apply N.ltb_lt.
  destruct (N.leb_spec 65 c), (N.leb_spec c 90); cbn [andb]; lia.
Qed.

(** The tabulated rows satisfy the laws. *)
Lemma basic_latin_laws : unicode_laws BasicLatin.db.
Proof.
  split; cbn [isalnum str_lower str_upper BasicLatin.db].
  - intros c H. apply isspace_cases in H. cbn in H.
    repeat (destruct H as [<- | H]; [reflexivity|]). contradiction.
  - induction s as [|c t IH]; cbn [forallb flat_map]; [reflexivity|].
    intros H. apply andb_prop in H as [Hc Ht]. rewrite (IH Ht).
    apply isspace_cases in Hc. cbn in Hc.
    repeat (destruct Hc as [<- | Hc]; [reflexivity|]). contradiction.
  - induction s as [|c t IH]; cbn [forallb flat_map map]; [reflexivity|].
    intros H. apply andb_prop in H as [Hc Ht]. rewrite (IH Ht).
    replace (BasicLatin.lower_char c) with [ascii_lower c]; [reflexivity|].
    unfold is_ascii in Hc. apply N.ltb_lt in Hc.
    unfold BasicLatin.lower_char, BasicLatin.in_range, ascii_lower.
    repeat match goal with
           | |- context [N.leb ?a ?b] => destruct (N.leb_spec a b)
           | |- context [N.eqb ?a ?b] => destruct (N.eqb_spec a b)
           end; cbn [andb orb negb]; try reflexivity; lia.
  - induction s as [|c t IH]; cbn [forallb flat_map map]; [reflexivity|].
    intros H. apply andb_prop in H as [Hc Ht]. rewrite (IH Ht).
    replace (BasicLatin.upper_char c) with [ascii_upper c]; [reflexivity|].
    unfold is_ascii in Hc. apply N.ltb_lt in Hc.
    unfold BasicLatin.upper_char, BasicLatin.in_range, ascii_upper.
    repeat match goal with
           | |- context [N.leb ?a ?b] => destruct (N.leb_spec a b)
           | |- context [N.eqb ?a ?b] => destruct (N.eqb_spec a b)
           end; cbn [andb orb negb]; try reflexivity; lia.
Qed.

(** On a text of ASCII characters, upper-casing the lower-cased text gives
    the upper-cased text. *)
Lemma to_upper_to_lower_ascii (U : unicode_db) (s : str) :
  unicode_laws U -> forallb is_ascii s = true ->
  to_upper U (to_lower U s) = to_upper U s.
Proof.
  intros HU Hs. unfold to_upper, to_lower.
  rewrite (lower_ascii HU _ Hs).
  rewrite (upper_ascii HU _ (ascii_lower_is_ascii _ Hs)).
  rewrite (upper_ascii HU _ Hs).
  rewrite map_map. apply map_ext. intros c. apply ascii_upper_lower.
Qed.

(** C5, as stated, fails: the Kelvin sign U+212A is its own upper case, its
    lower case is [k], and the upper case of [k] is [K]. *)
Lemma kelvin_sign_round_trip :
  to_lower BasicLatin.db Samples.kelvin = [107%N]
  /\ to_upper BasicLatin.db Samples.kelvin = [8490%N]
  /\ to_upper BasicLatin.db (to_lower BasicLatin.db Samples.kelvin) = [75%N]
  /\ to_upper BasicLatin.db (to_lower BasicLatin.db Samples.kelvin)
     <> to_upper BasicLatin.db Samples.kelvin.
Proof. repeat split. discriminate. Qed.

End CaseFacts.

(** ** Scans that find no match *)

Section NoMatch.
Import Re.

(** A scan over a text on none of whose suffixes the pattern matches. *)
Lemma findall_scan_no_match (m : matcher) (P : N -> Prop) (s : str) :
  (forall prev c t, P c -> m prev (c :: t) = None) ->
  (forall prev, m prev [] = None) ->
  Forall P s ->
  forall prev, findall_scan m 0 prev s = [].
Proof.
  intros Hcons Hnil Hs. induction Hs as [|c t Hc Ht IH]; intros prev;
    cbn [findall_scan].
  - rewrite Hnil. reflexivity.
  - rewrite (Hcons prev c t Hc). apply IH.
Qed.

Lemma split_scan_no_match (m : matcher) (P : N -> Prop) (s : str) :
  (forall prev c t, P c -> m prev (c :: t) = None) ->
  (forall prev, m prev [] = None) ->
  Forall P s ->
  forall prev cur, split_scan m 0 prev s cur = [cur ++ s].
Proof.
  intros Hcons Hnil Hs. induction Hs as [|c t Hc Ht IH]; intros prev cur;
    cbn [split_scan].
  - rewrite Hnil, app_nil_r. reflexivity.
  - rewrite (Hcons prev c t Hc), IH, <- app_assoc. reflexivity.
Qed.

Lemma sub_scan_no_match (m : matcher) (repl : str) (P : N -> Prop) (s : str) :
  (forall prev c t, P c -> m prev (c :: t) = None) ->
  (forall prev, m prev [] = None) ->
  Forall P s ->
  forall prev, sub_scan m repl 0 prev s = s.
Proof.
  intros Hcons Hnil Hs. induction Hs as [|c t Hc Ht IH]; intros prev;
    cbn [sub_scan].
  - rewrite Hnil. reflexivity.
  - rewrite (Hcons prev c t Hc), IH. reflexivity.
Qed.

(** A pattern that begins with a character class does not match where the
    text ends or where its first character is outside the class. *)
Lemma match_at_class_first (f : N -> bool) (r : regex) (prev : option N) (s : str) :
  match s with [] => True | c :: _ => f c = false end ->
  match_at (Cat (Class f) r) prev s = None.
Proof.
  unfold match_at. cbn [ends snd]. destruct s as [|c t]; [reflexivity|].
  intros ->. reflexivity.
Qed.

Lemma match_at_plus_class_first (f : N -> bool) (prev : option N) (s : str) :
  match s with [] => True | c :: _ => f c = false end ->
  match_at (Plus (Class f)) prev s = None.
Proof.
  unfold match_at. cbn [ends snd]. destruct s as [|c t]; [reflexivity|].
  intros ->. reflexivity.
Qed.

Lemma match_at_word_first (U : unicode_db) (prev : option N) (s : str) :
  match s with [] => True | c :: _ => is_word U c = false end ->
  match_at (TextAnalyzer.word_re U) prev s = None.
Proof.
  unfold match_at, TextAnalyzer.word_re. cbn [ends snd].
  destruct (at_wordb (is_word U) (prev, s)); cbn [flat_map]; [|reflexivity].
  destruct s as [|c t]; [reflexivity|].
  intros Hc. cbn [snd]. rewrite Hc. reflexivity.
Qed.

End NoMatch.

(** ** Empty and white-space input *)

Section Degenerate.
Import Re TextAnalyzer.
Local Open Scope Z_scope.

Variable U : unicode_db.
Hypothesis HU : unicode_laws U.

Lemma space_not_word (c : N) : isspace c = true -> is_word U c = false.
Proof.
  intros H. unfold is_word. rewrite (space_not_alnum HU _ H). cbn [orb].
  apply isspace_cases in H. cbn in H.
  repeat (destruct H as [<- | H]; [reflexivity|]). contradiction.
Qed.

Lemma space_not_stop (c : N) : isspace c = true -> is_stop c = false.
Proof.
  intros H. apply isspace_cases in H. cbn in H.
  repeat (destruct H as [<- | H]; [reflexivity|]). contradiction.
Qed.

Lemma forallb_Forall_space (s : str) :
  forallb isspace s = true -> Forall (fun c => isspace c = true) s.
Proof. intros H. apply Forall_forall. apply forallb_forall. exact H. Qed.

Lemma words_of_space (s : str) :
  forallb isspace s = true -> fst (words U (init s)) = [].
Proof.
  intros H. unfold words. cbn [_words init text fst].
  rewrite (lower_space HU _ H). unfold findall.
  rewrite (@findall_scan_no_match (match_at (word_re U))
             (fun c => isspace c = true) s); [reflexivity | | | ].
  - intros prev c t Hc. apply match_at_word_first. apply space_not_word, Hc.
  - intros prev. apply match_at_word_first. exact I.
  - apply forallb_Forall_space, H.
Qed.

Lemma sentences_of_space (s : str) (ws : option (list str)) (ps : option (list str)) :
  forallb isspace s = true ->
  fst (sentences {| text := s; _words := ws; _sentences := None;
                    _paragraphs := ps |}) = [].
Proof.
  intros H. unfold sentences. cbn [_sentences text fst]. unfold split.
  rewrite (@split_scan_no_match (match_at sentence_end_re)
             (fun c => isspace c = true) s).
  - cbn [app filter]. rewrite (strip_all_space _ H). reflexivity.
  - intros prev c t Hc. apply match_at_plus_class_first.
    apply space_not_stop, Hc.
  - intros prev. apply match_at_plus_class_first. exact I.
  - apply forallb_Forall_space, H.
Qed.

Lemma paragraphs_of_space (s : str) (ws ss : option (list str)) :
  forallb isspace s = true ->
  fst (paragraphs {| text := s; _words := ws; _sentences := ss;
                     _paragraphs := None |}) = [].
Proof.
  intros H. unfold paragraphs. cbn [_paragraphs text fst].
  rewrite (strip_all_space _ H). reflexivity.
Qed.

End Degenerate.

Section DegenerateClaim.
Import Re TextAnalyzer.
Local Open Scope Z_scope.

(** C3.  On a text that is empty or made of white space only, the three
    views are empty and the statistics are produced with zero words,
    sentences and paragraphs, no keyword, and zero reading and speaking
    time. *)
Theorem whitespace_only_input (U : unicode_db) (s : str) :
  unicode_laws U -> forallb isspace s = true ->
  fst (words U (init s)) = []
  /\ fst (sentences (init s)) = []
  /\ fst (paragraphs (init s)) = []
  /\ exists st,
       fst (get_stats U (init s)) = Return st
       /\ word_count st = 0 /\ sentence_count st = 0 /\ paragraph_count st = 0
       /\ keyword_density st = []
       /\ reading_time st = {| minutes := 0; seconds := 0 |}
       /\ speaking_time st = {| minutes := 0; seconds := 0 |}.
Proof.
  intros HU H.
  pose proof (words_of_space HU _ H) as Hw.
  pose proof (@sentences_of_space s (Some []) None H) as Hs.
  pose proof (@paragraphs_of_space s (Some []) (Some []) H) as Hp.
  split; [exact Hw|].
  split; [exact (@sentences_of_space s None None H)|].
  split; [exact (@paragraphs_of_space s None None H)|].
  unfold get_stats, words, sentences, paragraphs in *.
  cbn [_words _sentences _paragraphs text init fst] in *.
  rewrite Hw. cbn [_words _sentences _paragraphs text fst].
  rewrite Hs. cbn [_words _sentences _paragraphs text fst].
  rewrite Hp.
  eexists. split; [reflexivity|]. repeat split; reflexivity.
Qed.

Lemma whitespace_only_input_witness :
  fst (words BasicLatin.db (init (lit "   "))) = []
  /\ fst (sentences (init (lit "   "))) = []
  /\ fst (paragraphs (init (lit "   "))) = []
  /\ exists st,
       fst (get_stats BasicLatin.db (init (lit "   "))) = Return st
       /\ word_count st = 0 /\ sentence_count st = 0 /\ paragraph_count st = 0
       /\ keyword_density st = []
       /\ reading_time st = {| minutes := 0; seconds := 0 |}
       /\ speaking_time st = {| minutes := 0; seconds := 0 |}.
Proof.
  apply whitespace_only_input; [exact basic_latin_laws | reflexivity].
Defined.

End DegenerateClaim.

(** ** Counting words *)

Section CounterFacts.
Local Open Scope Z_scope.

Lemma str_eqb_eq (a b : str) : str_eqb a b = true <-> a = b.
Proof.
  unfold str_eqb. destruct (list_eq_dec N.eq_dec a b); split; congruence.
Qed.

Lemma str_eqb_refl (a : str) : str_eqb a a = true.
Proof. apply str_eqb_eq. reflexivity. Qed.

Lemma str_eqb_neq (a b : str) : str_eqb a b = false <-> a <> b.
Proof.
  unfold str_eqb. destruct (list_eq_dec N.eq_dec a b); split; congruence.
Qed.

Lemma str_eqb_sym (a b : str) : str_eqb a b = str_eqb b a.
Proof.
  destruct (str_eqb b a) eqn:H.
  - apply str_eqb_eq in H. subst. apply str_eqb_refl.
  - apply str_eqb_neq in H. apply str_eqb_neq. congruence.
Qed.

Lemma existsb_str_In (w : str) (l : list str) :
  existsb (str_eqb w) l = true <-> In w l.
Proof.
  rewrite existsb_exists. split.
  - intros (x & Hin & Heq). apply str_eqb_eq in Heq. subst. exact Hin.
  - intros Hin. exists w. split; [exact Hin | apply str_eqb_refl].
Qed.

Lemma freq_snoc (x w : str) (p : list str) :
  freq x (p ++ [w]) = freq x p + (if str_eqb x w then 1 else 0).
Proof.
  unfold freq, len. rewrite filter_app, length_app. cbn [filter].
  destruct (str_eqb x w); cbn [List.length]; lia.
Qed.

Lemma freq_nonneg (x : str) (p : list str) : 0 <= freq x p.
Proof. unfold freq, len. lia. Qed.

Lemma freq_not_In (x : str) (p : list str) : ~ In x p -> freq x p = 0.
Proof.
  intros H. unfold freq. induction p as [|a t IH]; [reflexivity|].
  cbn [filter]. destruct (str_eqb x a) eqn:Ha.
  - apply str_eqb_eq in Ha. subst. exfalso. apply H. left. reflexivity.
  - apply IH. intros Hin. apply H. right. exact Hin.
Qed.

Lemma freq_In (x : str) (p : list str) : In x p -> 1 <= freq x p.
Proof.
  unfold freq, len. induction p as [|a t IH]; cbn [In filter]; [tauto|].
  intros [-> | Hin].
  - rewrite str_eqb_refl. cbn [List.length]. lia.
  - specialize (IH Hin). destruct (str_eqb x a); cbn [List.length]; lia.
Qed.

Lemma freq_le_len (x : str) (p : list str) : freq x p <= len p.
Proof.
  unfold freq, len. pose proof (filter_length_le (str_eqb x) p). lia.
Qed.

(** The distinct words. *)
Lemma distinct_In (x : str) (ws : list str) : In x (distinct ws) <-> In x ws.
Proof.
  induction ws as [|w t IH]; cbn [distinct In]; [tauto|].
  rewrite filter_In, IH. split.
  - intros [H | [H _]]; auto.
  - intros [H | H]; [auto|].
    destruct (str_eqb x w) eqn:Hx.
    + apply str_eqb_eq in Hx. auto.
    + right. split; [exact H | reflexivity].
Qed.

Lemma distinct_NoDup (ws : list str) : NoDup (distinct ws).
Proof.
  induction ws as [|w t IH]; cbn [distinct]; constructor.
  - rewrite filter_In. intros [_ H]. rewrite str_eqb_refl in H. discriminate.
  - apply NoDup_filter, IH.
Qed.

Lemma distinct_snoc (p : list str) (w : str) :
  distinct (p ++ [w])
  = if existsb (str_eqb w) p then distinct p else distinct p ++ [w].
Proof.
  induction p as [|a t IH]; [reflexivity|].
  cbn [app distinct existsb]. rewrite IH.
  destruct (str_eqb w a) eqn:Hwa; cbn [orb].
  - destruct (existsb (str_eqb w) t); [reflexivity|].
    rewrite filter_app. cbn [filter]. rewrite Hwa. cbn [negb].
    rewrite app_nil_r. reflexivity.
  - destruct (existsb (str_eqb w) t); [reflexivity|].
    rewrite filter_app. cbn [filter]. rewrite Hwa. reflexivity.
Qed.

(** One more occurrence of [w] in a counter that holds the counts of [p]. *)
Lemma incr_counts (p : list str) (w : str) (K : list str) :
  NoDup K -> (~ In w K -> freq w p = 0) ->
  Counter.incr w (map (fun x => (x, freq x p)) K)
  = map (fun x => (x, freq x (p ++ [w])))
        (if existsb (str_eqb w) K then K else K ++ [w]).
Proof.
  induction K as [|a K' IH]; intros Hnd H0.
  - cbn. rewrite freq_snoc, str_eqb_refl, H0 by tauto. reflexivity.
  - inversion Hnd as [|? ? Hna Hnd']; subst.
    cbn [map Counter.incr existsb].
    rewrite (str_eqb_sym w a).
    destruct (str_eqb a w) eqn:Haw; cbn [orb].
    + apply str_eqb_eq in Haw. subst a. cbn [map].
      rewrite freq_snoc, str_eqb_refl. f_equal.
      apply map_ext_in. intros x Hx. rewrite freq_snoc.
      destruct (str_eqb x w) eqn:Hxw; [|rewrite Z.add_0_r; reflexivity].
      apply str_eqb_eq in Hxw. subst. contradiction.
    + rewrite IH; [| exact Hnd' |].
      * destruct (existsb (str_eqb w) K'); cbn [map app];
          rewrite freq_snoc, Haw, Z.add_0_r; reflexivity.
      * intros Hn. apply H0. intros [Heq | Hin]; [|tauto].
        subst. rewrite str_eqb_refl in Haw. discriminate.
Qed.

(** [Counter(ws)] holds the distinct words of [ws] in the order of their
    first occurrence, each with the number of its occurrences. *)
Lemma of_list_spec (ws : list str) :
  Counter.of_list ws = map (fun x => (x, freq x ws)) (distinct ws).
Proof.
  unfold Counter.of_list.
  induction ws as [|w p IH] using rev_ind; [reflexivity|].
  rewrite fold_left_app. cbn [fold_left]. rewrite IH.
  rewrite incr_counts.
  - rewrite distinct_snoc.
    destruct (existsb (str_eqb w) (distinct p)) eqn:H1,
             (existsb (str_eqb w) p) eqn:H2; try reflexivity.
    + apply (proj1 (existsb_str_In w _)), (proj1 (distinct_In w p)),
        (proj2 (existsb_str_In w p)) in H1. congruence.
    + apply (proj1 (existsb_str_In w _)), (proj2 (distinct_In w p)),
        (proj2 (existsb_str_In w _)) in H2. congruence.
  - apply distinct_NoDup.
  - intros Hn. apply freq_not_In. rewrite <- distinct_In. exact Hn.
Qed.

End CounterFacts.

(** ** Ranking *)

Section RankingFacts.
Local Open Scope Z_scope.

Lemma StronglySorted_filter (A : Type) (R : A -> A -> Prop) (f : A -> bool)
    (l : list A) :
  StronglySorted R l -> StronglySorted R (filter f l).
Proof.
  induction 1 as [|a l Hs IH Ha]; cbn [filter]; [constructor|].
  destruct (f a); [|exact IH].
  constructor; [exact IH|].
  apply Forall_forall. intros x Hx. apply filter_In in Hx as [Hx _].
  rewrite Forall_forall in Ha. apply Ha, Hx.
Qed.

Lemma StronglySorted_impl_in (A : Type) (R R' : A -> A -> Prop) (l : list A) :
  (forall x y, In x l -> In y l -> R x y -> R' x y) ->
  StronglySorted R l -> StronglySorted R' l.
Proof.
  intros Himp Hs. induction Hs as [|a l Hs IH Ha]; [constructor|].
  constructor.
  - apply IH. intros x y Hx Hy. apply Himp; right; assumption.
  - apply Forall_forall. intros x Hx. rewrite Forall_forall in Ha.
    apply Himp; [left; reflexivity | right; exact Hx | apply Ha, Hx].
Qed.

Lemma StronglySorted_map (A B : Type) (R : B -> B -> Prop) (f : A -> B)
    (l : list A) :
  StronglySorted (fun a b => R (f a) (f b)) l -> StronglySorted R (map f l).
Proof.
  induction 1 as [|a l Hs IH Ha]; cbn [map]; constructor; [exact IH|].
  apply Forall_forall. intros y Hy. apply in_map_iff in Hy as (x & <- & Hx).
  rewrite Forall_forall in Ha. apply Ha, Hx.
Qed.

Lemma StronglySorted_firstn (A : Type) (R : A -> A -> Prop) (n : nat)
    (l : list A) :
  StronglySorted R l -> StronglySorted R (firstn n l).
Proof.
  intros Hs. revert n. induction Hs as [|a l Hs IH Ha]; intros [|n];
    cbn [firstn]; try constructor.
  - apply IH.
  - apply Forall_forall. intros x Hx. rewrite Forall_forall in Ha.
    apply Ha. rewrite <- (firstn_skipn n l). apply in_or_app. left. exact Hx.
Qed.

Lemma StronglySorted_app_order (A : Type) (R : A -> A -> Prop) (l1 l2 : list A) :
  StronglySorted R (l1 ++ l2) ->
  forall a b, In a l1 -> In b l2 -> R a b.
Proof.
  induction l1 as [|x l1 IH]; cbn [app]; intros Hs a b Ha Hb; [contradiction|].
  inversion Hs as [|? ? Hs' Hx]; subst.
  destruct Ha as [<- | Ha].
  - rewrite Forall_forall in Hx. apply Hx, in_or_app. right. exact Hb.
  - apply (IH Hs' a b Ha Hb).
Qed.

Lemma first_index_cons_neq (x w : str) (t : list str) :
  x <> w -> first_index x (w :: t) = S (first_index x t).
Proof.
  intros H. cbn [first_index].
  replace (str_eqb w x) with false; [reflexivity|].
  symmetry. apply str_eqb_neq. congruence.
Qed.

(** The distinct words come in the order of their first occurrence. *)
Lemma distinct_sorted (ws : list str) :
  StronglySorted (fun a b => (first_index a ws < first_index b ws)%nat)
                 (distinct ws).
Proof.
  induction ws as [|w t IH]; cbn [distinct]; constructor.
  - apply StronglySorted_impl_in
      with (R := fun a b => (first_index a t < first_index b t)%nat).
    + intros x y Hx Hy Hxy.
      apply filter_In in Hx as [_ Hx]. apply filter_In in Hy as [_ Hy].
      apply negb_true_iff in Hx. apply str_eqb_neq in Hx.
      apply negb_true_iff in Hy. apply str_eqb_neq in Hy.
      rewrite (first_index_cons_neq t Hx), (first_index_cons_neq t Hy). lia.
    + apply StronglySorted_filter, IH.
  - apply Forall_forall. intros x Hx. apply filter_In in Hx as [_ Hx].
    apply negb_true_iff in Hx. apply str_eqb_neq in Hx.
    rewrite (first_index_cons_neq t Hx).
    cbn [first_index]. rewrite str_eqb_refl. lia.
Qed.

Lemma insert_perm (x : str * Z) (l : Counter.t) :
  Permutation (Counter.insert x l) (x :: l).
Proof.
  induction l as [|y r IH]; cbn [Counter.insert]; [reflexivity|].
  destruct (snd x <? snd y); [|reflexivity].
  rewrite IH. apply perm_swap.
Qed.

Lemma sorted_desc_perm (c : Counter.t) : Permutation (Counter.sorted_desc c) c.
Proof.
  induction c as [|x t IH]; cbn [Counter.sorted_desc fold_right]; [reflexivity|].
  rewrite insert_perm. constructor. exact IH.
Qed.

Lemma insert_sorted (ws : list str) (x : str * Z) (l : Counter.t) :
  StronglySorted (ranks_before ws) l ->
  Forall (fun y => (first_index (fst x) ws < first_index (fst y) ws)%nat) l ->
  StronglySorted (ranks_before ws) (Counter.insert x l).
Proof.
  intros Hs. induction Hs as [|y r Hs IH Hy]; intros Hx;
    cbn [Counter.insert].
  - constructor; constructor.
  - inversion Hx as [|? ? Hxy Hxr]; subst.
    destruct (snd x <? snd y) eqn:Hlt.
    + apply Z.ltb_lt in Hlt. constructor; [apply IH, Hxr|].
      apply Forall_forall. intros z Hz.
      apply (Permutation_in _ (insert_perm x r)) in Hz.
      destruct Hz as [<- | Hz]; [left; exact Hlt|].
      rewrite Forall_forall in Hy. apply Hy, Hz.
    + apply Z.ltb_ge in Hlt. constructor; [constructor; assumption|].
      constructor.
      * unfold ranks_before. destruct (Z.eq_dec (snd x) (snd y)); [right|left];
          (split || idtac); try assumption; lia.
      * apply Forall_forall. intros z Hz.
        rewrite Forall_forall in Hy, Hxr.
        specialize (Hy z Hz). specialize (Hxr z Hz).
        unfold ranks_before in *.
        destruct Hy as [Hy | [Hy _]];
          destruct (Z.eq_dec (snd x) (snd z)); try (left; lia);
          right; split; assumption.
Qed.

Lemma sorted_desc_sorted (ws : list str) (c : Counter.t) :
  StronglySorted
    (fun a b => (first_index (fst a) ws < first_index (fst b) ws)%nat) c ->
  StronglySorted (ranks_before ws) (Counter.sorted_desc c).
Proof.
  induction 1 as [|x t Hs IH Hx]; cbn [Counter.sorted_desc fold_right];
    [constructor|].
  apply insert_sorted; [exact IH|].
  apply Forall_forall. intros y Hy.
  apply (Permutation_in _ (sorted_desc_perm t)) in Hy.
  rewrite Forall_forall in Hx. apply Hx, Hy.
Qed.

End RankingFacts.

(** ** Keyword density *)

Section KeywordFacts.
Import TextAnalyzer.
Local Open Scope Z_scope.

Lemma mapM_Forall2 (A B : Type) (f : A -> result B) (l : list A) :
  forall bs, mapM f l = Return bs -> Forall2 (fun a b => f a = Return b) l bs.
Proof.
  induction l as [|a t IH]; cbn [mapM]; intros bs H.
  - apply Return_inj in H. subst. constructor.
  - destruct (f a) as [e | b] eqn:Hb; [discriminate|]. cbn [bind] in H.
    destruct (mapM f t) as [e | bs'] eqn:Ht; [discriminate|]. cbn [bind] in H.
    apply Return_inj in H. subst. constructor; [exact Hb | apply IH; reflexivity].
Qed.

Lemma mapM_total (A B : Type) (f : A -> result B) (l : list A) :
  Forall (fun a => exists b, f a = Return b) l -> exists bs, mapM f l = Return bs.
Proof.
  induction 1 as [|a t [b Hb] Ht [bs IH]]; cbn [mapM].
  - eexists. reflexivity.
  - rewrite Hb. cbn [bind]. rewrite IH. cbn [bind]. eexists. reflexivity.
Qed.

Lemma keyword_of_inv (total : Z) (item : str * Z) (e : keyword) :
  keyword_of total item = Return e ->
  entry e = item /\ density_of (count e) total = Return (density e).
Proof.
  destruct item as [w c]. unfold keyword_of, density_of.
  destruct (PyFloat.int_true_divide c total) as [x | q] eqn:Hq;
    [discriminate|].
  cbn [bind].
  destruct (PyFloat.round2 (PyFloat.mul q (PyFloat.of_int 100))) as [x | d] eqn:Hd;
    [discriminate|].
  cbn [bind]. intros H. apply Return_inj in H. subst e. cbn [count density].
  rewrite Hq. cbn [bind]. split; [reflexivity | exact Hd].
Qed.

Lemma keyword_of_total (total : Z) (w : str) (c : Z) :
  0 < c <= total -> exists e, keyword_of total (w, c) = Return e.
Proof.
  intros Hc. destruct (density_total Hc) as [d Hd].
  unfold keyword_of.
  destruct (PyFloat.int_true_divide c total) as [x | q]; [discriminate|].
  cbn [bind] in *. rewrite Hd. cbn [bind]. eexists. reflexivity.
Qed.

Lemma Forall2_keyword_entries (total : Z) (items : Counter.t) (res : list keyword) :
  Forall2 (fun a b => keyword_of total a = Return b) items res ->
  map entry res = items
  /\ forall e, In e res -> density_of (count e) total = Return (density e).
Proof.
  induction 1 as [|a b items res Hab H [IH1 IH2]]; [split; [reflexivity | contradiction]|].
  apply keyword_of_inv in Hab as [Hent Hd]. split.
  - cbn [map]. rewrite Hent, IH1. reflexivity.
  - intros e [<- | He]; [exact Hd | apply IH2, He].
Qed.

Lemma firstn_NoDup (A : Type) (n : nat) (l : list A) :
  NoDup l -> NoDup (firstn n l).
Proof.
  intros H. revert n. induction H as [|a l Ha H IH]; intros [|n];
    cbn [firstn]; try constructor.
  - intros Hin. apply Ha. rewrite <- (firstn_skipn n l).
    apply in_or_app. left. exact Hin.
  - apply IH.
Qed.

(** What [get_keyword_density] returns for a list of words. *)
Lemma keyword_density_of_words (ws : list str) :
  exists res,
    get_keyword_density ws = Return res
    /\ (filter is_keyword ws = [] -> res = [])
    /\ (List.length res <= 10)%nat
    /\ StronglySorted (ranks_before (filter is_keyword ws)) (map entry res)
    /\ (forall e, In e res ->
         In (word e) (filter is_keyword ws)
         /\ count e = freq (word e) (filter is_keyword ws)
         /\ density_of (count e) (len (filter is_keyword ws))
            = Return (density e))
    /\ NoDup (map word res)
    /\ (forall w, In w (filter is_keyword ws) ->
         In w (map word res)
         \/ (List.length res = 10%nat
             /\ forall e, In e res ->
                  ranks_before (filter is_keyword ws) (entry e)
                    (w, freq w (filter is_keyword ws)))).
Proof.
  assert (Hnil : forall kept : list str, kept = [] ->
    exists res : list keyword,
      Return (A := list keyword) [] = Return res
      /\ (kept = [] -> res = [])
      /\ (List.length res <= 10)%nat
      /\ StronglySorted (ranks_before kept) (map entry res)
      /\ (forall e, In e res ->
           In (word e) kept /\ count e = freq (word e) kept
           /\ density_of (count e) (len kept) = Return (density e))
      /\ NoDup (map word res)
      /\ (forall w, In w kept ->
           In w (map word res)
           \/ (List.length res = 10%nat
               /\ forall e, In e res ->
                    ranks_before kept (entry e) (w, freq w kept)))).
  { intros kept ->. exists []. cbn.
    repeat split; try constructor; try contradiction; lia. }
  unfold get_keyword_density.
  destruct ws as [|w0 ws0]; [apply Hnil; reflexivity|].
  set (kept := filter is_keyword (w0 :: ws0)).
  destruct kept as [|k0 kept0] eqn:Hkept; [apply Hnil; reflexivity|].
  rewrite <- Hkept. clear Hnil.
  assert (Hne : kept <> []) by (rewrite Hkept; discriminate).
  clearbody kept. clear Hkept k0 kept0 w0 ws0.
  change (mapM _ (Counter.most_common 10 (Counter.of_list kept)))
    with (mapM (keyword_of (len kept))
               (Counter.most_common 10 (Counter.of_list kept))).
  rewrite of_list_spec. unfold Counter.most_common.
  set (c := map (fun x => (x, freq x kept)) (distinct kept)).
  set (L := Counter.sorted_desc c).
  assert (HLc : forall a, In a L <-> In a c).
  { intros a. split; apply Permutation_in;
      [|symmetry]; apply sorted_desc_perm. }
  assert (Hc : forall w n, In (w, n) c <-> In w kept /\ n = freq w kept).
  { intros w n. subst c. rewrite in_map_iff. split.
    - intros (x & Hx & Hin). injection Hx as <- <-.
      split; [apply distinct_In, Hin | reflexivity].
    - intros [Hin ->]. exists w. split; [reflexivity | apply distinct_In, Hin]. }
  assert (HsL : StronglySorted (ranks_before kept) L).
  { apply sorted_desc_sorted. subst c. apply StronglySorted_map.
    cbn [fst]. apply distinct_sorted. }
  assert (HndL : NoDup (map fst L)).
  { apply (Permutation_NoDup (l := map fst c)).
    - apply Permutation_map. symmetry. apply sorted_desc_perm.
    - subst c. rewrite map_map. cbn [fst]. rewrite map_id.
      apply distinct_NoDup. }
  assert (Hin10 : forall a, In a (firstn 10 L) -> In a L).
  { intros a Ha. rewrite <- (firstn_skipn 10 L). apply in_or_app. left.
    exact Ha. }
  destruct (@mapM_total _ _ (keyword_of (len kept)) (firstn 10 L)) as [res Hres].
  { apply Forall_forall. intros [w n] Hin.
    apply Hin10, HLc, Hc in Hin as [Hin ->].
    apply keyword_of_total.
    pose proof (freq_In _ _ Hin). pose proof (freq_le_len w kept). lia. }
  exists res. split; [exact Hres|].
  apply mapM_Forall2, Forall2_keyword_entries in Hres as [Hent Hdens].
  assert (Hword : map word res = map fst (firstn 10 L)).
  { rewrite <- Hent, map_map. reflexivity. }
  assert (Hlen : List.length res = List.length (firstn 10 L)).
  { rewrite <- Hent, length_map. reflexivity. }
  split; [intros; contradiction|].
  split; [rewrite Hlen; apply firstn_le_length|].
  split; [rewrite Hent; apply StronglySorted_firstn, HsL|].
  split; [|split].
  - intros e He.
    assert (Hin : In (entry e) (firstn 10 L))
      by (rewrite <- Hent; apply in_map, He).
    apply Hin10, HLc in Hin. unfold entry in Hin. apply Hc in Hin as [H1 H2].
    auto.
  - rewrite Hword, <- firstn_map. apply firstn_NoDup, HndL.
  - intros w Hw.
    assert (Hin : In (w, freq w kept) L) by (apply HLc, Hc; auto).
    rewrite <- (firstn_skipn 10 L) in Hin. apply in_app_or in Hin as [Hin | Hin].
    + left. rewrite Hword. apply (in_map fst) in Hin. exact Hin.
    + right. split.
      * rewrite Hlen. apply firstn_length_le.
        destruct (Nat.le_gt_cases 10 (List.length L)) as [|Hlt]; [assumption|].
        rewrite skipn_all2 in Hin by lia. contradiction.
      * intros e He.
        apply (@StronglySorted_app_order _ (ranks_before kept)
                 (firstn 10 L) (skipn 10 L)).
        -- rewrite firstn_skipn. exact HsL.
        -- rewrite <- Hent. apply in_map, He.
        -- exact Hin.
Qed.

(** C1.  For every text, the keyword density is computed from the words
    of the lower-cased text that have at least three characters and are no
    stopword.  It is empty when no word is kept.  Otherwise it has at most
    ten entries, listed by descending count, equal counts in the order of
    first occurrence; each entry's count is the number of occurrences of
    its word among the kept words and its density is
    [round((count / total) * 100, 2)]; the words are distinct, and a kept
    word that is not listed ranks after all ten that are. *)
Theorem keyword_density_spec (U : unicode_db) (text : str) :
  let ws := fst (words U (init text)) in
  let kept := filter is_keyword ws in
  (forall w, In w kept <->
             In w ws /\ 3 <= len w /\ ~ In w STOPWORDS)
  /\ exists res,
       get_keyword_density ws = Return res
       /\ (kept = [] -> res = [])
       /\ (List.length res <= 10)%nat
       /\ StronglySorted (ranks_before kept) (map entry res)
       /\ (forall e, In e res ->
            In (word e) kept
            /\ count e = freq (word e) kept
            /\ density_of (count e) (len kept) = Return (density e))
       /\ NoDup (map word res)
       /\ (forall w, In w kept ->
            In w (map word res)
            \/ (List.length res = 10%nat
                /\ forall e, In e res ->
                     ranks_before kept (entry e) (w, freq w kept))).
Proof.
  intros ws kept. split; [|apply keyword_density_of_words].
  intros w. subst kept. rewrite filter_In. unfold is_keyword, is_stopword.
  rewrite andb_true_iff, negb_true_iff, Z.leb_le.
  rewrite <- not_true_iff_false, existsb_str_In. tauto.
Qed.

End KeywordFacts.

Unset Implicit Arguments.

(** ** Greedy runs of a character class *)

Section RunFacts.
Import Re.

Lemma star_class (f : N -> bool) (fuel : nat) : forall prev s,
  (List.length s <= fuel)%nat ->
  star_ends (ends (Class f)) fuel (prev, s) = backs f prev s.
Proof.
  induction fuel as [|k IH]; intros prev s Hlen.
  - destruct s; [reflexivity | cbn in Hlen; lia].
  - destruct s as [|c t]; [reflexivity|].
    cbn [star_ends ends snd backs]. destruct (f c); [|reflexivity].
    cbn [flat_map snd].
    replace (Nat.ltb (List.length t) (List.length (c :: t))) with true
      by (symmetry; apply Nat.ltb_lt; cbn; lia).
    rewrite IH by (cbn in Hlen; lia). rewrite app_nil_r. reflexivity.
Qed.

Lemma ends_Plus (a : regex) (p : pos) :
  ends (Plus a) p
  = flat_map (fun q => star_ends (ends a) (List.length (snd q)) q) (ends a p).
Proof. reflexivity. Qed.

Lemma ends_Star (a : regex) (p : pos) :
  ends (Star a) p = star_ends (ends a) (List.length (snd p)) p.
Proof. reflexivity. Qed.

Lemma ends_Cat (a b : regex) (p : pos) :
  ends (Cat a b) p = flat_map (ends b) (ends a p).
Proof. reflexivity. Qed.

Lemma ends_Alt (a b : regex) (p : pos) :
  ends (Alt a b) p = ends a p ++ ends b p.
Proof. reflexivity. Qed.

Lemma ends_Class (f : N -> bool) (prev : option N) (s : str) :
  ends (Class f) (prev, s)
  = match s with
    | c :: t => if f c then [(Some c, t)] else []
    | [] => []
    end.
Proof. reflexivity. Qed.

Lemma ends_plus_class (f : N -> bool) (prev : option N) (s : str) :
  ends (Plus (Class f)) (prev, s)
  = match s with
    | c :: t => if f c then backs f (Some c) t else []
    | [] => []
    end.
Proof.
  rewrite ends_Plus, ends_Class. destruct s as [|c t]; [reflexivity|].
  destruct (f c); [|reflexivity].
  cbn [flat_map snd]. rewrite star_class by lia. apply app_nil_r.
Qed.

Lemma ends_star_class (f : N -> bool) (prev : option N) (s : str) :
  ends (Star (Class f)) (prev, s) = backs f prev s.
Proof. rewrite ends_Star. apply star_class. cbn [snd]. lia. Qed.

Lemma backs_head (f : N -> bool) (s : str) : forall prev,
  exists p tl, backs f prev s = (p, dropwhile f s) :: tl.
Proof.
  induction s as [|c t IH]; intros prev; cbn [backs dropwhile].
  - eexists _, _. reflexivity.
  - destruct (f c).
    + destruct (IH (Some c)) as (p & tl & ->). eexists _, _. reflexivity.
    + eexists _, _. reflexivity.
Qed.

Lemma run_len_dropwhile (f : N -> bool) (s : str) :
  (run_len f s + List.length (dropwhile f s) = List.length s)%nat.
Proof.
  induction s as [|c t IH]; cbn [run_len dropwhile]; [reflexivity|].
  destruct (f c); cbn [List.length]; lia.
Qed.

Lemma skipn_run_len (f : N -> bool) (s : str) :
  skipn (run_len f s) s = dropwhile f s.
Proof.
  induction s as [|c t IH]; cbn [run_len dropwhile]; [reflexivity|].
  destruct (f c); [exact IH | reflexivity].
Qed.

(** [f+] matches the longest run. *)
Lemma match_at_plus_class (f : N -> bool) (prev : option N) (s : str) :
  match_at (Plus (Class f)) prev s
  = match run_len f s with
    | O => None
    | S k => Some (S k)
    end.
Proof.
  unfold match_at. rewrite ends_plus_class.
  destruct s as [|c t]; [reflexivity|]. cbn [run_len].
  destruct (f c); [|reflexivity].
  destruct (backs_head f t (Some c)) as (p & tl & ->). cbn [snd].
  pose proof (run_len_dropwhile f t). f_equal. cbn [List.length]. lia.
Qed.

End RunFacts.

(** ** Unfolding a scan *)

Section ScanFacts.
Import Re.

Lemma sub_scan_skip (m : matcher) (repl : str) (k : nat) : forall prev s,
  (k <= List.length s)%nat ->
  sub_scan m repl k prev s
  = sub_scan m repl 0 (last_char prev (firstn k s)) (skipn k s).
Proof.
  induction k as [|k IH]; intros prev s Hk.
  - reflexivity.
  - destruct s as [|c t]; [cbn in Hk; lia|].
    cbn [sub_scan firstn skipn]. rewrite IH by (cbn in Hk; lia). reflexivity.
Qed.

Lemma sub_scan_match (m : matcher) (repl : str) (k : nat) (prev : option N)
    (s : str) :
  m prev s = Some (S k) -> (S k <= List.length s)%nat ->
  sub_scan m repl 0 prev s
  = repl ++ sub_scan m repl 0 (last_char prev (firstn (S k) s)) (skipn (S k) s).
Proof.
  intros Hm Hk. destruct s as [|c t]; [cbn in Hk; lia|].
  cbn [sub_scan]. rewrite Hm. f_equal.
  rewrite sub_scan_skip by (cbn in Hk; lia). reflexivity.
Qed.

Lemma sub_scan_nomatch (m : matcher) (repl : str) (prev : option N) (c : N)
    (t : str) :
  m prev (c :: t) = None ->
  sub_scan m repl 0 prev (c :: t) = c :: sub_scan m repl 0 (Some c) t.
Proof. intros Hm. cbn [sub_scan]. rewrite Hm. reflexivity. Qed.

Lemma sub_scan_nil (m : matcher) (repl : str) (prev : option N) :
  m prev [] = None -> sub_scan m repl 0 prev [] = [].
Proof. intros Hm. cbn [sub_scan]. rewrite Hm. reflexivity. Qed.

End ScanFacts.

(** ** Runs of spaces and tabs *)

Section SqueezeFacts.
Import Re TextCleaner.

Lemma squeeze_blank (t : str) : forall c,
  is_blank c = true -> squeeze (c :: t) = SPACE :: squeeze (dropwhile is_blank t).
Proof.
  induction t as [|c' t' IH]; intros c Hc; cbn [squeeze dropwhile]; rewrite Hc.
  - reflexivity.
  - destruct (is_blank c') eqn:Hc'.
    + rewrite <- (IH c' Hc'). cbn [squeeze]. rewrite Hc'. reflexivity.
    + cbn [squeeze]. rewrite Hc'. reflexivity.
Qed.

(** The first substitution of [remove_extra_spaces]. *)
Lemma sub_blanks_squeeze (n : nat) : forall s prev,
  (List.length s <= n)%nat ->
  sub_scan (match_at blanks_re) [SPACE] 0 prev s = squeeze s.
Proof.
  induction n as [|n IH]; intros s prev Hlen.
  - destruct s; [|cbn in Hlen; lia].
    apply sub_scan_nil. reflexivity.
  - destruct s as [|c t]; [apply sub_scan_nil; reflexivity|].
    pose proof (match_at_plus_class is_blank prev (c :: t)) as Hm.
    fold blanks_re in Hm. cbn [run_len] in Hm.
    destruct (is_blank c) eqn:Hc.
    + pose proof (run_len_dropwhile is_blank t) as Hrun.
      rewrite (sub_scan_match _ [SPACE] _ _ _ Hm) by (cbn [List.length]; lia).
      cbn [skipn app]. rewrite skipn_run_len.
      rewrite IH by (cbn in Hlen; lia).
      rewrite squeeze_blank by exact Hc. reflexivity.
    + rewrite (sub_scan_nomatch _ [SPACE] _ _ _ Hm).
      rewrite IH by (cbn in Hlen; lia).
      cbn [squeeze]. rewrite Hc. reflexivity.
Qed.

Lemma blank_cases (c : N) : is_blank c = true -> c = SPACE \/ c = TAB.
Proof.
  unfold is_blank. intros H. apply orb_prop in H as [H | H];
    apply N.eqb_eq in H; auto.
Qed.

Lemma squeeze_head_blank (s : str) :
  head_blank s = false -> head_blank (squeeze s) = false.
Proof.
  destruct s as [|c t]; [reflexivity|]. cbn [head_blank squeeze].
  intros Hc. rewrite Hc. cbn [head_blank]. exact Hc.
Qed.

Lemma squeeze_tidy (s : str) : tidy (squeeze s) = true.
Proof.
  induction s as [|c t IH]; [reflexivity|]. cbn [squeeze].
  destruct (is_blank c) eqn:Hc.
  - destruct t as [|c' t']; [reflexivity|].
    destruct (is_blank c') eqn:Hc'; [exact IH|].
    cbn [tidy]. rewrite IH, andb_true_r.
    rewrite squeeze_head_blank by (cbn [head_blank]; exact Hc').
    reflexivity.
  - cbn [tidy]. rewrite IH, Hc, andb_true_r. cbn [andb negb].
    rewrite andb_true_r. apply negb_true_iff.
    destruct (N.eqb_spec c TAB) as [-> |]; [discriminate | reflexivity].
Qed.

Lemma tidy_squeeze (s : str) : tidy s = true -> squeeze s = s.
Proof.
  induction s as [|c t IH]; [reflexivity|]. cbn [tidy squeeze].
  intros H. apply andb_prop in H as [H Ht]. apply andb_prop in H as [Htab Hpair].
  rewrite (IH Ht). destruct (is_blank c) eqn:Hc; [|reflexivity].
  cbn [andb] in Hpair. apply negb_true_iff in Hpair.
  assert (c = SPACE) as ->.
  { destruct (blank_cases _ Hc) as [-> | ->]; [reflexivity | discriminate]. }
  destruct t as [|c' t']; [reflexivity|].
  cbn [head_blank] in Hpair. rewrite Hpair. reflexivity.
Qed.

End SqueezeFacts.

(** ** Replacing matches by two line feeds keeps a text tidy *)

Section TidyFacts.
Import Re.

Lemma tidy_cons (c : N) (t o : str) :
  tidy (c :: t) = true -> tidy o = true ->
  (head_blank o = true -> head_blank t = true) ->
  tidy (c :: o) = true.
Proof.
  cbn [tidy]. intros H Ho Hhead.
  apply andb_prop in H as [H _]. apply andb_prop in H as [Htab Hpair].
  rewrite Htab, Ho, andb_true_r. cbn [andb].
  destruct (is_blank c); [|reflexivity]. cbn [andb] in *.
  destruct (head_blank o); [|reflexivity].
  rewrite Hhead in Hpair by reflexivity. discriminate.
Qed.

Lemma tidy_tail (c : N) (t : str) : tidy (c :: t) = true -> tidy t = true.
Proof. cbn [tidy]. intros H. apply andb_prop in H as [_ H]. exact H. Qed.

Lemma sub_lf_tidy (m : matcher) (s : str) : forall skip prev,
  tidy s = true ->
  tidy (sub_scan m [LF; LF] skip prev s) = true
  /\ (skip = O -> head_blank (sub_scan m [LF; LF] skip prev s) = true ->
      head_blank s = true).
Proof.
  induction s as [|c t IH]; intros skip prev Ht.
  - destruct skip as [|k]; cbn [sub_scan].
    + destruct (m prev []) as [[|k]|]; split; try reflexivity;
        intros _ H; discriminate.
    + split; [reflexivity | discriminate].
  - pose proof (tidy_tail _ _ Ht) as Ht'.
    destruct skip as [|k]; cbn [sub_scan].
    + destruct (IH O (Some c) Ht') as [IH1 IH2].
      specialize (IH2 eq_refl).
      destruct (m prev (c :: t)) as [[|k]|].
      * cbn [app]. split.
        -- change (tidy (c :: sub_scan m [LF; LF] 0 (Some c) t) = true).
           apply (tidy_cons c t _ Ht IH1 IH2).
        -- intros _ H. discriminate.
      * cbn [app]. split.
        -- change (tidy (sub_scan m [LF; LF] k (Some c) t) = true).
           apply (IH k (Some c) Ht').
        -- intros _ H. discriminate.
      * split; [apply (tidy_cons c t _ Ht IH1 IH2)|].
        intros _ H. exact H.
    + split; [apply (IH k (Some c) Ht') | discriminate].
Qed.

Lemma tidy_app (a b : str) :
  tidy (a ++ b) = true -> tidy a = true /\ tidy b = true.
Proof.
  induction a as [|c a IH]; cbn [app]; [auto|].
  intros H. destruct (IH (tidy_tail _ _ H)) as [Ha Hb]. split; [|exact Hb].
  apply (tidy_cons c (a ++ b) a H Ha). destruct a; [discriminate | auto].
Qed.

End TidyFacts.

(** ** The pattern [^\s+|\s+$] *)

Section TrimFacts.
Import Re TextCleaner.

Lemma ends_Bol (p : pos) : ends Bol p = if at_bol p then [p] else [].
Proof. reflexivity. Qed.

Lemma ends_Eol (p : pos) : ends Eol p = if at_eol p then [p] else [].
Proof. reflexivity. Qed.

Lemma ends_trim (prev : option N) (s : str) :
  ends trim_re (prev, s)
  = (if line_start prev then ends (Plus (Class isspace)) (prev, s) else [])
    ++ flat_map (ends Eol) (ends (Plus (Class isspace)) (prev, s)).
Proof.
  unfold trim_re. rewrite ends_Alt, !ends_Cat, ends_Bol.
  change (at_bol (prev, s)) with (line_start prev).
  destruct (line_start prev); cbn [flat_map]; [rewrite app_nil_r|];
    reflexivity.
Qed.

Lemma is_lf_eq (c : N) : is_lf c = true -> c = LF.
Proof. unfold is_lf. apply N.eqb_eq. Qed.

Lemma gap_space (c : N) : is_gap c = true -> isspace c = true.
Proof. unfold is_gap. intros H. apply andb_prop in H as [H _]. exact H. Qed.

Lemma gap_not_lf (c : N) : is_gap c = true -> is_lf c = false.
Proof.
  unfold is_gap. intros H. apply andb_prop in H as [_ H].
  apply negb_true_iff, H.
Qed.

Lemma not_space_not_lf (c : N) : isspace c = false -> is_lf c = false.
Proof.
  intros H. destruct (is_lf c) eqn:Hlf; [|reflexivity].
  apply is_lf_eq in Hlf. subst. discriminate.
Qed.

Lemma forallb_gap_space (v : str) :
  forallb is_gap v = true -> forallb isspace v = true.
Proof.
  induction v as [|c t IH]; cbn [forallb]; [reflexivity|].
  intros H. apply andb_prop in H as [Hc Ht].
  rewrite (gap_space _ Hc), (IH Ht). reflexivity.
Qed.

Lemma run_len_app (f : N -> bool) (w : str) (c : N) (rest : str) :
  forallb f w = true -> f c = false ->
  run_len f (w ++ c :: rest) = List.length w.
Proof.
  intros Hw Hc. induction w as [|x w IH]; cbn [app run_len List.length].
  - rewrite Hc. reflexivity.
  - cbn [forallb] in Hw. apply andb_prop in Hw as [Hx Hw].
    rewrite Hx, (IH Hw). reflexivity.
Qed.

Lemma run_len_all (f : N -> bool) (w : str) :
  forallb f w = true -> run_len f w = List.length w.
Proof.
  induction w as [|x w IH]; cbn [forallb run_len List.length]; [reflexivity|].
  intros H. apply andb_prop in H as [Hx Hw]. rewrite Hx, (IH Hw). reflexivity.
Qed.

Lemma skipn_length_app (A : Type) (w r : list A) :
  skipn (List.length w) (w ++ r) = r.
Proof. induction w as [|x w IH]; [reflexivity | exact IH]. Qed.

Lemma last_char_cons (prev : option N) (x : N) (w : str) :
  last_char prev (x :: w) = last_char (Some x) w.
Proof. reflexivity. Qed.

Lemma last_char_some (x : N) (w : str) : exists y, last_char (Some x) w = Some y.
Proof.
  revert x. induction w as [|c w IH]; intros x; [exists x; reflexivity|].
  rewrite last_char_cons. apply IH.
Qed.

Lemma backs_app (f : N -> bool) (x y : str) : forall prev,
  forallb f x = true ->
  exists tl, backs f prev (x ++ y) = backs f (last_char prev x) y ++ tl.
Proof.
  induction x as [|c x IH]; intros prev Hx.
  - exists []. cbn [app last_char fold_left]. rewrite app_nil_r. reflexivity.
  - cbn [forallb] in Hx. apply andb_prop in Hx as [Hc Hx].
    destruct (IH (Some c) Hx) as [tl Htl].
    cbn [app backs]. rewrite Hc, Htl, last_char_cons, <- app_assoc.
    eexists. reflexivity.
Qed.

(** The pattern does not match where the text ends or goes on with a
    character that is no white space. *)
Lemma trim_no_space (prev : option N) (s : str) :
  match s with [] => True | c :: _ => isspace c = false end ->
  match_at trim_re prev s = None.
Proof.
  intros Hs. unfold match_at. rewrite ends_trim, ends_plus_class.
  assert (Hno : match s with
                | [] => []
                | c :: t => if isspace c then backs isspace (Some c) t else []
                end = []).
  { destruct s as [|c t]; [reflexivity|]. rewrite Hs. reflexivity. }
  rewrite Hno. destruct (line_start prev); reflexivity.
Qed.

(** At the beginning of a line it matches the whole run of white space. *)
Lemma trim_bol (prev : option N) (s : str) :
  line_start prev = true ->
  match_at trim_re prev s
  = match run_len isspace s with
    | O => None
    | S k => Some (S k)
    end.
Proof.
  intros Hbol. unfold match_at. rewrite ends_trim, Hbol, ends_plus_class.
  destruct s as [|c t]; [reflexivity|]. cbn [run_len].
  destruct (isspace c); [|reflexivity].
  destruct (backs_head isspace t (Some c)) as (p & tl & ->).
  cbn [app snd]. pose proof (run_len_dropwhile isspace t).
  f_equal. cbn [List.length]. lia.
Qed.

(** A run of white space that reaches the end of the text is matched
    whole. *)
Lemma trim_to_end (prev : option N) (w : str) :
  forallb isspace w = true -> w <> [] ->
  match_at trim_re prev w = Some (List.length w).
Proof.
  intros Hw Hne.
  destruct (line_start prev) eqn:Hbol.
  - rewrite (trim_bol prev w Hbol), (run_len_all _ _ Hw).
    destruct w; [contradiction | reflexivity].
  - unfold match_at. rewrite ends_trim, Hbol, ends_plus_class.
    destruct w as [|c t]; [contradiction|].
    cbn [forallb] in Hw. apply andb_prop in Hw as [Hc Ht]. rewrite Hc.
    destruct (backs_head isspace t (Some c)) as (p & tl & ->).
    rewrite (dropwhile_all _ _ Ht). cbn [app flat_map]. rewrite ends_Eol.
    cbn [at_eol snd app]. f_equal; lia.
Qed.

Lemma no_eol_in_gap (v : str) (c : N) (rest : str) :
  forallb is_gap v = true -> isspace c = false ->
  forall prev,
    flat_map (ends Eol) (backs isspace prev (v ++ c :: rest)) = [].
Proof.
  intros Hv Hc. induction v as [|x v IH]; intros prev; cbn [app backs].
  - rewrite Hc. cbn [flat_map]. rewrite ends_Eol. cbn [at_eol snd].
    fold (is_lf c). rewrite (not_space_not_lf _ Hc). reflexivity.
  - cbn [forallb] in Hv. apply andb_prop in Hv as [Hx Hv].
    rewrite (gap_space _ Hx), flat_map_app, (IH Hv). cbn [flat_map app].
    rewrite ends_Eol. cbn [at_eol snd]. fold (is_lf x).
    rewrite (gap_not_lf _ Hx). reflexivity.
Qed.

(** Away from the beginning of a line it does not match at white space
    that is followed, without a line feed, by another character. *)
Lemma trim_gap (prev : option N) (w0 : N) (v : str) (c : N) (rest : str) :
  line_start prev = false ->
  forallb is_gap v = true -> isspace c = false ->
  match_at trim_re prev (w0 :: v ++ c :: rest) = None.
Proof.
  intros Hbol Hv Hc. unfold match_at.
  rewrite ends_trim, Hbol, ends_plus_class.
  destruct (isspace w0); [|reflexivity].
  cbn [app]. rewrite (no_eol_in_gap v c rest Hv Hc). reflexivity.
Qed.

(** Otherwise it matches up to the last line feed of the run. *)
Lemma trim_to_last_lf (prev : option N) (x v : str) (c : N) (rest : str) :
  line_start prev = false ->
  forallb isspace x = true -> x <> [] ->
  forallb is_gap v = true -> isspace c = false ->
  match_at trim_re prev (x ++ LF :: v ++ c :: rest) = Some (List.length x).
Proof.
  intros Hbol Hx Hne Hv Hc. unfold match_at.
  rewrite ends_trim, Hbol, ends_plus_class.
  destruct x as [|x0 x]; [contradiction|].
  cbn [forallb] in Hx. apply andb_prop in Hx as [Hx0 Hx].
  cbn [app]. rewrite Hx0.
  destruct (backs_app isspace x (LF :: v ++ c :: rest) (Some x0) Hx)
    as [tl ->].
  cbn [backs]. change (isspace LF) with true. cbn iota.
  rewrite !flat_map_app, (@no_eol_in_gap v c rest Hv Hc). cbn [flat_map app].
  rewrite ends_Eol. cbn [at_eol snd]. change (N.eqb LF LF) with true.
  cbn [app snd]. f_equal. cbn [List.length]. rewrite length_app.
  cbn [List.length]. lia.
Qed.

End TrimFacts.

(** ** The third substitution, run by run *)

Section TrimRuns.
Import Re TextCleaner.

Local Abbreviation trim_from := (sub_scan (match_at trim_re) [] 0).

(** White space up to the end of the text goes. *)
Lemma trim_trailing (w : str) (prev : option N) :
  forallb isspace w = true -> trim_from prev w = [].
Proof.
  intros Hw. destruct w as [|x w].
  - apply sub_scan_nil. apply trim_no_space. exact I.
  - assert (Hm : match_at trim_re prev (x :: w) = Some (S (List.length w))).
    { apply (trim_to_end prev (x :: w) Hw). discriminate. }
    rewrite (sub_scan_match _ [] _ _ _ Hm) by (cbn [List.length]; lia).
    cbn [app]. change (S (List.length w)) with (List.length (x :: w)).
    rewrite skipn_all. apply sub_scan_nil. apply trim_no_space. exact I.
Qed.

(** White space at the beginning of a line goes. *)
Lemma trim_leading (w : str) (c : N) (rest : str) (prev : option N) :
  line_start prev = true -> forallb isspace w = true -> isspace c = false ->
  trim_from prev (w ++ c :: rest) = c :: trim_from (Some c) rest.
Proof.
  intros Hbol Hw Hc. destruct w as [|x w].
  - cbn [app]. apply sub_scan_nomatch. apply trim_no_space. exact Hc.
  - assert (Hm : match_at trim_re prev ((x :: w) ++ c :: rest)
                 = Some (S (List.length w))).
    { rewrite (trim_bol prev _ Hbol), (run_len_app _ _ _ _ Hw Hc). reflexivity. }
    rewrite (sub_scan_match _ [] _ _ _ Hm)
      by (rewrite length_app; cbn [List.length]; lia).
    cbn [app]. change (S (List.length w)) with (List.length (x :: w)).
    change (x :: w ++ c :: rest) with ((x :: w) ++ c :: rest).
    rewrite skipn_length_app.
    apply sub_scan_nomatch. apply trim_no_space. exact Hc.
Qed.

(** White space without line feed that stands between two characters
    stays. *)
Lemma trim_gap_run (v : str) (c : N) (rest : str) : forall prev,
  line_start prev = false -> forallb is_gap v = true -> isspace c = false ->
  trim_from prev (v ++ c :: rest) = v ++ c :: trim_from (Some c) rest.
Proof.
  induction v as [|x v IH]; intros prev Hbol Hv Hc.
  - cbn [app]. apply sub_scan_nomatch. apply trim_no_space. exact Hc.
  - cbn [forallb] in Hv. apply andb_prop in Hv as [Hx Hv]. cbn [app].
    rewrite sub_scan_nomatch by (apply trim_gap; assumption).
    rewrite IH; [reflexivity | | assumption | assumption].
    cbn [line_start]. apply gap_not_lf, Hx.
Qed.

(** A line feed followed by white space without line feed, between two
    characters: the line feed stays. *)
Lemma trim_lf_run (v : str) (c : N) (rest : str) (prev : option N) :
  line_start prev = false -> forallb is_gap v = true -> isspace c = false ->
  trim_from prev (LF :: v ++ c :: rest) = LF :: c :: trim_from (Some c) rest.
Proof.
  intros Hbol Hv Hc.
  rewrite sub_scan_nomatch by (apply trim_gap; assumption).
  rewrite trim_leading; [reflexivity | reflexivity | | assumption].
  apply forallb_gap_space, Hv.
Qed.

Lemma no_lf_gap (w : str) :
  forallb isspace w = true -> existsb is_lf w = false ->
  forallb is_gap w = true.
Proof.
  induction w as [|x w IH]; cbn [forallb existsb]; [reflexivity|].
  intros Hw Hlf. apply andb_prop in Hw as [Hx Hw].
  apply orb_false_elim in Hlf as [Hxl Hlf].
  rewrite (IH Hw Hlf). unfold is_gap. rewrite Hx, Hxl. reflexivity.
Qed.

(** A run with a line feed, cut at its last line feed. *)
Lemma last_lf_split (w : str) :
  forallb isspace w = true -> existsb is_lf w = true ->
  exists x v, w = x ++ LF :: v /\ forallb isspace x = true
              /\ forallb is_gap v = true.
Proof.
  induction w as [|c w IH]; cbn [forallb existsb]; [discriminate|].
  intros Hw Hlf. apply andb_prop in Hw as [Hc Hw].
  destruct (existsb is_lf w) eqn:Hrest.
  - destruct (IH Hw eq_refl) as (x & v & -> & Hx & Hv).
    exists (c :: x), v. cbn [app forallb]. rewrite Hc, Hx. auto.
  - rewrite orb_false_r in Hlf. apply is_lf_eq in Hlf. subst c.
    exists [], w. split; [reflexivity|]. split; [reflexivity|].
    apply no_lf_gap; assumption.
Qed.

Lemma last_lf_none (v : str) : forall prev,
  forallb is_gap v = true -> last_lf_after_lf prev v = None.
Proof.
  induction v as [|c v IH]; intros prev; cbn [forallb last_lf_after_lf];
    [reflexivity|].
  intros H. apply andb_prop in H as [Hc Hv].
  rewrite (IH (Some c) Hv), (gap_not_lf _ Hc). reflexivity.
Qed.

Lemma last_lf_at (x v : str) : forall prev,
  forallb is_gap v = true ->
  last_lf_after_lf prev (x ++ LF :: v) = Some (after_lf (last_char prev x)).
Proof.
  induction x as [|c x IH]; intros prev Hv.
  - cbn [app last_lf_after_lf]. rewrite (last_lf_none v _ Hv). reflexivity.
  - cbn [app last_lf_after_lf]. rewrite (IH (Some c) Hv). reflexivity.
Qed.

(** What the third substitution makes of a run of white space between two
    characters. *)
Lemma trim_interior_run (w : str) (c : N) (rest : str) (prev : option N) :
  line_start prev = false -> forallb isspace w = true -> isspace c = false ->
  trim_from prev (w ++ c :: rest)
  = trim_interior prev w ++ c :: trim_from (Some c) rest.
Proof.
  intros Hbol Hw Hc. unfold trim_interior.
  destruct (existsb is_lf w) eqn:Hlf.
  - destruct (last_lf_split _ Hw Hlf) as (x & v & -> & Hx & Hv).
    rewrite (last_lf_at x v prev Hv), <- app_assoc. cbn [app].
    destruct x as [|x0 x].
    + cbn [app last_char fold_left].
      replace (after_lf prev) with false
        by (destruct prev; [symmetry; exact Hbol | discriminate]).
      apply trim_lf_run; assumption.
    + assert (Hm : match_at trim_re prev ((x0 :: x) ++ LF :: v ++ c :: rest)
                   = Some (S (List.length x))).
      { apply (trim_to_last_lf prev (x0 :: x) v c rest); try assumption.
        discriminate. }
      rewrite (sub_scan_match _ [] _ _ _ Hm)
        by (rewrite length_app; cbn [List.length]; lia).
      cbn [app]. change (S (List.length x)) with (List.length (x0 :: x)).
      change (x0 :: x ++ LF :: v ++ c :: rest)
        with ((x0 :: x) ++ LF :: v ++ c :: rest).
      rewrite skipn_length_app, firstn_app, Nat.sub_diag, firstn_all.
      cbn [firstn]. rewrite app_nil_r.
      rewrite last_char_cons.
      destruct (last_char_some x0 x) as [y Hy]. rewrite Hy. cbn [after_lf].
      destruct (is_lf y) eqn:Hyl.
      * change (LF :: v ++ c :: rest) with ((LF :: v) ++ c :: rest).
        apply trim_leading; [exact Hyl | | assumption].
        cbn [forallb]. rewrite (forallb_gap_space _ Hv). reflexivity.
      * apply trim_lf_run; assumption.
  - pose proof (no_lf_gap _ Hw Hlf) as Hv.
    rewrite (last_lf_none w prev Hv). apply trim_gap_run; assumption.
Qed.

End TrimRuns.

(** ** Cleaned texts *)

Section CleanFacts.
Import Re TextCleaner.

Local Abbreviation trim_from := (sub_scan (match_at trim_re) [] 0).
Local Abbreviation breaks_from := (sub_scan (match_at breaks_re) [LF; LF] 0).

(** A text is white space throughout, or has a first character that is
    not. *)
Lemma span_space (s : str) :
  forallb isspace s = true
  \/ exists w c rest, s = w ++ c :: rest /\ forallb isspace w = true
                      /\ isspace c = false.
Proof.
  induction s as [|x s IH]; [left; reflexivity|].
  destruct (isspace x) eqn:Hx.
  - destruct IH as [IH | (w & c & rest & -> & Hw & Hc)].
    + left. cbn [forallb]. rewrite Hx, IH. reflexivity.
    + right. exists (x :: w), c, rest. cbn [app forallb]. rewrite Hx, Hw. auto.
  - right. exists [], x, s. auto.
Qed.

Lemma blank_space (c : N) : is_blank c = true -> isspace c = true.
Proof. intros H. destruct (blank_cases c H) as [-> | ->]; reflexivity. Qed.

Lemma not_space_not_blank (c : N) : isspace c = false -> is_blank c = false.
Proof.
  intros H. destruct (is_blank c) eqn:Hb; [|reflexivity].
  rewrite (blank_space c Hb) in H. discriminate.
Qed.

Lemma tidy_nonspace_cons (c : N) (t : str) :
  isspace c = false -> tidy (c :: t) = tidy t.
Proof.
  intros Hc. cbn [tidy]. rewrite (not_space_not_blank c Hc). cbn [andb negb].
  destruct (N.eqb_spec c TAB) as [-> |]; [discriminate | reflexivity].
Qed.

Lemma tidy_join (y : str) (c : N) (t : str) :
  tidy y = true -> isspace c = false -> tidy (c :: t) = true ->
  tidy (y ++ c :: t) = true.
Proof.
  intros Hy Hc Ht. induction y as [|x y IH]; [exact Ht|].
  cbn [app]. apply (tidy_cons x y _ Hy (IH (tidy_tail x y Hy))).
  destruct y as [|x' y]; [|auto].
  cbn [app head_blank]. rewrite (not_space_not_blank c Hc). discriminate.
Qed.

Lemma good_run_space (y : str) : good_run y -> forallb isspace y = true.
Proof.
  intros [-> | [Hy _]]; [reflexivity | apply forallb_gap_space, Hy].
Qed.

Lemma good_run_tidy (y : str) : good_run y -> tidy y = true.
Proof. intros [-> | [_ Hy]]; [reflexivity | exact Hy]. Qed.

Lemma clean_tail_tidy (t : str) :
  clean_tail t -> forall c, isspace c = false -> tidy (c :: t) = true.
Proof.
  induction 1 as [|y c' t Hy Hc' Ht IH]; intros c Hc;
    rewrite (tidy_nonspace_cons c _ Hc); [reflexivity|].
  apply tidy_join; [apply good_run_tidy, Hy | exact Hc' | apply IH, Hc'].
Qed.

Lemma clean_tidy (r : str) : clean r -> tidy r = true.
Proof.
  intros [-> | (c & t & -> & Hc & Ht)]; [reflexivity|].
  apply clean_tail_tidy; assumption.
Qed.

Lemma last_lf_none_inv (w : str) : forall prev,
  last_lf_after_lf prev w = None -> existsb is_lf w = false.
Proof.
  induction w as [|c w IH]; intros prev; cbn [last_lf_after_lf existsb];
    [reflexivity|].
  destruct (last_lf_after_lf (Some c) w) eqn:Hw; [discriminate|].
  destruct (is_lf c); [discriminate|]. intros _. apply (IH (Some c) Hw).
Qed.

Lemma trim_interior_good (prev : option N) (w : str) :
  forallb isspace w = true -> tidy w = true ->
  good_run (trim_interior prev w).
Proof.
  intros Hw Ht. unfold trim_interior.
  destruct (last_lf_after_lf prev w) as [[|]|] eqn:Hl.
  - right. split; reflexivity.
  - left. reflexivity.
  - right. split; [|exact Ht].
    apply no_lf_gap; [exact Hw | apply (last_lf_none_inv w prev Hl)].
Qed.

(** After the third substitution, what follows a character that is no
    white space is as in a cleaned text. *)
Lemma trim_from_clean_tail (n : nat) : forall s p,
  (List.length s <= n)%nat -> tidy s = true -> isspace p = false ->
  clean_tail (trim_from (Some p) s).
Proof.
  induction n as [|n IH]; intros s p Hlen Ht Hp;
    (destruct (span_space s) as [Hs | (w & c & rest & -> & Hw & Hc)];
     [rewrite (trim_trailing s (Some p) Hs); constructor|]).
  - rewrite length_app in Hlen. cbn [List.length] in Hlen. lia.
  - destruct (tidy_app w (c :: rest) Ht) as [Htw Htr].
    rewrite trim_interior_run;
      [| cbn [line_start]; apply not_space_not_lf, Hp | exact Hw | exact Hc].
    constructor; [apply trim_interior_good; assumption | exact Hc |].
    apply IH; [| apply (tidy_tail c rest Htr) | exact Hc].
    rewrite length_app in Hlen. cbn [List.length] in Hlen. lia.
Qed.

Lemma trim_clean (s : str) : tidy s = true -> clean (sub trim_re [] s).
Proof.
  intros Ht. unfold sub.
  destruct (span_space s) as [Hs | (w & c & rest & -> & Hw & Hc)].
  - rewrite (trim_trailing s None Hs). left. reflexivity.
  - destruct (tidy_app w (c :: rest) Ht) as [_ Htr].
    rewrite trim_leading; [| reflexivity | exact Hw | exact Hc].
    right. exists c, (trim_from (Some c) rest).
    split; [reflexivity|]. split; [exact Hc|].
    apply (trim_from_clean_tail (List.length rest));
      [lia | apply (tidy_tail c rest Htr) | exact Hc].
Qed.

(** A cleaned text is left as it is by each step. *)
Lemma sub_scan_prefix (m : matcher) (repl : str) (P : N -> bool) (y rest : str) :
  (forall prev c t, P c = true -> m prev (c :: t) = None) ->
  forallb P y = true ->
  forall prev,
    sub_scan m repl 0 prev (y ++ rest)
    = y ++ sub_scan m repl 0 (last_char prev y) rest.
Proof.
  intros Hm. induction y as [|x y IH]; intros Hy prev; [reflexivity|].
  cbn [forallb] in Hy. apply andb_prop in Hy as [Hx Hy].
  cbn [app]. rewrite sub_scan_nomatch by (apply Hm, Hx).
  rewrite (IH Hy). reflexivity.
Qed.

Lemma breaks_not_lf (prev : option N) (c : N) (t : str) :
  is_lf c = false -> match_at breaks_re prev (c :: t) = None.
Proof. intros Hc. apply match_at_class_first. exact Hc. Qed.

Lemma breaks_single_lf (prev : option N) (c : N) (t : str) :
  isspace c = false -> match_at breaks_re prev (LF :: c :: t) = None.
Proof.
  intros Hc. unfold match_at, breaks_re.
  rewrite ends_Cat, ends_Class. change (is_lf LF) with true. cbn iota.
  cbn [flat_map]. rewrite ends_Cat, ends_star_class. cbn [backs].
  rewrite Hc. cbn [flat_map]. rewrite ends_Cat, ends_Class.
  rewrite (not_space_not_lf c Hc). reflexivity.
Qed.

Lemma breaks_clean_tail (t : str) :
  clean_tail t -> forall prev, breaks_from prev t = t.
Proof.
  induction 1 as [|y c t Hy Hc Ht IH]; intros prev.
  - apply sub_scan_nil. reflexivity.
  - destruct Hy as [-> | [Hy _]].
    + cbn [app].
      rewrite sub_scan_nomatch by (apply breaks_single_lf, Hc).
      rewrite sub_scan_nomatch by (apply breaks_not_lf, not_space_not_lf, Hc).
      rewrite IH. reflexivity.
    + rewrite (sub_scan_prefix _ _ is_gap y (c :: t));
        [| intros p x u Hx; apply breaks_not_lf, gap_not_lf, Hx | exact Hy].
      rewrite sub_scan_nomatch by (apply breaks_not_lf, not_space_not_lf, Hc).
      rewrite IH. reflexivity.
Qed.

Lemma breaks_fix (r : str) : clean r -> sub breaks_re [LF; LF] r = r.
Proof.
  intros [-> | (c & t & -> & Hc & Ht)]; unfold sub.
  - apply sub_scan_nil. reflexivity.
  - rewrite sub_scan_nomatch by (apply breaks_not_lf, not_space_not_lf, Hc).
    rewrite (breaks_clean_tail t Ht). reflexivity.
Qed.

Lemma trim_interior_fix (p : N) (y : str) :
  isspace p = false -> good_run y -> trim_interior (Some p) y = y.
Proof.
  intros Hp [-> | [Hy _]]; unfold trim_interior.
  - cbn [last_lf_after_lf after_lf]. change (is_lf LF) with true. cbn iota.
    rewrite (not_space_not_lf p Hp). reflexivity.
  - rewrite (last_lf_none y (Some p) Hy). reflexivity.
Qed.

Lemma trim_clean_tail (t : str) :
  clean_tail t -> forall p, isspace p = false -> trim_from (Some p) t = t.
Proof.
  induction 1 as [|y c t Hy Hc Ht IH]; intros p Hp.
  - apply sub_scan_nil. apply trim_no_space. exact I.
  - rewrite trim_interior_run;
      [| cbn [line_start]; apply not_space_not_lf, Hp
       | apply good_run_space, Hy | exact Hc].
    rewrite (trim_interior_fix p y Hp Hy), (IH c Hc). reflexivity.
Qed.

Lemma trim_fix (r : str) : clean r -> sub trim_re [] r = r.
Proof.
  intros [-> | (c & t & -> & Hc & Ht)]; unfold sub.
  - apply sub_scan_nil. apply trim_no_space. exact I.
  - rewrite sub_scan_nomatch by (apply trim_no_space; exact Hc).
    rewrite (trim_clean_tail t Ht c Hc). reflexivity.
Qed.

Lemma rstrip_app_fix (a b : str) :
  rstrip b = b -> b <> [] -> rstrip (a ++ b) = a ++ b.
Proof.
  intros Hb Hne. induction a as [|x a IH]; [exact Hb|].
  cbn [app rstrip]. rewrite IH.
  destruct (a ++ b) eqn:Hab; [|reflexivity].
  apply app_eq_nil in Hab as [_ Hab]. contradiction.
Qed.

Lemma rstrip_clean_tail (t : str) :
  clean_tail t -> forall c, isspace c = false -> rstrip (c :: t) = c :: t.
Proof.
  induction 1 as [|y c' t Hy Hc' Ht IH]; intros c Hc.
  - cbn [rstrip]. rewrite Hc. reflexivity.
  - change (c :: y ++ c' :: t) with ((c :: y) ++ c' :: t).
    apply rstrip_app_fix; [apply IH, Hc' | discriminate].
Qed.

Lemma strip_fix (r : str) : clean r -> strip r = r.
Proof.
  intros [-> | (c & t & -> & Hc & Ht)]; [reflexivity|].
  unfold strip, lstrip. cbn [dropwhile]. rewrite Hc.
  apply rstrip_clean_tail; assumption.
Qed.

(** What [remove_extra_spaces] returns is a cleaned text, and a cleaned
    text is returned as it is. *)
Lemma remove_extra_spaces_clean (s : str) : clean (remove_extra_spaces s).
Proof.
  unfold remove_extra_spaces.
  assert (Hc : clean (sub trim_re []
                        (sub breaks_re [LF; LF] (sub blanks_re [SPACE] s)))).
  { apply trim_clean. unfold sub at 1 2.
    rewrite (sub_blanks_squeeze (List.length s)) by lia.
    apply sub_lf_tidy. apply squeeze_tidy. }
  rewrite (strip_fix _ Hc). exact Hc.
Qed.

Lemma remove_extra_spaces_fix (r : str) : clean r -> remove_extra_spaces r = r.
Proof.
  intros Hr. unfold remove_extra_spaces.
  assert (H1 : sub blanks_re [SPACE] r = r).
  { unfold sub. rewrite (sub_blanks_squeeze (List.length r)) by lia.
    apply tidy_squeeze, clean_tidy, Hr. }
  rewrite H1, (breaks_fix r Hr), (trim_fix r Hr). apply strip_fix, Hr.
Qed.

(** C4.  [remove_extra_spaces] is idempotent. *)
Theorem remove_extra_spaces_idempotent (s : str) :
  remove_extra_spaces (remove_extra_spaces s) = remove_extra_spaces s.
Proof. apply remove_extra_spaces_fix, remove_extra_spaces_clean. Qed.

End CleanFacts.

Section ConsumedFacts.
Import Re.

Lemma last_char_app (prev : option N) (a b : str) :
  last_char prev (a ++ b) = last_char (last_char prev a) b.
Proof. unfold last_char. apply fold_left_app. Qed.

Lemma consumed_refl (W : N -> bool) (p : pos) : consumed W 0 p p.
Proof. exists []. cbn. auto. Qed.

Lemma consumed_trans (W : N -> bool) (n k : nat) (p q r : pos) :
  consumed W n p q -> consumed W k q r -> consumed W (n + k) p r.
Proof.
  intros (w & Hw & HW & Hp & Hn) (v & Hv & HV & Hq & Hk).
  exists (w ++ v). rewrite Hw, Hv, <- app_assoc, forallb_app, HW, HV.
  rewrite last_char_app, <- Hp, Hq, length_app.
  repeat split; try reflexivity. lia.
Qed.

Lemma consumed_weaken (W : N -> bool) (n k : nat) (p q : pos) :
  (k <= n)%nat -> consumed W n p q -> consumed W k p q.
Proof.
  intros Hk (w & Hw & HW & Hp & Hn). exists w. repeat split; auto. lia.
Qed.

Lemma star_ends_consumed (W : N -> bool) (f : pos -> list pos) :
  (forall p q, In q (f p) -> consumed W 0 p q) ->
  forall fuel p q, In q (star_ends f fuel p) -> consumed W 0 p q.
Proof.
  intros Hf. induction fuel as [|k IH]; intros p q Hq; cbn [star_ends] in Hq.
  - destruct Hq as [<- | []]. apply consumed_refl.
  - apply in_app_or in Hq as [Hq | [<- | []]]; [|apply consumed_refl].
    apply in_flat_map in Hq as (x & Hx & Hq).
    destruct (Nat.ltb _ _); [|contradiction].
    apply (consumed_trans W 0 0 p x q); [apply Hf, Hx | apply IH, Hq].
Qed.

(** Between a position and the end of a match lie only characters of the
    classes of the pattern, and at least [min_len] of them. *)
Lemma ends_consumed (W : N -> bool) (r : regex) :
  classes_in W r -> forall p q, In q (ends r p) -> consumed W (min_len r) p q.
Proof.
  induction r as [f | a IHa b IHb | a IHa b IHb | a IHa | a IHa | | | w];
    intros Hr p q Hq; cbn [ends min_len classes_in] in *.
  - destruct p as [prev [|c t]]; cbn [snd] in Hq; [contradiction|].
    destruct (f c) eqn:Hc; [|contradiction]. destruct Hq as [<- | []].
    exists [c]. cbn. rewrite (Hr c Hc). repeat split; reflexivity || lia.
  - destruct Hr as [Ha Hb]. apply in_flat_map in Hq as (x & Hx & Hq).
    apply (consumed_trans W _ _ p x q); [apply IHa | apply IHb]; assumption.
  - destruct Hr as [Ha Hb]. apply in_app_or in Hq as [Hq | Hq].
    + apply (consumed_weaken W (min_len a)); [lia | apply IHa; assumption].
    + apply (consumed_weaken W (min_len b)); [lia | apply IHb; assumption].
  - apply (star_ends_consumed W (ends a)) in Hq; [exact Hq|].
    intros p' q' H'. apply (consumed_weaken W (min_len a)); [lia|].
    apply IHa; assumption.
  - apply in_flat_map in Hq as (x & Hx & Hq).
    replace (min_len a) with (min_len a + 0)%nat by lia.
    apply (consumed_trans W _ _ p x q); [apply IHa; assumption|].
    apply (star_ends_consumed W (ends a)) in Hq; [exact Hq|].
    intros p' q' H'. apply (consumed_weaken W (min_len a)); [lia|].
    apply IHa; assumption.
  - destruct (at_bol p); [|contradiction]. destruct Hq as [<- | []].
    apply consumed_refl.
  - destruct (at_eol p); [|contradiction]. destruct Hq as [<- | []].
    apply consumed_refl.
  - destruct (at_wordb w p); [|contradiction]. destruct Hq as [<- | []].
    apply consumed_refl.
Qed.

Lemma classes_in_top (r : regex) : classes_in (fun _ => true) r.
Proof. induction r; cbn; auto. Qed.

Lemma firstn_length_app (A : Type) (w r : list A) :
  firstn (List.length w) (w ++ r) = w.
Proof. induction w as [|x w IH]; [reflexivity | cbn; f_equal; exact IH]. Qed.

(** A match lies within the text, is made of characters of the classes of
    the pattern and has at least [min_len] characters. *)
Lemma match_at_consumed (W : N -> bool) (r : regex) (prev : option N) (s : str)
    (k : nat) :
  classes_in W r -> match_at r prev s = Some k ->
  (min_len r <= k <= List.length s)%nat /\ forallb W (firstn k s) = true.
Proof.
  intros Hr. unfold match_at.
  destruct (ends r (prev, s)) as [|q tl] eqn:He; [discriminate|].
  intros H. injection H as <-.
  destruct (ends_consumed W r Hr (prev, s) q) as (w & Hw & HW & _ & Hn).
  { rewrite He. left. reflexivity. }
  cbn [snd] in Hw. clear He. subst s. rewrite length_app.
  replace (List.length w + List.length (snd q) - List.length (snd q))%nat
    with (List.length w) by lia.
  rewrite firstn_length_app. split; [lia | exact HW].
Qed.

End ConsumedFacts.

(** ** What the scans keep *)

Section ScanInvariants.
Import Re.

Variable W : N -> bool.
Variable m : matcher.
Hypothesis m_class : forall prev s k,
  m prev s = Some k -> forallb W (firstn k s) = true.

Local Abbreviation outside := (fun c => negb (W c)).

Lemma filter_outside_all (w : str) :
  forallb W w = true -> filter outside w = [].
Proof.
  induction w as [|c w IH]; cbn [forallb filter]; [reflexivity|].
  intros H. apply andb_prop in H as [Hc Hw]. rewrite Hc. cbn [negb].
  exact (IH Hw).
Qed.

Lemma forallb_firstn_cons (k : nat) (c : N) (t : str) :
  forallb W (firstn (S k) (c :: t)) = true ->
  W c = true /\ forallb W (firstn k t) = true.
Proof. cbn [firstn forallb]. apply andb_prop. Qed.

(** A substitution whose matches and replacement lie in [W] leaves the
    characters outside [W] as they are. *)
Lemma sub_scan_outside (repl : str) :
  forallb W repl = true ->
  forall s k prev, forallb W (firstn k s) = true ->
    filter outside (sub_scan m repl k prev s) = filter outside s.
Proof.
  intros Hrepl. induction s as [|c t IH]; intros k prev Hk.
  - destruct k as [|k]; cbn [sub_scan]; [|reflexivity].
    destruct (m prev []) as [[|j]|]; rewrite ?app_nil_r;
      try apply filter_outside_all; auto.
  - destruct k as [|k]; cbn [sub_scan].
    + destruct (m prev (c :: t)) as [[|j]|] eqn:Hm.
      * rewrite filter_app, (filter_outside_all repl Hrepl). cbn [app filter].
        rewrite (IH 0%nat (Some c)) by reflexivity. reflexivity.
      * apply m_class, forallb_firstn_cons in Hm as [Hc Hj].
        rewrite filter_app, (filter_outside_all repl Hrepl). cbn [app filter].
        rewrite Hc. cbn [negb]. apply IH, Hj.
      * cbn [filter]. rewrite (IH 0%nat (Some c)) by reflexivity. reflexivity.
    + apply forallb_firstn_cons in Hk as [Hc Hk]. cbn [filter].
      rewrite Hc. cbn [negb]. apply IH, Hk.
Qed.

(** The pieces of a split, put together, have the characters outside [W]
    of the text. *)
Lemma split_scan_outside :
  forall s k prev cur, forallb W (firstn k s) = true ->
    filter outside (List.concat (split_scan m k prev s cur))
    = filter outside (cur ++ s).
Proof.
  induction s as [|c t IH]; intros k prev cur Hk.
  - destruct k as [|k]; cbn [split_scan].
    + destruct (m prev []) as [[|j]|]; cbn [List.concat]; rewrite ?app_nil_r;
        reflexivity.
    + cbn [List.concat]. rewrite !app_nil_r. reflexivity.
  - destruct k as [|k]; cbn [split_scan].
    + destruct (m prev (c :: t)) as [[|j]|] eqn:Hm.
      * cbn [List.concat]. rewrite filter_app, (IH 0%nat (Some c) [c]) by reflexivity.
        rewrite <- filter_app. reflexivity.
      * apply m_class, forallb_firstn_cons in Hm as [Hc Hj].
        cbn [List.concat]. rewrite !filter_app, (IH j (Some c) [] Hj).
        cbn [app filter]. rewrite Hc. reflexivity.
      * rewrite (IH 0%nat (Some c) (cur ++ [c])) by reflexivity.
        rewrite <- app_assoc. reflexivity.
    + apply forallb_firstn_cons in Hk as [Hc Hk].
      rewrite (IH k (Some c) cur Hk), !filter_app. cbn [filter].
      rewrite Hc. reflexivity.
Qed.

End ScanInvariants.

Section ScanPieces.
Import Re.

Variable m : matcher.

(** The first piece of a split begins with the piece being read. *)
Lemma split_scan_head : forall s k prev cur,
  exists x rest, split_scan m k prev s cur = (cur ++ x) :: rest.
Proof.
  induction s as [|c t IH]; intros k prev cur.
  - destruct k as [|k]; cbn [split_scan].
    + destruct (m prev []) as [[|j]|]; exists [];
        rewrite app_nil_r; eexists; reflexivity.
    + exists [], []. rewrite app_nil_r. reflexivity.
  - destruct k as [|k]; cbn [split_scan].
    + destruct (m prev (c :: t)) as [[|j]|].
      * exists []. rewrite app_nil_r. eexists. reflexivity.
      * exists []. rewrite app_nil_r. eexists. reflexivity.
      * destruct (IH 0%nat (Some c) (cur ++ [c])) as (x & rest & ->).
        exists (c :: x), rest. rewrite <- app_assoc. reflexivity.
    + apply IH.
Qed.

(** The pieces of a split are made of the characters at which no match
    begins. *)
Lemma split_scan_pieces (P : N -> Prop) :
  (forall prev c t, m prev (c :: t) = None -> P c) ->
  (forall prev c t, m prev (c :: t) = Some 0%nat -> P c) ->
  forall s k prev cur, Forall P cur ->
    Forall (Forall P) (split_scan m k prev s cur).
Proof.
  intros Hnone Hzero. induction s as [|c t IH]; intros k prev cur Hcur.
  - destruct k as [|k]; cbn [split_scan].
    + destruct (m prev []) as [[|j]|]; repeat constructor; exact Hcur.
    + repeat constructor; exact Hcur.
  - destruct k as [|k]; cbn [split_scan].
    + destruct (m prev (c :: t)) as [[|j]|] eqn:Hm.
      * constructor; [exact Hcur|]. apply IH. constructor; [|constructor].
        exact (Hzero _ _ _ Hm).
      * constructor; [exact Hcur|]. apply IH. constructor.
      * apply IH. apply Forall_app. split; [exact Hcur|].
        constructor; [|constructor]. exact (Hnone _ _ _ Hm).
    + apply IH, Hcur.
Qed.

(** What [findall] lists are matches. *)
Lemma findall_scan_items (Q : str -> Prop) :
  (forall prev s k, m prev s = Some k -> Q (firstn k s)) ->
  forall s k prev, Forall Q (findall_scan m k prev s).
Proof.
  intros Hm. induction s as [|c t IH]; intros k prev.
  - destruct k as [|k]; cbn [findall_scan]; [|constructor].
    destruct (m prev []) as [[|j]|] eqn:H; repeat constructor.
    + exact (Hm _ _ _ H).
    + exact (Hm _ _ _ H).
  - destruct k as [|k]; cbn [findall_scan]; [|apply IH].
    destruct (m prev (c :: t)) as [[|j]|] eqn:H.
    + constructor; [exact (Hm _ _ _ H) | apply IH].
    + constructor; [exact (Hm _ _ _ H) | apply IH].
    + apply IH.
Qed.

(** There are no more non-empty matches than characters. *)
Lemma findall_scan_count : forall s k prev,
  (List.length (filter TextAnalyzer.nonempty (findall_scan m k prev s))
   <= List.length s)%nat.
Proof.
  induction s as [|c t IH]; intros k prev.
  - destruct k as [|k]; cbn [findall_scan]; [|cbn; lia].
    destruct (m prev []) as [[|j]|]; cbn; lia.
  - destruct k as [|k]; cbn [findall_scan].
    + destruct (m prev (c :: t)) as [[|j]|];
        cbn [filter firstn TextAnalyzer.nonempty List.length].
      * specialize (IH 0%nat (Some c)). lia.
      * specialize (IH j (Some c)). lia.
      * specialize (IH 0%nat (Some c)). lia.
    + specialize (IH k (Some c)). cbn [List.length]. lia.
Qed.

(** A substitution does not lengthen the text when no match is shorter
    than the replacement. *)
Lemma sub_scan_length (repl : str) :
  (forall prev s k, m prev s = Some k ->
     (List.length repl <= k <= List.length s)%nat) ->
  forall s k prev, (k <= List.length s)%nat ->
    (List.length (sub_scan m repl k prev s) + k <= List.length s)%nat.
Proof.
  intros Hm. induction s as [|c t IH]; intros k prev Hk.
  - destruct k as [|k]; [|cbn in Hk; lia]. cbn [sub_scan].
    destruct (m prev []) as [[|j]|] eqn:H; try (cbn; lia).
    + apply Hm in H. rewrite app_nil_r. cbn in *. lia.
    + apply Hm in H. cbn in H. lia.
  - destruct k as [|k]; cbn [sub_scan].
    + destruct (m prev (c :: t)) as [[|j]|] eqn:H.
      * apply Hm in H. specialize (IH 0%nat (Some c)).
        rewrite length_app. cbn [List.length] in *. lia.
      * apply Hm in H. specialize (IH j (Some c)).
        rewrite length_app. cbn [List.length] in *. lia.
      * specialize (IH 0%nat (Some c)). cbn [List.length]. lia.
    + specialize (IH k (Some c)). cbn [List.length] in *. lia.
Qed.

End ScanPieces.

(** ** Stripping *)

Section StripFacts.

Lemma lstrip_decomp (s : str) :
  exists w, s = w ++ lstrip s /\ forallb isspace w = true.
Proof.
  unfold lstrip. induction s as [|c t (w & Hw & HW)]; [exists []; auto|].
  cbn [dropwhile]. destruct (isspace c) eqn:Hc.
  - exists (c :: w). cbn [app forallb]. rewrite Hc, HW, <- Hw. auto.
  - exists []. auto.
Qed.

Lemma rstrip_decomp (s : str) :
  exists w, s = rstrip s ++ w /\ forallb isspace w = true.
Proof.
  induction s as [|c t (w & Hw & HW)]; [exists []; auto|].
  cbn [rstrip]. destruct (rstrip t) as [|x t'] eqn:Ht.
  - cbn [app] in Hw. subst t. destruct (isspace c) eqn:Hc.
    + exists (c :: w). cbn [app forallb]. rewrite Hc, HW. auto.
    + exists w. auto.
  - exists w. cbn [app]. rewrite Hw at 1. auto.
Qed.

(** [strip] takes white space off both ends and nothing else. *)
Lemma strip_decomp (s : str) :
  exists a b, s = a ++ strip s ++ b
              /\ forallb isspace a = true /\ forallb isspace b = true.
Proof.
  destruct (lstrip_decomp s) as (a & Ha & HA).
  destruct (rstrip_decomp (lstrip s)) as (b & Hb & HB).
  exists a, b. unfold strip. rewrite <- Hb. auto.
Qed.

Lemma lstrip_head (s : str) :
  match lstrip s with [] => True | c :: _ => isspace c = false end.
Proof.
  unfold lstrip. induction s as [|c t IH]; cbn [dropwhile]; [exact I|].
  destruct (isspace c) eqn:Hc; [exact IH | exact Hc].
Qed.

Lemma rstrip_head (c : N) (t : str) :
  isspace c = false -> exists t', rstrip (c :: t) = c :: t'.
Proof.
  intros Hc. cbn [rstrip]. destruct (rstrip t); [rewrite Hc|]; eexists; reflexivity.
Qed.

Lemma rstrip_idem (s : str) : rstrip (rstrip s) = rstrip s.
Proof.
  induction s as [|c t IH]; [reflexivity|]. cbn [rstrip].
  destruct (rstrip t) as [|x t'] eqn:Ht.
  - destruct (isspace c) eqn:Hc; [reflexivity|]. cbn [rstrip]. rewrite Hc.
    reflexivity.
  - cbn [rstrip] in IH |- *. rewrite IH. reflexivity.
Qed.

(** A stripped text is empty or begins with a character that is no white
    space. *)
Lemma strip_head (s : str) :
  match strip s with [] => True | c :: _ => isspace c = false end.
Proof.
  unfold strip. pose proof (lstrip_head s) as H.
  destruct (lstrip s) as [|c t]; [exact I|].
  destruct (rstrip_head c t H) as [t' ->]. exact H.
Qed.

Lemma strip_idem (s : str) : strip (strip s) = strip s.
Proof.
  pose proof (strip_head s) as H. unfold strip at 1.
  destruct (strip s) as [|c t] eqn:Hs; [reflexivity|].
  unfold lstrip. cbn [dropwhile]. rewrite H. rewrite <- Hs.
  unfold strip. apply rstrip_idem.
Qed.

Lemma visible_app (a b : str) : visible (a ++ b) = visible a ++ visible b.
Proof. apply filter_app. Qed.

Lemma visible_space (w : str) : forallb isspace w = true -> visible w = [].
Proof. apply (filter_outside_all isspace). Qed.

Lemma visible_strip (s : str) : visible (strip s) = visible s.
Proof.
  destruct (strip_decomp s) as (a & b & Hs & Ha & Hb). rewrite Hs at 2.
  rewrite !visible_app, (visible_space a Ha), (visible_space b Hb), app_nil_r.
  reflexivity.
Qed.

Lemma visible_nil (s : str) : visible s = [] -> forallb isspace s = true.
Proof.
  induction s as [|c t IH]; [reflexivity|]. unfold visible. cbn [filter forallb].
  destruct (isspace c); cbn [negb andb]; [exact IH | discriminate].
Qed.

Lemma strip_nil (s : str) : strip s = [] -> forallb isspace s = true.
Proof.
  intros H. apply visible_nil. rewrite <- visible_strip, H. reflexivity.
Qed.

Lemma Forall_strip (P : N -> Prop) (s : str) : Forall P s -> Forall P (strip s).
Proof.
  destruct (strip_decomp s) as (a & b & Hs & _). intros H. rewrite Hs in H.
  apply Forall_app in H as [_ H]. apply Forall_app in H as [H _]. exact H.
Qed.

Lemma strip_length (s : str) : (List.length (strip s) <= List.length s)%nat.
Proof.
  destruct (strip_decomp s) as (a & b & Hs & _). rewrite Hs at 2.
  rewrite !length_app. lia.
Qed.

End StripFacts.

(** ** The words of a text *)

Section WordFacts.
Import Re TextAnalyzer.
Local Open Scope Z_scope.

Variable U : unicode_db.

Local Abbreviation w := (is_word U).

Lemma dropwhile_head (f : N -> bool) (s : str) :
  match dropwhile f s with [] => True | c :: _ => f c = false end.
Proof.
  induction s as [|c t IH]; cbn [dropwhile]; [exact I|].
  destruct (f c) eqn:Hc; [exact IH | exact Hc].
Qed.

Lemma ends_WordB (f : N -> bool) (p : pos) :
  ends (WordB f) p = if at_wordb f p then [p] else [].
Proof. reflexivity. Qed.

Lemma backs_head_prev (f : N -> bool) (t : str) : forall c,
  f c = true ->
  exists c' tl, backs f (Some c) t = (Some c', dropwhile f t) :: tl
                /\ f c' = true.
Proof.
  induction t as [|x t IH]; intros c Hc; cbn [backs dropwhile].
  - exists c, []. auto.
  - destruct (f x) eqn:Hx.
    + destruct (IH x Hx) as (c' & tl & -> & Hc').
      exists c', (tl ++ [(Some c, x :: t)]). split; [reflexivity | exact Hc'].
    + exists c, []. auto.
Qed.

(** Where a word begins, [\b\w+\b] matches the whole run of word
    characters. *)
Lemma word_match_run (prev : option N) (c : N) (t : str) :
  w c = true ->
  match prev with Some p => w p = false | None => True end ->
  match_at (word_re U) prev (c :: t) = Some (S (run_len w t)).
Proof.
  intros Hc Hp. unfold match_at, word_re.
  rewrite ends_Cat, ends_WordB.
  match goal with
  | |- context [at_wordb ?f ?p] => assert (Hb : at_wordb f p = true)
  end.
  { unfold at_wordb. cbn [fst snd]. rewrite Hc.
    destruct prev as [p|]; [rewrite Hp|]; reflexivity. }
  rewrite Hb. cbn [flat_map]. rewrite app_nil_r, ends_Cat, ends_plus_class, Hc.
  destruct (backs_head_prev w t c Hc) as (c' & tl & -> & Hc').
  cbn [flat_map]. rewrite ends_WordB.
  match goal with
  | |- context [at_wordb ?f ?p] => assert (Hb' : at_wordb f p = true)
  end.
  { unfold at_wordb. cbn [fst snd]. rewrite Hc'.
    pose proof (dropwhile_head w t) as Hd.
    destruct (dropwhile w t); [|rewrite Hd]; reflexivity. }
  rewrite Hb'. cbn [app snd]. f_equal.
  pose proof (run_len_dropwhile w t) as Hl. cbn [List.length]. lia.
Qed.

Lemma runs_run (f : N -> bool) (t : str) : forall cur,
  cur <> [] ->
  runs f t cur
  = (cur ++ firstn (run_len f t) t) :: runs f (skipn (run_len f t) t) [].
Proof.
  induction t as [|x t IH]; intros cur Hcur; cbn [runs run_len].
  - destruct cur; [contradiction|]. cbn. rewrite app_nil_r. reflexivity.
  - destruct (f x) eqn:Hx.
    + rewrite IH by (destruct cur; discriminate).
      cbn [firstn skipn]. rewrite <- app_assoc. reflexivity.
    + cbn [firstn skipn runs]. rewrite Hx, app_nil_r.
      destruct cur; [contradiction|]. reflexivity.
Qed.

(** The scan of [\b\w+\b] lists the maximal runs of word characters. *)
Lemma findall_word_runs (s : str) :
  (forall prev,
     match prev, s with
     | Some p, c :: _ => w p = false \/ w c = false
     | _, _ => True
     end ->
     filter nonempty (findall_scan (match_at (word_re U)) 0 prev s)
     = runs w s [])
  /\ (forall prev,
        filter nonempty
          (findall_scan (match_at (word_re U)) (run_len w s) prev s)
        = runs w (skipn (run_len w s) s) []).
Proof.
  induction s as [|c t [IHB IHA]].
  - split; intros prev; intros; cbn [run_len findall_scan];
      rewrite match_at_word_first by exact I; reflexivity.
  - assert (HB : forall prev,
              match prev with Some p => w p = false \/ w c = false | None => True end ->
              filter nonempty (findall_scan (match_at (word_re U)) 0 prev (c :: t))
              = runs w (c :: t) []).
    { intros prev Hinv. cbn [findall_scan runs]. destruct (w c) eqn:Hc.
      - rewrite word_match_run; [|exact Hc|].
        + cbn [firstn filter nonempty]. rewrite IHA.
          cbn [app]. rewrite (runs_run w t [c]) by discriminate. reflexivity.
        + destruct prev as [p|]; [|exact I].
          destruct Hinv as [H | H]; [exact H | congruence].
      - rewrite match_at_word_first by exact Hc. cbn [nonempty app].
        apply IHB. destruct t; [exact I|]. left. exact Hc. }
    split; [exact HB|].
    intros prev. cbn [run_len]. destruct (w c) eqn:Hc.
    + cbn [findall_scan skipn]. apply IHA.
    + cbn [skipn]. apply HB. destruct prev; [|exact I]. right. reflexivity.
Qed.

Lemma runs_items (f : N -> bool) (s : str) : forall cur,
  forallb f cur = true ->
  Forall (fun r => r <> [] /\ forallb f r = true) (runs f s cur).
Proof.
  induction s as [|c t IH]; intros cur Hcur; cbn [runs].
  - destruct cur; cbn [nonempty]; repeat constructor; [discriminate | exact Hcur].
  - destruct (f c) eqn:Hc.
    + apply IH. rewrite forallb_app, Hcur. cbn. rewrite Hc. reflexivity.
    + apply Forall_app. split; [|apply IH; reflexivity].
      destruct cur; cbn [nonempty]; repeat constructor;
        [discriminate | exact Hcur].
Qed.

Lemma runs_concat (f : N -> bool) (s : str) : forall cur,
  forallb f cur = true ->
  List.concat (runs f s cur) = cur ++ filter f s.
Proof.
  induction s as [|c t IH]; intros cur Hcur; cbn [runs filter].
  - destruct cur; cbn; rewrite ?app_nil_r; reflexivity.
  - destruct (f c) eqn:Hc.
    + rewrite IH, <- app_assoc; [reflexivity|].
      rewrite forallb_app, Hcur. cbn. rewrite Hc. reflexivity.
    + rewrite concat_app, (IH [] eq_refl).
      destruct cur; cbn; rewrite ?app_nil_r; reflexivity.
Qed.

(** There are no more words than characters in the lower-cased text. *)
Lemma words_count (s : str) :
  len (fst (words U (init s))) <= len (str_lower U s).
Proof.
  unfold words. cbn [_words init text fst]. unfold findall, len.
  apply inj_le. apply findall_scan_count.
Qed.

(** The words of a text are the maximal runs of word characters of the
    lower-cased text, in order: each is non-empty and made of word
    characters, together they have all the word characters of the
    lower-cased text, and they are no more than its characters. *)
Theorem words_are_word_runs (s : str) :
  let ws := fst (words U (init s)) in
  ws = runs w (str_lower U s) []
  /\ Forall (fun x => x <> [] /\ forallb w x = true) ws
  /\ List.concat ws = filter w (str_lower U s)
  /\ len ws <= len (str_lower U s).
Proof.
  cbn zeta. unfold words. cbn [_words init text fst]. unfold findall.
  assert (H : filter nonempty
                (findall_scan (match_at (word_re U)) 0 None (str_lower U s))
              = runs w (str_lower U s) []).
  { apply (proj1 (findall_word_runs (str_lower U s)) None). exact I. }
  split; [exact H|]. split; [|split].
  - rewrite H. apply runs_items. reflexivity.
  - rewrite H. apply (runs_concat w _ [] eq_refl).
  - unfold len. apply inj_le. apply findall_scan_count.
Qed.

End WordFacts.

(** ** Sentences and paragraphs *)

Section SegmentFacts.
Import Re TextAnalyzer.
Local Open Scope Z_scope.

(** The comprehension [[p.strip() for p in pieces if p.strip()]]. *)
Lemma stripped_items (pieces : list str) :
  Forall (fun x => x <> [] /\ strip x = x)
    (map strip (filter (fun p => nonempty (strip p)) pieces)).
Proof.
  induction pieces as [|p ps IH]; cbn [filter map]; [constructor|].
  destruct (strip p) eqn:Hp; cbn [nonempty]; [exact IH|].
  cbn [map]. constructor; [|exact IH]. rewrite strip_idem, Hp.
  split; [discriminate | reflexivity].
Qed.

Lemma stripped_visible (pieces : list str) :
  visible (List.concat (map strip (filter (fun p => nonempty (strip p)) pieces)))
  = visible (List.concat pieces).
Proof.
  induction pieces as [|p ps IH]; cbn [filter map List.concat]; [reflexivity|].
  rewrite visible_app, <- IH, <- (visible_strip p).
  destruct (strip p) eqn:Hp; cbn [nonempty]; [reflexivity|].
  cbn [map List.concat]. rewrite visible_app, Hp. reflexivity.
Qed.

Lemma stripped_Forall (P : N -> Prop) (pieces : list str) :
  Forall (Forall P) pieces ->
  Forall (Forall P) (map strip (filter (fun p => nonempty (strip p)) pieces)).
Proof.
  induction 1 as [|p ps Hp Hps IH]; cbn [filter map]; [constructor|].
  destruct (nonempty (strip p)); [|exact IH].
  cbn [map]. constructor; [apply Forall_strip, Hp | exact IH].
Qed.

Lemma sentence_end_match (prev : option N) (s : str) (k : nat) :
  match_at sentence_end_re prev s = Some k ->
  forallb is_stop (firstn k s) = true.
Proof.
  intros H. apply (match_at_consumed is_stop sentence_end_re prev s k); [|exact H].
  cbn. auto.
Qed.

Lemma sentence_end_none (prev : option N) (c : N) (t : str) :
  match_at sentence_end_re prev (c :: t) = None -> is_stop c = false.
Proof.
  unfold sentence_end_re. rewrite match_at_plus_class. cbn [run_len].
  destruct (is_stop c); [discriminate | reflexivity].
Qed.

Lemma sentence_end_positive (prev : option N) (c : N) (t : str) :
  match_at sentence_end_re prev (c :: t) <> Some 0%nat.
Proof.
  unfold sentence_end_re. rewrite match_at_plus_class.
  destruct (run_len is_stop (c :: t)); discriminate.
Qed.

Lemma unstopped_visible (s : str) : unstopped (visible s) = visible (unstopped s).
Proof.
  unfold unstopped, visible. induction s as [|c t IH]; [reflexivity|].
  cbn [filter]. destruct (isspace c) eqn:Hs, (is_stop c) eqn:Ht;
    cbn [negb filter]; rewrite ?Hs, ?Ht; cbn [negb]; rewrite ?IH; reflexivity.
Qed.

Lemma unstopped_fix (s : str) :
  Forall (fun c => is_stop c = false) s -> unstopped s = s.
Proof.
  unfold unstopped. induction 1 as [|c t Hc Ht IH]; [reflexivity|].
  cbn [filter]. rewrite Hc, IH. reflexivity.
Qed.

Lemma Forall_concat (P : N -> Prop) (l : list str) :
  Forall (Forall P) l -> Forall P (List.concat l).
Proof.
  induction 1 as [|x l Hx Hl IH]; cbn [List.concat]; [constructor|].
  apply Forall_app. split; assumption.
Qed.

(** Every sentence is non-empty, has no white space at either end and has
    none of the terminators [.], [!], [?].  The text without its
    terminators is cut into consecutive pieces, and the sentences are, in
    order, the pieces that are not white space throughout, each stripped:
    white space inside a sentence is kept, white space around it is
    dropped.  So, white space deleted, the sentences put together are the
    text with white space and terminators deleted. *)
Theorem sentences_shape (s : str) :
  let ss := fst (sentences (init s)) in
  Forall (fun x => x <> [] /\ strip x = x
                   /\ Forall (fun c => is_stop c = false) x) ss
  /\ (exists pieces,
        List.concat pieces = unstopped s
        /\ ss = map strip (filter (fun p => nonempty (strip p)) pieces))
  /\ visible (List.concat ss) = unstopped (visible s).
Proof.
  cbn zeta. unfold sentences. cbn [_sentences init text fst]. unfold split.
  set (pieces := split_scan (match_at sentence_end_re) 0 None s []).
  assert (Hp : Forall (Forall (fun c => is_stop c = false)) pieces).
  { apply split_scan_pieces; [| |constructor].
    - intros prev c t. apply sentence_end_none.
    - intros prev c t H. destruct (sentence_end_positive prev c t H). }
  assert (Hc : List.concat pieces = unstopped s).
  { rewrite <- (unstopped_fix (List.concat pieces))
      by (apply Forall_concat, Hp).
    unfold unstopped, pieces.
    apply (split_scan_outside is_stop (match_at sentence_end_re)
             sentence_end_match s 0%nat None []). reflexivity. }
  split; [|split].
  - pose proof (stripped_items pieces) as H1.
    pose proof (stripped_Forall _ pieces Hp) as H2.
    rewrite Forall_forall in *. intros x Hx.
    destruct (H1 x Hx) as [Hne Hst]. auto.
  - exists pieces. split; [exact Hc | reflexivity].
  - rewrite stripped_visible, Hc. symmetry. apply unstopped_visible.
Qed.

Lemma Forall_not_in (P : N -> bool) (s : str) :
  forallb (fun c => negb (P c)) s = true -> Forall (fun c => P c = false) s.
Proof.
  intros H. apply Forall_forall. intros c Hc.
  rewrite forallb_forall in H. apply negb_true_iff, H, Hc.
Qed.

(** A text without terminator that is not white space throughout is one
    sentence: the stripped text. *)
Theorem sentences_without_terminator (s : str) :
  forallb (fun c => negb (is_stop c)) s = true -> strip s <> [] ->
  fst (sentences (init s)) = [strip s].
Proof.
  intros Hs Hne. unfold sentences. cbn [_sentences init text fst]. unfold split.
  rewrite (@split_scan_no_match (match_at sentence_end_re)
             (fun c => is_stop c = false) s).
  - cbn [app filter]. destruct (strip s) eqn:E; [contradiction|].
    cbn [nonempty map fst]. rewrite E. reflexivity.
  - intros prev c t Hc. apply match_at_plus_class_first. exact Hc.
  - intros prev. apply match_at_plus_class_first. exact I.
  - apply Forall_not_in, Hs.
Qed.

Lemma sentences_without_terminator_witness :
  fst (sentences (init (lit " no full stop here "))) = [lit "no full stop here"].
Proof.
  apply (sentences_without_terminator (lit " no full stop here "));
    [reflexivity | discriminate].
Defined.

Lemma paragraph_break_match (prev : option N) (s : str) (k : nat) :
  match_at paragraph_break_re prev s = Some k ->
  forallb isspace (firstn k s) = true.
Proof.
  intros H.
  apply (match_at_consumed isspace paragraph_break_re prev s k); [|exact H].
  cbn. repeat split; auto; intros c Hc; apply N.eqb_eq in Hc; subst c;
    reflexivity.
Qed.

End SegmentFacts.

(** ** Empty lines *)

Section BlankLineFacts.
Import Re TextAnalyzer.
Local Open Scope Z_scope.

Lemma blank_line_pending (w : str) (b : str) :
  forallb isspace w = true -> blank_line true (w ++ LF :: b) = true.
Proof.
  induction w as [|c w IH]; [reflexivity|]. cbn [forallb]. intros H.
  apply andb_prop in H as [Hc Hw]. cbn [app blank_line].
  destruct (is_lf c); [reflexivity|]. rewrite Hc. exact (IH Hw).
Qed.

(** Two line feeds with white space between them are found. *)
Lemma blank_line_complete (a w b : str) : forall seen,
  forallb isspace w = true ->
  blank_line seen (a ++ LF :: w ++ LF :: b) = true.
Proof.
  induction a as [|c a IH]; intros seen Hw.
  - cbn [app blank_line]. replace (is_lf LF) with true by reflexivity.
    destruct seen; [reflexivity | apply blank_line_pending, Hw].
  - cbn [app blank_line]. destruct (is_lf c);
      [destruct seen; [reflexivity | apply IH, Hw]|].
    destruct (isspace c); apply IH, Hw.
Qed.

(** What is found is two line feeds with white space between them, the
    first of which may have been read before. *)
Lemma blank_line_sound (s : str) : forall seen,
  blank_line seen s = true ->
  (seen = true /\ exists w b, s = w ++ LF :: b /\ forallb isspace w = true)
  \/ (exists a w b, s = a ++ LF :: w ++ LF :: b /\ forallb isspace w = true).
Proof.
  induction s as [|c t IH]; intros seen H; [discriminate|].
  cbn [blank_line] in H. destruct (is_lf c) eqn:Hc.
  - apply is_lf_eq in Hc. subst c. destruct seen.
    + left. split; [reflexivity|]. exists [], t. auto.
    + right. destruct (IH true H) as [[_ (w & b & -> & Hw)] | (a & w & b & -> & Hw)].
      * exists [], w, b. auto.
      * exists (LF :: a), w, b. auto.
  - destruct (isspace c) eqn:Hs.
    + destruct (IH seen H) as [[-> (w & b & -> & Hw)] | (a & w & b & -> & Hw)].
      * left. split; [reflexivity|]. exists (c :: w), b. cbn [app forallb].
        rewrite Hs, Hw. auto.
      * right. exists (c :: a), w, b. auto.
    + destruct (IH false H) as [[Hf _] | (a & w & b & -> & Hw)]; [discriminate|].
      right. exists (c :: a), w, b. auto.
Qed.

(** Where [\n\s*\n] matches, the text goes on with a line feed, white
    space and a line feed. *)
Lemma paragraph_break_form (prev : option N) (s : str) (k : nat) :
  match_at paragraph_break_re prev s = Some k ->
  exists w r, s = LF :: w ++ LF :: r /\ forallb isspace w = true.
Proof.
  unfold match_at.
  destruct (ends paragraph_break_re (prev, s)) as [|q tl] eqn:He; [discriminate|].
  intros _. assert (Hq : In q (ends paragraph_break_re (prev, s)))
    by (rewrite He; left; reflexivity).
  clear He. unfold paragraph_break_re in Hq. rewrite ends_Cat in Hq.
  apply in_flat_map in Hq as (x & Hx & Hq). rewrite ends_Class in Hx.
  destruct s as [|c t]; [contradiction|].
  destruct (is_lf c) eqn:Hc; [|contradiction]. destruct Hx as [<- | []].
  rewrite ends_Cat in Hq. apply in_flat_map in Hq as (y & Hy & Hq).
  apply (ends_consumed isspace (Star (Class isspace))) in Hy;
    [|intros c' Hc'; exact Hc'].
  destruct Hy as (w & Hw & HW & _). cbn [snd] in Hw.
  destruct y as [py [|c' t']]; cbn [ends snd] in Hq; [contradiction|].
  destruct (is_lf c') eqn:Hc'; [|contradiction].
  apply is_lf_eq in Hc, Hc'. subst c c'. cbn [snd] in Hw.
  exists w, t'. rewrite Hw. auto.
Qed.

(** And there it does match. *)
Lemma paragraph_break_complete (prev : option N) (w r : str) :
  forallb isspace w = true ->
  match_at paragraph_break_re prev (LF :: w ++ LF :: r) <> None.
Proof.
  intros Hw. unfold match_at.
  destruct (ends paragraph_break_re _) as [|q tl] eqn:He; [|discriminate].
  exfalso. unfold paragraph_break_re in He.
  rewrite ends_Cat, ends_Class in He.
  replace (is_lf LF) with true in He by reflexivity.
  cbn [flat_map] in He. rewrite app_nil_r, ends_Cat, ends_star_class in He.
  destruct (backs_app isspace w (LF :: r) (Some LF) Hw) as [tl Htl].
  rewrite Htl in He. cbn [backs] in He.
  replace (isspace LF) with true in He by reflexivity.
  rewrite !flat_map_app in He. cbn [flat_map] in He. rewrite ends_Class in He.
  replace (is_lf LF) with true in He by reflexivity.
  destruct (flat_map (ends (Class is_lf)) (backs isspace (Some LF) r));
    discriminate.
Qed.

Lemma split_scan_no_match_suffix (m : matcher) (s : str) :
  (forall a c t prev, s = a ++ c :: t -> m prev (c :: t) = None) ->
  (forall prev, m prev [] = None) ->
  forall prev cur, split_scan m 0 prev s cur = [cur ++ s].
Proof.
  intros Hs Hnil. induction s as [|c t IH]; intros prev cur; cbn [split_scan].
  - rewrite Hnil, app_nil_r. reflexivity.
  - rewrite (Hs [] c t prev eq_refl), IH, <- app_assoc; [reflexivity|].
    intros a c' t' prev' ->. apply (Hs (c :: a)). reflexivity.
Qed.

Lemma blank_line_strip (s : str) :
  blank_line false s = false -> blank_line false (strip s) = false.
Proof.
  intros H. destruct (blank_line false (strip s)) eqn:Hb; [|reflexivity].
  destruct (blank_line_sound _ _ Hb) as [[Hf _] | (a & w & b & Hs & Hw)];
    [discriminate|].
  destruct (strip_decomp s) as (x & y & Hd & _).
  rewrite <- H. rewrite Hd, Hs.
  replace (x ++ (a ++ LF :: w ++ LF :: b) ++ y)
    with ((x ++ a) ++ LF :: w ++ LF :: (b ++ y)).
  - symmetry. apply blank_line_complete, Hw.
  - rewrite <- !app_assoc. cbn [app]. rewrite <- !app_assoc. reflexivity.
Qed.

Lemma single_paragraph (s : str) :
  blank_line false s = false -> strip s <> [] ->
  fst (paragraphs (init s)) = [strip s].
Proof.
  intros Hs Hne. unfold paragraphs. cbn [_paragraphs init text fst]. unfold split.
  rewrite (split_scan_no_match_suffix (match_at paragraph_break_re) (strip s)).
  - cbn [app filter]. pose proof (strip_idem s) as E.
    destruct (strip s) as [|c t]; [contradiction|].
    rewrite E. cbn [nonempty map fst]. rewrite E. reflexivity.
  - intros a c t prev Hd.
    destruct (match_at paragraph_break_re prev (c :: t)) as [k|] eqn:Hm;
      [|reflexivity].
    destruct (paragraph_break_form _ _ _ Hm) as (w & r & Hf & Hw).
    pose proof (blank_line_strip s Hs) as Hb.
    rewrite Hd, Hf, (blank_line_complete a w r false Hw) in Hb. discriminate.
  - intros prev. apply match_at_class_first. exact I.
Qed.

(** A text without empty line that is not white space throughout is one
    paragraph: the stripped text. *)
Theorem paragraphs_without_blank_line (s : str) :
  blank_line false s = false -> strip s <> [] ->
  fst (paragraphs (init s)) = [strip s].
Proof. exact (single_paragraph s). Qed.

Lemma paragraphs_without_blank_line_witness :
  fst (paragraphs (init (lit "  first line" ++ LF :: lit "second line  ")))
  = [lit "first line" ++ LF :: lit "second line"].
Proof.
  apply (paragraphs_without_blank_line
           (lit "  first line" ++ LF :: lit "second line  "));
    [reflexivity | discriminate].
Defined.

Lemma snoc_eq_app (x y l : str) (c : N) :
  x ++ [c] = y ++ l ->
  (l = [] /\ y = x ++ [c]) \/ (exists l', l = l' ++ [c] /\ x = y ++ l').
Proof.
  intros H. destruct l as [|z l0].
  - left. rewrite app_nil_r in H. auto.
  - right. destruct (exists_last (l := z :: l0)) as (l' & d & Hl); [discriminate|].
    rewrite Hl, app_assoc in H. apply app_inj_tail in H as [H1 H2].
    subst d. exists l'. auto.
Qed.

Lemma not_pending_nil : ~ pending_lf [].
Proof. intros (a & w & H & _). destruct a; discriminate. Qed.

Lemma pending_snoc (cur : str) (c : N) :
  pending_lf (cur ++ [c]) -> c = LF \/ (isspace c = true /\ pending_lf cur).
Proof.
  intros (a & w & H & Hw). apply snoc_eq_app in H as [[H _] | (l' & Hl & Hc)];
    [discriminate|].
  destruct l' as [|z l'].
  - injection Hl as <- _. left. reflexivity.
  - injection Hl as <- ->. rewrite forallb_app in Hw.
    apply andb_prop in Hw as [Hw Hc']. cbn [forallb] in Hc'.
    rewrite andb_true_r in Hc'. right. split; [exact Hc'|].
    exists a, l'. auto.
Qed.

Lemma blank_line_snoc (cur : str) (c : N) :
  blank_line false cur = false ->
  (pending_lf cur -> c <> LF) ->
  blank_line false (cur ++ [c]) = false.
Proof.
  intros Hcur Hp. destruct (blank_line false (cur ++ [c])) eqn:Hb; [|reflexivity].
  destruct (blank_line_sound _ _ Hb) as [[Hf _] | (a & w & b & H & Hw)];
    [discriminate|].
  replace (a ++ LF :: w ++ LF :: b) with ((a ++ LF :: w) ++ LF :: b) in H
    by (rewrite <- app_assoc; reflexivity).
  apply snoc_eq_app in H as [[H _] | (l' & Hl & Hc)]; [discriminate|].
  destruct l' as [|z l'].
  - injection Hl as <- _. exfalso. apply Hp; [|reflexivity].
    exists a, w. rewrite Hc, app_nil_r. auto.
  - injection Hl as <- ->. rewrite <- Hcur, Hc, <- app_assoc. cbn [app].
    symmetry. apply blank_line_complete, Hw.
Qed.

(** The pieces between the matches of [\n\s*\n] have no empty line. *)
Lemma split_scan_blank_free (s : str) : forall k prev cur,
  (k = 0%nat -> blank_line false cur = false
                /\ (pending_lf cur -> ~ opens_blank s)) ->
  (k <> 0%nat -> cur = []) ->
  Forall (fun p => blank_line false p = false)
    (split_scan (match_at paragraph_break_re) k prev s cur).
Proof.
  induction s as [|c t IH]; intros k prev cur H0 HS.
  - destruct k as [|k]; cbn [split_scan].
    + assert (Hn : match_at paragraph_break_re prev [] = None)
        by (apply match_at_class_first; exact I).
      rewrite Hn. constructor; [apply H0; reflexivity | constructor].
    + rewrite HS by discriminate. repeat constructor.
  - assert (Hnew : forall j p, Forall (fun p => blank_line false p = false)
              (split_scan (match_at paragraph_break_re) j p t [])).
    { intros j p. apply IH; [|reflexivity]. intros _.
      split; [reflexivity|]. intros Hp. destruct (not_pending_nil Hp). }
    destruct k as [|k]; cbn [split_scan]; [|rewrite HS by discriminate; apply Hnew].
    destruct (H0 eq_refl) as [Hcur Hpend].
    destruct (match_at paragraph_break_re prev (c :: t)) as [[|j]|] eqn:Hm.
    + apply (match_at_consumed (fun _ => true)) in Hm; [|apply classes_in_top].
      cbn in Hm. lia.
    + constructor; [exact Hcur | apply Hnew].
    + apply IH; [|intros H; contradiction]. intros _. split.
      * apply blank_line_snoc; [exact Hcur|]. intros Hp ->. apply (Hpend Hp).
        exists [], t. auto.
      * intros Hp (w & r & Ht & Hw).
        apply pending_snoc in Hp as [-> | [Hc Hp]].
        -- apply (paragraph_break_complete prev w r Hw). rewrite <- Ht. exact Hm.
        -- apply (Hpend Hp). exists (c :: w), r. cbn [app forallb].
           rewrite Ht, Hc, Hw. auto.
Qed.

Lemma stripped_blank_free (pieces : list str) :
  Forall (fun p => blank_line false p = false) pieces ->
  Forall (fun p => blank_line false p = false)
    (map strip (filter (fun p => nonempty (strip p)) pieces)).
Proof.
  induction 1 as [|p ps Hp Hps IH]; cbn [filter map]; [constructor|].
  destruct (nonempty (strip p)); [|exact IH].
  cbn [map]. constructor; [apply blank_line_strip, Hp | exact IH].
Qed.



(** Every paragraph is non-empty, has no white space at either end and
    has no empty line; put together, the paragraphs have the characters of
    the text that are no white space, in order; a text that is not white
    space throughout has at least one paragraph. *)
Theorem paragraphs_shape (s : str) :
  let ps := fst (paragraphs (init s)) in
  Forall (fun x => x <> [] /\ strip x = x /\ blank_line false x = false) ps
  /\ visible (List.concat ps) = visible s
  /\ (strip s <> [] -> 1 <= len ps).
Proof.
  cbn zeta. unfold paragraphs. cbn [_paragraphs init text fst]. unfold split.
  set (pieces := split_scan (match_at paragraph_break_re) 0 None (strip s) []).
  assert (Hv : visible (List.concat
                 (map strip (filter (fun p => nonempty (strip p)) pieces)))
               = visible s).
  { rewrite stripped_visible. unfold visible, pieces.
    rewrite (split_scan_outside isspace (match_at paragraph_break_re)
               paragraph_break_match (strip s) 0%nat None []) by reflexivity.
    apply visible_strip. }
  assert (Hb : Forall (fun p => blank_line false p = false) pieces).
  { apply split_scan_blank_free; [|intros H; contradiction]. intros _.
    split; [reflexivity|]. intros Hp. destruct (not_pending_nil Hp). }
  split; [|split; [exact Hv|]].
  - pose proof (stripped_items pieces) as H1.
    pose proof (stripped_blank_free pieces Hb) as H2.
    rewrite Forall_forall in *. intros x Hx.
    destruct (H1 x Hx) as [Hne Hst]. auto.
  - intros Hne.
    destruct (map strip (filter (fun p => nonempty (strip p)) pieces)) as [|p ps].
    + exfalso. apply Hne. cbn in Hv. symmetry in Hv. apply visible_nil in Hv.
      apply (@strip_all_space s Hv).
    + unfold len. cbn [List.length]. lia.
Qed.

Lemma paragraphs_shape_witness :
  1 <= len (fst (paragraphs (init (lit "one line")))).
Proof.
  apply (paragraphs_shape (lit "one line")). discriminate.
Defined.

Lemma blank_line_skip (p rest : str) : forall seen,
  forallb (fun c => negb (is_lf c)) p = true ->
  blank_line seen (p ++ rest) = blank_line (seen && forallb isspace p) rest.
Proof.
  induction p as [|c p IH]; intros seen Hp.
  - cbn [app forallb]. rewrite andb_true_r. reflexivity.
  - cbn [forallb] in Hp. apply andb_prop in Hp as [Hc Hp].
    apply negb_true_iff in Hc. cbn [app blank_line forallb]. rewrite Hc.
    destruct (isspace c); rewrite (IH _ Hp); cbn [andb];
      [reflexivity | rewrite andb_false_r; reflexivity].
Qed.

Lemma not_blank (p : str) : strip p <> [] -> forallb isspace p = false.
Proof.
  intros H. destruct (forallb isspace p) eqn:Hp; [|reflexivity].
  destruct (H (@strip_all_space p Hp)).
Qed.

Lemma blank_line_join (ps : list str) : forall seen,
  Forall (fun p => forallb (fun c => negb (is_lf c)) p = true
                   /\ strip p <> []) ps ->
  blank_line seen (join [LF] ps) = false.
Proof.
  induction ps as [|p ps IH]; intros seen H; [reflexivity|].
  inversion H as [|p' ps' [Hlf Hne] Hps]; subst.
  destruct ps as [|q ps].
  - cbn [join]. rewrite <- (app_nil_r p), (blank_line_skip p [] seen Hlf).
    reflexivity.
  - change (join [LF] (p :: q :: ps)) with (p ++ [LF] ++ join [LF] (q :: ps)).
    rewrite (blank_line_skip p _ seen Hlf), (not_blank p Hne), andb_false_r.
    cbn [app blank_line]. replace (is_lf LF) with true by reflexivity.
    apply IH, Hps.
Qed.

(** A DOCX document whose paragraphs have no line feed and are not blank
    is extracted as a text that counts as a single paragraph: the
    paragraphs are joined by one line feed, and a paragraph of the
    statistics ends at an empty line. *)
Theorem docx_is_one_paragraph (env : environment) (f : file) (p : str)
    (ps : list str) :
  docx_paragraphs env (file_content f) = Return (p :: ps) ->
  Forall (fun x => forallb (fun c => negb (is_lf c)) x = true
                   /\ strip x <> []) (p :: ps) ->
  exists text,
    fst (FileProcessor.extract_text_from_docx env f) = Return text
    /\ text = join [LF] (p :: ps)
    /\ fst (paragraphs (init text)) = [strip text].
Proof.
  intros Hd Hps. exists (join [LF] (p :: ps)).
  unfold FileProcessor.extract_text_from_docx. rewrite Hd. unfold Return.
  split; [reflexivity|]. split; [reflexivity|].
  apply single_paragraph; [apply blank_line_join, Hps|].
  inversion Hps as [|p' ps' [Hlf Hne] _]; subst. intros Hs.
  apply strip_nil in Hs.
  assert (Hp : forallb isspace p = true).
  { destruct ps as [|q ps]; [exact Hs|].
    change (join [LF] (p :: q :: ps)) with (p ++ [LF] ++ join [LF] (q :: ps)) in Hs.
    rewrite forallb_app in Hs. apply andb_prop in Hs as [Hs _]. exact Hs. }
  rewrite (not_blank p Hne) in Hp. discriminate.
Qed.

Lemma docx_is_one_paragraph_witness :
  exists text,
    fst (FileProcessor.extract_text_from_docx
           {| ENABLE_PDF_SUPPORT := false;
              docx_paragraphs := fun _ => Return [lit "Title"; lit "Body text."];
              docx_read_to := fun bs => List.length bs;
              pdf_pages := fun _ => Return [] |} Samples.notes_txt)
    = Return text
    /\ text = join [LF] [lit "Title"; lit "Body text."]
    /\ fst (paragraphs (init text)) = [strip text].
Proof.
  apply (docx_is_one_paragraph
           {| ENABLE_PDF_SUPPORT := false;
              docx_paragraphs := fun _ => Return [lit "Title"; lit "Body text."];
              docx_read_to := fun bs => List.length bs;
              pdf_pages := fun _ => Return [] |} Samples.notes_txt
           (lit "Title") [lit "Body text."]).
  - reflexivity.
  - repeat constructor; discriminate.
Defined.

End BlankLineFacts.

(** ** The statistics as a whole *)

Section StatsFacts.
Import Re TextAnalyzer.
Local Open Scope Z_scope.

Lemma reading_time_total (n : Z) :
  0 <= n < 2 ^ 52 ->
  calculate_reading_time n
  = Return {| minutes := ceil_div n 225; seconds := 0 |}.
Proof.
  intros Hn. rewrite calculate_reading_time_eq.
  destruct (Z.eq_dec n 0) as [-> | Hn0]; [reflexivity|].
  apply (@time_estimate_exact 225 n); [lia | cbn; lia].
Qed.

Lemma speaking_time_total (n : Z) :
  0 <= n < 2 ^ 52 ->
  calculate_speaking_time n
  = Return {| minutes := ceil_div n 155; seconds := 0 |}.
Proof.
  intros Hn. rewrite calculate_speaking_time_eq.
  destruct (Z.eq_dec n 0) as [-> | Hn0]; [reflexivity|].
  apply (@time_estimate_exact 155 n); [lia | cbn; lia].
Qed.

Lemma len_nonneg (A : Type) (l : list A) : 0 <= len l.
Proof. unfold len. lia. Qed.

Lemma remove_char_length (c : N) (s : str) :
  len (remove_char c s) = len s - len (filter (N.eqb c) s).
Proof.
  unfold remove_char, len. induction s as [|x t IH]; [reflexivity|].
  cbn [filter]. rewrite (N.eqb_sym c x).
  destruct (N.eqb x c); cbn [negb List.length]; lia.
Qed.

Lemma ceil_div_mono_divisor (n a b : Z) :
  0 <= n -> 0 < a <= b -> ceil_div n b <= ceil_div n a.
Proof.
  intros Hn Hab. unfold ceil_div.
  assert (- n / a <= - n / b); [|lia].
  destruct (Z.eq_dec n 0) as [-> | Hn0]; [cbn; lia|].
  apply Z.div_le_lower_bound; [lia|].
  pose proof (Z.mul_div_le (- n) a ltac:(lia)).
  pose proof (Z.div_lt_upper_bound (- n) a 0 ltac:(lia) ltac:(lia)).
  nia.
Qed.

(** What [get_stats] returns on a text whose lower-cased form has fewer
    than [2^52] characters. *)
Lemma get_stats_returns (U : unicode_db) (s : str) :
  len (str_lower U s) < 2 ^ 52 ->
  exists st,
    fst (get_stats U (init s)) = Return st
    /\ word_count st = len (fst (words U (init s)))
    /\ sentence_count st = len (fst (sentences (init s)))
    /\ paragraph_count st = len (fst (paragraphs (init s)))
    /\ character_count st = len s
    /\ character_count_no_spaces st = len s - len (filter (N.eqb SPACE) s)
    /\ reading_time st
       = {| minutes := ceil_div (word_count st) 225; seconds := 0 |}
    /\ speaking_time st
       = {| minutes := ceil_div (word_count st) 155; seconds := 0 |}
    /\ 0 <= word_count st <= len (str_lower U s)
    /\ minutes (reading_time st) <= minutes (speaking_time st).
Proof.
  intros Hlen.
  pose proof (words_count U s) as Hw.
  set (ws := fst (words U (init s))) in *.
  assert (Hn : 0 <= len ws < 2 ^ 52) by (pose proof (len_nonneg _ ws); lia).
  destruct (keyword_density_of_words ws) as (kd & Hkd & _).
  unfold get_stats.
  assert (Hwords : words U (init s)
                   = (ws, {| text := s; _words := Some ws; _sentences := None;
                             _paragraphs := None |})) by reflexivity.
  rewrite Hwords. unfold sentences at 1. cbn [_sentences text _words _paragraphs].
  unfold paragraphs at 1. cbn [_sentences text _words _paragraphs].
  rewrite (reading_time_total _ Hn), (speaking_time_total _ Hn), Hkd.
  cbn [bind Return fst init text]. eexists. split; [reflexivity|].
  cbn [word_count sentence_count paragraph_count character_count
       character_count_no_spaces reading_time speaking_time minutes].
  repeat split; try reflexivity; try lia.
  - apply remove_char_length.
  - apply ceil_div_mono_divisor; lia.
Qed.

(** [get_stats] raises nothing on a text whose lower-cased form has fewer
    than [2^52] characters.  Its counts are the lengths of the three views
    and of the text; the count without spaces leaves out the characters
    U+0020 and no other white space; the minutes are the ceilings of the
    word count over 225 and 155, the seconds are zero, and reading takes no
    longer than speaking. *)
Theorem get_stats_total (U : unicode_db) (s : str) :
  len (str_lower U s) < 2 ^ 52 ->
  exists st,
    fst (get_stats U (init s)) = Return st
    /\ word_count st = len (fst (words U (init s)))
    /\ sentence_count st = len (fst (sentences (init s)))
    /\ paragraph_count st = len (fst (paragraphs (init s)))
    /\ character_count st = len s
    /\ character_count_no_spaces st = len s - len (filter (N.eqb SPACE) s)
    /\ reading_time st
       = {| minutes := ceil_div (word_count st) 225; seconds := 0 |}
    /\ speaking_time st
       = {| minutes := ceil_div (word_count st) 155; seconds := 0 |}
    /\ 0 <= word_count st <= len (str_lower U s)
    /\ minutes (reading_time st) <= minutes (speaking_time st).
Proof. exact (get_stats_returns U s). Qed.

Lemma get_stats_total_witness :
  exists st,
    fst (get_stats BasicLatin.db (init (lit "One two. Three!"))) = Return st
    /\ word_count st = 3 /\ sentence_count st = 2 /\ paragraph_count st = 1
    /\ character_count st = 15 /\ character_count_no_spaces st = 13.
Proof.
  destruct (get_stats_total BasicLatin.db (lit "One two. Three!"))
    as (st & H & Hw & Hs & Hp & Hc & Hn & _); [reflexivity|].
  exists st. split; [exact H|]. rewrite Hw, Hs, Hp, Hc, Hn. repeat split.
Defined.

(** [get_stats] fills the three caches and keeps the text; run again on
    the instance it leaves, it returns the same result and leaves the same
    instance.  On a new instance the caches receive the three views. *)
Theorem get_stats_cached (U : unicode_db) (self : t) :
  let first := get_stats U self in
  get_stats U (snd first) = first
  /\ text (snd first) = text self
  /\ _words (snd first) <> None
  /\ _sentences (snd first) <> None
  /\ _paragraphs (snd first) <> None
  /\ (self = init (text self) ->
      _words (snd first) = Some (fst (words U self))
      /\ _sentences (snd first) = Some (fst (sentences self))
      /\ _paragraphs (snd first) = Some (fst (paragraphs self))).
Proof.
  cbn zeta. destruct self as [s [ws|] [ss|] [ps|]];
    repeat split; try discriminate; intros H; injection H as <-;
    try discriminate.
Qed.

Lemma get_stats_cached_witness :
  _words (snd (get_stats BasicLatin.db (init (lit "a b"))))
  = Some [lit "a"; lit "b"].
Proof.
  apply (get_stats_cached BasicLatin.db (init (lit "a b"))). reflexivity.
Defined.

End StatsFacts.

(** ** What [remove_extra_spaces] returns *)

Section CleanedFacts.
Import Re TextCleaner.
Local Open Scope Z_scope.

Lemma no_pair_cons (bad : N -> N -> bool) (x y : N) (t : str) :
  no_pair bad (x :: y :: t) = negb (bad x y) && no_pair bad (y :: t).
Proof. reflexivity. Qed.

Lemma no_pair_app (bad : N -> N -> bool) (a : str) (c : N) (t : str) :
  no_pair bad (a ++ c :: t) = no_pair bad (a ++ [c]) && no_pair bad (c :: t).
Proof.
  induction a as [|x a IH]; [reflexivity|].
  destruct a as [|x' a].
  - cbn [app]. rewrite !no_pair_cons, andb_true_r. reflexivity.
  - cbn [app] in IH |- *. rewrite no_pair_cons, IH, andb_assoc.
    rewrite (no_pair_cons bad x x'). reflexivity.
Qed.

Lemma no_pair_no_lf (l : str) :
  forallb (fun c => negb (is_lf c)) l = true -> no_pair lf_by_space l = true.
Proof.
  induction l as [|x l IH]; [reflexivity|]. cbn [forallb]. intros H.
  apply andb_prop in H as [Hx Hl]. destruct l as [|y l]; [reflexivity|].
  rewrite no_pair_cons, (IH Hl), andb_true_r.
  cbn [forallb] in Hl. apply andb_prop in Hl as [Hy _].
  apply negb_true_iff in Hx, Hy. unfold lf_by_space. rewrite Hx, Hy.
  rewrite andb_false_r. reflexivity.
Qed.

Lemma gap_no_lf (y : str) :
  forallb is_gap y = true -> forallb (fun c => negb (is_lf c)) y = true.
Proof.
  induction y as [|x y IH]; [reflexivity|]. cbn [forallb]. intros H.
  apply andb_prop in H as [Hx Hy]. rewrite (gap_not_lf x Hx), (IH Hy).
  reflexivity.
Qed.

Lemma clean_tail_lf (t : str) :
  clean_tail t -> forall c, isspace c = false ->
  no_pair lf_by_space (c :: t) = true.
Proof.
  induction 1 as [|y c' t Hy Hc' Ht IH]; intros c Hc; [reflexivity|].
  change (c :: y ++ c' :: t) with ((c :: y) ++ c' :: t).
  rewrite no_pair_app, (IH c' Hc'), andb_true_r.
  pose proof (not_space_not_lf c Hc) as Hl.
  pose proof (not_space_not_lf c' Hc') as Hl'.
  destruct Hy as [-> | [Hg _]].
  - cbn [app]. rewrite !no_pair_cons. unfold lf_by_space.
    rewrite Hc, Hc', Hl, Hl'. reflexivity.
  - apply no_pair_no_lf. cbn [app forallb]. rewrite Hl. cbn [negb andb].
    rewrite forallb_app, (gap_no_lf y Hg). cbn [forallb]. rewrite Hl'.
    reflexivity.
Qed.

Lemma tidy_no_tab (s : str) :
  tidy s = true ->
  forallb (fun c => negb (N.eqb c TAB)) s = true
  /\ no_pair both_blank s = true.
Proof.
  induction s as [|c t IH]; [auto|]. cbn [tidy]. intros H.
  apply andb_prop in H as [H Ht]. apply andb_prop in H as [Hc Hb].
  destruct (IH Ht) as [IH1 IH2]. cbn [forallb]. rewrite Hc, IH1.
  split; [reflexivity|]. destruct t as [|y t]; [reflexivity|].
  rewrite no_pair_cons, IH2, andb_true_r. exact Hb.
Qed.

(** What [remove_extra_spaces] returns has no white space at either end,
    no tab, no two spaces in a row and no line feed next to white space: in
    particular no empty line. *)
Theorem remove_extra_spaces_shape (s : str) :
  let r := remove_extra_spaces s in
  strip r = r
  /\ forallb (fun c => negb (N.eqb c TAB)) r = true
  /\ no_pair both_blank r = true
  /\ no_pair lf_by_space r = true.
Proof.
  cbn zeta. pose proof (remove_extra_spaces_clean s) as Hc.
  split; [apply strip_fix, Hc|].
  destruct (tidy_no_tab _ (clean_tidy _ Hc)) as [H1 H2].
  split; [exact H1|]. split; [exact H2|].
  destruct Hc as [-> | (c & t & -> & Hc & Ht)]; [reflexivity|].
  apply clean_tail_lf; assumption.
Qed.

Lemma blanks_class : classes_in isspace blanks_re.
Proof. exact blank_space. Qed.

Lemma lf_space (c : N) : is_lf c = true -> isspace c = true.
Proof. intros H. apply N.eqb_eq in H. subst c. reflexivity. Qed.

Lemma breaks_class : classes_in isspace breaks_re.
Proof.
  unfold breaks_re. cbn [classes_in].
  repeat split; try exact lf_space; intros c Hc; exact Hc.
Qed.

Lemma trim_class : classes_in isspace trim_re.
Proof.
  unfold trim_re. cbn [classes_in]. repeat split; intros c Hc; exact Hc.
Qed.

Lemma sub_visible (r : regex) (repl s : str) :
  classes_in isspace r -> forallb isspace repl = true ->
  visible (sub r repl s) = visible s.
Proof.
  intros Hr Hrepl. unfold visible, sub.
  apply (sub_scan_outside isspace (match_at r)); [|exact Hrepl|reflexivity].
  intros prev x k H. apply (match_at_consumed isspace r prev x k Hr H).
Qed.

Lemma sub_length (r : regex) (repl s : str) :
  (List.length repl <= min_len r)%nat ->
  (List.length (sub r repl s) <= List.length s)%nat.
Proof.
  intros Hr. unfold sub.
  pose proof (sub_scan_length (match_at r) repl) as H.
  specialize (H (fun prev x k Hm =>
    let P := proj1 (match_at_consumed (fun _ => true) r prev x k
                      (classes_in_top r) Hm) in
    conj (Nat.le_trans _ _ _ Hr (proj1 P)) (proj2 P)) s 0%nat None).
  lia.
Qed.

(** [remove_extra_spaces] changes white space only: the other characters
    of the text are kept, in order, and the result is no longer than the
    text.  The result is empty exactly when the text is white space
    throughout. *)
Theorem remove_extra_spaces_visible (s : str) :
  visible (remove_extra_spaces s) = visible s
  /\ len (remove_extra_spaces s) <= len s
  /\ (remove_extra_spaces s = [] <-> forallb isspace s = true).
Proof.
  assert (Hv : visible (remove_extra_spaces s) = visible s).
  { unfold remove_extra_spaces. rewrite visible_strip.
    rewrite (sub_visible trim_re [] _ trim_class eq_refl).
    rewrite (sub_visible breaks_re [LF; LF] _ breaks_class eq_refl).
    apply (sub_visible blanks_re [SPACE] _ blanks_class eq_refl). }
  split; [exact Hv|]. split.
  - unfold remove_extra_spaces, len. apply inj_le.
    eapply Nat.le_trans; [apply strip_length|].
    eapply Nat.le_trans; [apply sub_length; cbn; lia|].
    eapply Nat.le_trans; [apply sub_length; cbn; lia|].
    apply sub_length. cbn. lia.
  - split.
    + intros H. apply visible_nil. rewrite <- Hv, H. reflexivity.
    + intros H. pose proof (remove_extra_spaces_clean s) as Hc.
      rewrite <- (strip_fix _ Hc). apply (@strip_all_space _).
      apply visible_nil. rewrite Hv. apply visible_space, H.
Qed.

Lemma remove_extra_spaces_visible_witness :
  remove_extra_spaces (lit "   ") = [].
Proof.
  apply (remove_extra_spaces_visible (lit "   ")). reflexivity.
Defined.

End CleanedFacts.

(** ** Extraction from uploaded files *)

Section ExtractFacts.
Import FileProcessor.
Local Open Scope Z_scope.

Lemma utf_8_length (n : nat) : forall bs s,
  (List.length bs <= n)%nat -> Codec.utf_8 bs = Some s ->
  (List.length s <= List.length bs)%nat.
Proof.
  induction n as [|n IH]; intros bs s Hn H.
  - destruct bs; [|cbn in Hn; lia]. cbn in H. injection H as <-. cbn. lia.
  - destruct bs as [|b0 t0]; [cbn in H; injection H as <-; cbn; lia|].
    cbn [Codec.utf_8] in H. cbn [List.length] in Hn.
    repeat match type of H with
    | (if ?b then _ else _) = _ => destruct b
    | match ?t with [] => _ | _ :: _ => _ end = _ => destruct t
    | None = Some _ => discriminate
    | option_map _ ?o = Some _ =>
        destruct o eqn:E; [|discriminate];
        cbn in H; injection H as <-;
        apply IH in E; cbn [List.length] in *; lia
    end.
Qed.

Lemma utf_8_ascii (bs : list N) :
  forallb (fun b => (b <? 128)%N) bs = true -> Codec.utf_8 bs = Some bs.
Proof.
  induction bs as [|b t IH]; [reflexivity|]. cbn [forallb]. intros H.
  apply andb_prop in H as [Hb Ht]. cbn [Codec.utf_8].
  rewrite Hb, (IH Ht). reflexivity.
Qed.

Lemma forallb_map_comp (A B : Type) (f : B -> bool) (g : A -> B) (l : list A) :
  forallb f (map g l) = forallb (fun x => f (g x)) l.
Proof.
  induction l as [|x l IH]; [reflexivity|]. cbn [map forallb].
  rewrite IH. reflexivity.
Qed.

Lemma skipn_length_le (A : Type) (n : nat) (l : list A) :
  (List.length (skipn n l) <= List.length l)%nat.
Proof. rewrite length_skipn. lia. Qed.

(** What [extract_text_from_txt] returns has no more characters than the
    file has bytes.  When the bytes read are no UTF-8, it is the whole
    file, one character per byte with the number of the byte, wherever the
    read position was; bytes below 128 are returned as they are. *)
Theorem extract_text_from_txt_cases (f : file) :
  exists text,
    fst (extract_text_from_txt f) = Return text
    /\ len text <= len (file_content f)
    /\ (Codec.utf_8 (map Byte.to_N (unread f)) = None ->
        text = map Byte.to_N (file_content f))
    /\ (forallb (fun b => (Byte.to_N b <? 128)%N) (unread f) = true ->
        text = map Byte.to_N (unread f)).
Proof.
  unfold extract_text_from_txt, file_read, file_seek, unread.
  cbn [file_pos file_content file_name file_size skipn].
  destruct (Codec.utf_8 (map Byte.to_N (skipn (file_pos f) (file_content f))))
    as [text|] eqn:Hd.
  - exists text. split; [reflexivity|]. split; [|split].
    + apply utf_8_length with (n := List.length (file_content f)) in Hd.
      * rewrite length_map in Hd. pose proof (skipn_length_le _ (file_pos f) (file_content f)).
        unfold len. lia.
      * rewrite length_map. apply skipn_length_le.
    + discriminate.
    + intros Ha. rewrite utf_8_ascii in Hd.
      * injection Hd as <-. reflexivity.
      * rewrite forallb_map_comp. exact Ha.
  - rewrite (@decode_latin_1 (file_content f)).
    exists (map Byte.to_N (file_content f)). split; [reflexivity|].
    split; [unfold len; rewrite length_map; lia|]. split; [reflexivity|].
    intros Ha. rewrite utf_8_ascii in Hd; [discriminate|].
    rewrite forallb_map_comp. exact Ha.
Qed.

Lemma extract_text_from_txt_cases_witness :
  fst (extract_text_from_txt
         {| file_name := lit "cafe.txt"; file_size := 4;
            file_content := [x63; x61; x66; xe9]%byte; file_pos := 2 |})
  = Return [99; 97; 102; 233]%N.
Proof.
  destruct (extract_text_from_txt_cases
              {| file_name := lit "cafe.txt"; file_size := 4;
                 file_content := [x63; x61; x66; xe9]%byte; file_pos := 2 |})
    as (text & H & _ & Hl & _).
  rewrite H, (Hl eq_refl). reflexivity.
Defined.

(** The extractors raise nothing but [ValueError]. *)
Lemma docx_failure (env : environment) (f : file) (e : exn) :
  fst (extract_text_from_docx env f) = inl e -> exn_kind e = ValueError.
Proof.
  unfold extract_text_from_docx. cbv zeta.
  destruct (docx_paragraphs env (file_content f)) as [cause|text];
    cbn [fst]; intros H; [|discriminate].
  injection H as <-. reflexivity.
Qed.

Lemma pdf_failure (env : environment) (f : file) (e : exn) :
  fst (extract_text_from_pdf env f) = inl e -> exn_kind e = ValueError.
Proof.
  unfold extract_text_from_pdf.
  destruct (ENABLE_PDF_SUPPORT env); cbn [negb file_read fst].
  - destruct (pdf_pages env (skipn (file_pos f) (file_content f)))
      as [cause|text]; cbn [fst]; intros H; [|discriminate].
    injection H as <-. reflexivity.
  - intros H. injection H as <-. reflexivity.
Qed.

Lemma txt_returns (f : file) :
  exists text, fst (extract_text_from_txt f) = Return text.
Proof.
  unfold extract_text_from_txt, file_read, file_seek.
  cbn [file_pos file_content file_name file_size skipn].
  destruct (Codec.utf_8 (map Byte.to_N (skipn (file_pos f) (file_content f))));
    [eexists; reflexivity|].
  rewrite (@decode_latin_1 (file_content f)). eexists. reflexivity.
Qed.

(** When the document parser raises, whatever it raises, the extractor
    raises a [ValueError] whose message is the name of the format followed
    by the message of the parser; without PDF support the PDF extractor
    raises a [ValueError] and leaves the file unread; and an extractor
    raises nothing but [ValueError]. *)
Theorem extractors_raise_value_error (env : environment) (f : file) :
  (forall cause, docx_paragraphs env (file_content f) = inl cause ->
     fst (extract_text_from_docx env f)
     = Raise ValueError ("Error processing DOCX file: " ++ exn_msg cause))
  /\ (ENABLE_PDF_SUPPORT env = false ->
      extract_text_from_pdf env f
      = (Raise ValueError "PDF support is not enabled", f))
  /\ (ENABLE_PDF_SUPPORT env = true ->
      forall cause, pdf_pages env (unread f) = inl cause ->
        fst (extract_text_from_pdf env f)
        = Raise ValueError ("Error processing PDF file: " ++ exn_msg cause))
  /\ (forall e,
        fst (extract_text_from_docx env f) = inl e
        \/ fst (extract_text_from_pdf env f) = inl e ->
        exn_kind e = ValueError).
Proof.
  split; [|split; [|split]].
  - intros cause H. unfold extract_text_from_docx. rewrite H. reflexivity.
  - intros H. unfold extract_text_from_pdf. rewrite H. reflexivity.
  - intros Hpdf cause H. unfold extract_text_from_pdf, unread in *.
    rewrite Hpdf. cbn [negb file_read]. rewrite H. reflexivity.
  - intros e [H | H]; [exact (docx_failure env f e H) | exact (pdf_failure env f e H)].
Qed.

Lemma extractors_raise_value_error_witness :
  fst (extract_text_from_docx Samples.plain_env Samples.notes_txt)
  = Raise ValueError "Error processing DOCX file: File is not a zip file".
Proof.
  apply (proj1 (extractors_raise_value_error Samples.plain_env
                  Samples.notes_txt)
           {| exn_kind := ValueError; exn_msg := "File is not a zip file" |}).
  reflexivity.
Defined.

End ExtractFacts.

(** ** The two endpoints *)

Section EndpointFacts.
Import Views FileProcessor.
Local Open Scope Z_scope.

Lemma after_last_dot_no_dot (s : str) :
  has_dot s = false -> after_last_dot s = s.
Proof.
  unfold has_dot. induction s as [|c t IH]; [reflexivity|].
  cbn [existsb after_last_dot]. intros H. apply orb_false_iff in H as [Hc Ht].
  fold DOT. rewrite Ht, (N.eqb_sym c DOT), Hc. reflexivity.
Qed.

Lemma after_last_dot_app (stem ext : str) :
  has_dot ext = false -> after_last_dot (stem ++ DOT :: ext) = ext.
Proof.
  unfold has_dot. intros He. induction stem as [|c stem IH].
  - cbn [app after_last_dot]. fold DOT. rewrite He. reflexivity.
  - cbn [app after_last_dot]. fold DOT.
    rewrite existsb_app. cbn [existsb]. rewrite N.eqb_refl, orb_true_r.
    exact IH.
Qed.

Lemma after_last_dot_spec (s : str) :
  has_dot (after_last_dot s) = false
  /\ (has_dot s = true -> exists stem, s = stem ++ DOT :: after_last_dot s).
Proof.
  unfold has_dot. induction s as [|c t [IH1 IH2]]; [split; [reflexivity | discriminate]|].
  cbn [after_last_dot]. fold DOT.
  destruct (existsb (N.eqb DOT) t) eqn:Ht.
  - split; [exact IH1|]. intros _. destruct (IH2 eq_refl) as [stem Hs].
    exists (c :: stem). cbn [app]. rewrite <- Hs. reflexivity.
  - destruct (N.eqb c DOT) eqn:Hc.
    + split; [exact Ht|]. intros _. exists []. apply N.eqb_eq in Hc. subst c.
      reflexivity.
    + split.
      * cbn [existsb]. rewrite (N.eqb_sym DOT c), Hc, Ht. reflexivity.
      * cbn [existsb]. rewrite (N.eqb_sym DOT c), Hc, Ht. discriminate.
Qed.

Lemma str_eqb_false (a b : str) : a <> b -> str_eqb a b = false.
Proof.
  intros H. unfold str_eqb.
  destruct (list_eq_dec N.eq_dec a b); [contradiction | reflexivity].
Qed.

(** A POST that the limiter has counted fewer than ten times this minute
    reaches the view; from the eleventh on it is refused; a request that is
    no POST is turned away and not counted. *)
Lemma endpoint_within_limit (env : environment) (U : unicode_db) (count : Z)
    (upload : option file) :
  count < RATE_LIMIT ->
  process_file_endpoint env U POST count upload
  = (Json (process_file_api env U upload), count + 1).
Proof.
  intros H. unfold process_file_endpoint. cbv zeta.
  replace (RATE_LIMIT <? count + 1) with false
    by (symmetry; apply Z.ltb_ge; lia).
  reflexivity.
Qed.

Lemma endpoint_over_limit (env : environment) (U : unicode_db) (count : Z)
    (upload : option file) :
  RATE_LIMIT <= count ->
  process_file_endpoint env U POST count upload = (Forbidden, count + 1).
Proof.
  intros H. unfold process_file_endpoint. cbv zeta.
  replace (RATE_LIMIT <? count + 1) with true
    by (symmetry; apply Z.ltb_lt; lia).
  reflexivity.
Qed.

Lemma endpoint_not_post (env : environment) (U : unicode_db) (count : Z)
    (upload : option file) :
  process_file_endpoint env U GET count upload = (MethodNotAllowed, count).
Proof. reflexivity. Qed.

Lemma unsupported_extension (env : environment) (U : unicode_db) (f : file) :
  file_size f <= 5 * 1024 * 1024 ->
  file_extension U f <> lit "txt" -> file_extension U f <> lit "docx" ->
  file_extension U f <> lit "pdf" ->
  process_file_api env U (Some f)
  = JsonError 400 "Unsupported file type. Use TXT, DOCX, or PDF".
Proof.
  unfold file_extension. intros Hsize Ht Hd Hp. unfold process_file_api.
  replace (5 * 1024 * 1024 <? file_size f) with false
    by (symmetry; apply Z.ltb_ge; exact Hsize).
  rewrite (str_eqb_false _ _ Ht), (str_eqb_false _ _ Hd), (str_eqb_false _ _ Hp).
  reflexivity.
Qed.

(** The extension of an upload is what follows the last full stop of its
    lower-cased name, and the whole lower-cased name when that has no full
    stop.  An upload of at most 5 MB that the limiter lets through (a POST
    counted fewer than ten times this minute) and whose extension is none
    of [txt], [docx], [pdf] is answered 400, whatever it holds. *)
Theorem file_extension_dispatch (env : environment) (U : unicode_db) (f : file)
    (count : Z) :
  let name := str_lower U (file_name f) in
  let ext := file_extension U f in
  has_dot ext = false
  /\ (has_dot name = false -> ext = name)
  /\ (has_dot name = true -> exists stem, name = stem ++ DOT :: ext)
  /\ (count < RATE_LIMIT -> file_size f <= 5 * 1024 * 1024 ->
      ext <> lit "txt" -> ext <> lit "docx" -> ext <> lit "pdf" ->
      fst (process_file_endpoint env U POST count (Some f))
      = Json (JsonError 400 "Unsupported file type. Use TXT, DOCX, or PDF")).
Proof.
  cbn zeta.
  destruct (after_last_dot_spec (str_lower U (file_name f))) as [H1 H2].
  split; [exact H1|]. split; [apply after_last_dot_no_dot|]. split; [exact H2|].
  intros Hc Hsize Ht Hd Hp. rewrite (endpoint_within_limit env U count _ Hc).
  cbn [fst]. f_equal. apply unsupported_extension; assumption.
Qed.

Lemma file_extension_dispatch_witness :
  fst (process_file_endpoint Samples.plain_env BasicLatin.db POST 9
         (Some {| file_name := lit "README"; file_size := 3;
                  file_content := [x61; x62; x63]%byte; file_pos := 0 |}))
  = Json (JsonError 400 "Unsupported file type. Use TXT, DOCX, or PDF").
Proof.
  apply (file_extension_dispatch Samples.plain_env BasicLatin.db
           {| file_name := lit "README"; file_size := 3;
              file_content := [x61; x62; x63]%byte; file_pos := 0 |} 9);
    [reflexivity | discriminate | discriminate | discriminate | discriminate].
Defined.

Lemma pdf_disabled_answer (env : environment) (U : unicode_db)
    (f : file) (stem : str) :
  ENABLE_PDF_SUPPORT env = false ->
  file_size f <= 5 * 1024 * 1024 ->
  str_lower U (file_name f) = stem ++ DOT :: lit "pdf" ->
  process_file_api env U (Some f) = JsonError 400 "PDF support is not enabled".
Proof.
  intros Hpdf Hsize Hname. unfold process_file_api.
  replace (5 * 1024 * 1024 <? file_size f) with false
    by (symmetry; apply Z.ltb_ge; exact Hsize).
  rewrite Hname, (after_last_dot_app stem (lit "pdf") eq_refl).
  cbv beta iota zeta.
  replace (str_eqb (lit "pdf") (lit "txt")) with false by reflexivity.
  replace (str_eqb (lit "pdf") (lit "docx")) with false by reflexivity.
  replace (str_eqb (lit "pdf") (lit "pdf")) with true by reflexivity.
  unfold extract_text_from_pdf. rewrite Hpdf. reflexivity.
Qed.

(** Without PDF support every upload of at most 5 MB that the limiter
    lets through and whose lower-cased name ends in [.pdf] is answered 400
    with the message of the extractor. *)
Theorem process_file_pdf_disabled (env : environment) (U : unicode_db)
    (f : file) (stem : str) (count : Z) :
  count < RATE_LIMIT ->
  ENABLE_PDF_SUPPORT env = false ->
  file_size f <= 5 * 1024 * 1024 ->
  str_lower U (file_name f) = stem ++ DOT :: lit "pdf" ->
  fst (process_file_endpoint env U POST count (Some f))
  = Json (JsonError 400 "PDF support is not enabled").
Proof.
  intros Hc Hpdf Hsize Hname. rewrite (endpoint_within_limit env U count _ Hc).
  cbn [fst]. f_equal. apply (pdf_disabled_answer env U f stem); assumption.
Qed.

Lemma process_file_pdf_disabled_witness :
  fst (process_file_endpoint Samples.plain_env BasicLatin.db POST 0
         (Some {| file_name := lit "Thesis.PDF"; file_size := 3;
                  file_content := [x61; x62; x63]%byte; file_pos := 0 |}))
  = Json (JsonError 400 "PDF support is not enabled").
Proof.
  apply (process_file_pdf_disabled Samples.plain_env BasicLatin.db
           {| file_name := lit "Thesis.PDF"; file_size := 3;
              file_content := [x61; x62; x63]%byte; file_pos := 0 |}
           (lit "thesis") 0);
    [reflexivity | reflexivity | discriminate | reflexivity].
Defined.

Lemma txt_answer (env : environment) (U : unicode_db) (f : file)
    (stem : str) :
  file_size f <= 5 * 1024 * 1024 ->
  str_lower U (file_name f) = stem ++ DOT :: lit "txt" ->
  exists text,
    fst (extract_text_from_txt f) = Return text
    /\ (strip text = [] ->
        process_file_api env U (Some f) = JsonError 400 "No text found in file")
    /\ (strip text <> [] -> len (str_lower U text) < 2 ^ 52 ->
        exists st,
          analyze U text = Return st
          /\ process_file_api env U (Some f)
             = FileSuccess (firstn 10000 text) st (file_name f)).
Proof.
  intros Hsize Hname.
  destruct (txt_returns f) as (text & Htext).
  exists text. split; [exact Htext|].
  unfold process_file_api.
  replace (5 * 1024 * 1024 <? file_size f) with false
    by (symmetry; apply Z.ltb_ge; exact Hsize).
  rewrite Hname, (after_last_dot_app stem (lit "txt") eq_refl).
  cbv beta iota zeta.
  replace (str_eqb (lit "txt") (lit "txt")) with true by reflexivity.
  rewrite Htext. unfold Return. split.
  - intros ->. reflexivity.
  - intros Hne Hlen. destruct (strip text) eqn:Hs; [contradiction|].
    cbn [TextAnalyzer.nonempty negb].
    destruct (get_stats_returns U text Hlen) as (st & Hst & _).
    exists st. unfold analyze. rewrite Hst. split; reflexivity.
Qed.

(** An upload of at most 5 MB that the limiter lets through and whose
    lower-cased name ends in [.txt] is never answered with an extraction
    error: when the decoded text is white space throughout the answer is
    400, no text found; otherwise the answer is the success with the first
    10,000 characters, the statistics of the whole text and the name as
    uploaded. *)
Theorem process_file_txt (env : environment) (U : unicode_db) (f : file)
    (stem : str) (count : Z) :
  count < RATE_LIMIT ->
  file_size f <= 5 * 1024 * 1024 ->
  str_lower U (file_name f) = stem ++ DOT :: lit "txt" ->
  exists text,
    fst (extract_text_from_txt f) = Return text
    /\ (strip text = [] ->
        fst (process_file_endpoint env U POST count (Some f))
        = Json (JsonError 400 "No text found in file"))
    /\ (strip text <> [] -> len (str_lower U text) < 2 ^ 52 ->
        exists st,
          analyze U text = Return st
          /\ fst (process_file_endpoint env U POST count (Some f))
             = Json (FileSuccess (firstn 10000 text) st (file_name f))).
Proof.
  intros Hc Hsize Hname. rewrite (endpoint_within_limit env U count _ Hc).
  cbn [fst].
  destruct (txt_answer env U f stem Hsize Hname) as (text & Ht & Hb & Hs).
  exists text. split; [exact Ht|]. split.
  - intros H. rewrite (Hb H). reflexivity.
  - intros Hne Hlen. destruct (Hs Hne Hlen) as (st & Ha & Hr).
    exists st. rewrite Hr. split; [exact Ha | reflexivity].
Qed.

Lemma process_file_txt_witness :
  exists st,
    analyze BasicLatin.db (lit "hello world") = Return st
    /\ fst (process_file_endpoint Samples.plain_env BasicLatin.db POST 0
              (Some Samples.notes_txt))
       = Json (FileSuccess (firstn 10000 (lit "hello world")) st
                 (lit "notes.txt")).
Proof.
  destruct (process_file_txt Samples.plain_env BasicLatin.db Samples.notes_txt
              (lit "notes") 0) as (text & Ht & _ & H);
    [reflexivity | discriminate | reflexivity |].
  apply Return_inj in Ht. subst text. apply H; [discriminate | reflexivity].
Defined.

(** [process_file_api] answers 500 for no upload whose extracted text has
    fewer than [2^52] characters in lower case: a failure of an extractor
    is a [ValueError], answered 400. *)
Theorem process_file_no_server_error (env : environment) (U : unicode_db)
    (f : file) (msg : string) :
  (forall text,
     fst (extract_text_from_txt f) = Return text
     \/ fst (extract_text_from_docx env f) = Return text
     \/ fst (extract_text_from_pdf env f) = Return text ->
     len (str_lower U text) < 2 ^ 52) ->
  process_file_api env U (Some f) <> JsonError 500 msg.
Proof.
  intros Hlen. unfold process_file_api.
  destruct (5 * 1024 * 1024 <? file_size f); [discriminate|].
  assert (Hok : forall r : result str,
    (forall text, r = Return text -> len (str_lower U text) < 2 ^ 52) ->
    (forall e, r = inl e -> exn_kind e = ValueError) ->
    match r with
    | inl e =>
        match exn_kind e with
        | ValueError => JsonError 400 (exn_msg e)
        | _ => JsonError 500 "File processing failed"
        end
    | inr text =>
        if negb (TextAnalyzer.nonempty (strip text))
        then JsonError 400 "No text found in file"
        else
          match analyze U text with
          | inr stats => FileSuccess (firstn 10000 text) stats (file_name f)
          | inl e =>
              match exn_kind e with
              | ValueError => JsonError 400 (exn_msg e)
              | _ => JsonError 500 "File processing failed"
              end
          end
    end <> JsonError 500 msg).
  { intros [e|text] Ht He.
    - rewrite (He e eq_refl). discriminate.
    - destruct (negb (TextAnalyzer.nonempty (strip text))); [discriminate|].
      destruct (get_stats_returns U text (Ht text eq_refl)) as (st & Hst & _).
      unfold analyze. rewrite Hst. discriminate. }
  destruct (str_eqb _ (lit "txt")).
  { apply Hok; [intros text H; apply Hlen; auto|].
    intros e H. destruct (txt_returns f) as (text & Ht).
    rewrite Ht in H. discriminate. }
  destruct (str_eqb _ (lit "docx")).
  { apply Hok; [intros text H; apply Hlen; auto|].
    intros e H. exact (docx_failure env f e H). }
  destruct (str_eqb _ (lit "pdf")); [|discriminate].
  apply Hok; [intros text H; apply Hlen; auto|].
  intros e H. exact (pdf_failure env f e H).
Qed.

Lemma process_file_no_server_error_witness :
  process_file_api Samples.plain_env BasicLatin.db (Some Samples.notes_txt)
  <> JsonError 500 "File processing failed".
Proof.
  apply (process_file_no_server_error Samples.plain_env BasicLatin.db
           Samples.notes_txt "File processing failed").
  intros text [H | [H | H]]; [|discriminate H|discriminate H].
  apply Return_inj in H. subst text. reflexivity.
Defined.



End EndpointFacts.

(** ** Sentence case *)

Section SentenceFacts.
Import Re.
Local Open Scope Z_scope.

Variable U : unicode_db.

Local Abbreviation m := (match_at sentence_split_re).

Lemma join_nil_cons (p : str) (rest : list str) :
  join [] (p :: rest) = p ++ join [] rest.
Proof.
  destruct rest as [|q rest]; cbn [join app]; [rewrite app_nil_r|]; reflexivity.
Qed.

Lemma sentence_case_run (t : str) :
  sentence_case U t []
  = firstn (run_len is_stop t) t
    ++ sentence_case U (skipn (run_len is_stop t) t) [].
Proof.
  induction t as [|c t IH]; [reflexivity|]. cbn [run_len].
  destruct (is_stop c) eqn:Hc; [|reflexivity].
  cbn [firstn skipn app]. rewrite <- IH. cbn [sentence_case]. rewrite Hc.
  reflexivity.
Qed.

Lemma to_sentence_parts_even (i : nat) (part : str) (rest : list str) :
  Nat.even i = true ->
  to_sentence_parts U i (part :: rest)
  = sentence_piece U part :: to_sentence_parts U (S i) rest.
Proof. intros H. cbn [to_sentence_parts]. rewrite H. reflexivity. Qed.

Lemma to_sentence_parts_odd (i : nat) (part : str) (rest : list str) :
  Nat.even i = true ->
  to_sentence_parts U (S i) (part :: rest)
  = part :: to_sentence_parts U (S (S i)) rest.
Proof.
  intros H. cbn [to_sentence_parts].
  replace (Nat.even (S i)) with false; [reflexivity|].
  rewrite Nat.even_succ, <- Nat.negb_even, H. reflexivity.
Qed.

(** The loop over the split text, and the text read from left to right. *)
Lemma split_group_sentence_case (s : str) :
  (forall i prev cur, Nat.even i = true ->
     join [] (to_sentence_parts U i (split_group_scan m 0 prev s cur))
     = sentence_case U s cur)
  /\ (forall i prev, Nat.even i = true ->
        join [] (to_sentence_parts U i
                   (split_group_scan m (run_len is_stop s) prev s []))
        = sentence_case U (skipn (run_len is_stop s) s) []).
Proof.
  unfold sentence_split_re. induction s as [|c t [IHB IHA]].
  - assert (H : forall i prev cur, Nat.even i = true ->
              join [] (to_sentence_parts U i
                         (split_group_scan (match_at (Plus (Class is_stop)))
                            0 prev [] cur))
              = sentence_case U [] cur).
    { intros i prev cur Hi. cbn [split_group_scan].
      rewrite match_at_plus_class. cbn [run_len].
      rewrite (to_sentence_parts_even i cur [] Hi). reflexivity. }
    split; [exact H|]. intros i prev Hi. apply H, Hi.
  - assert (HB : forall i prev cur, Nat.even i = true ->
              join [] (to_sentence_parts U i
                         (split_group_scan (match_at (Plus (Class is_stop)))
                            0 prev (c :: t) cur))
              = sentence_case U (c :: t) cur).
    { intros i prev cur Hi. cbn [split_group_scan sentence_case].
      rewrite match_at_plus_class. cbn [run_len].
      destruct (is_stop c) eqn:Hc; cbv beta iota.
      - rewrite (to_sentence_parts_even i _ _ Hi).
        rewrite (to_sentence_parts_odd i _ _ Hi).
        rewrite !join_nil_cons.
        rewrite (IHA (S (S i)) (Some c)) by exact Hi.
        cbn [firstn app]. rewrite (sentence_case_run t). reflexivity.
      - apply IHB, Hi. }
    split; [exact HB|]. intros i prev Hi. cbn [run_len].
    destruct (is_stop c) eqn:Hc.
    + cbn [split_group_scan skipn]. apply IHA, Hi.
    + cbn [skipn]. apply HB, Hi.
Qed.

Lemma sentence_case_no_stop (s : str) : forall cur,
  forallb (fun c => negb (is_stop c)) s = true ->
  sentence_case U s cur = sentence_piece U (cur ++ s).
Proof.
  induction s as [|c t IH]; intros cur Hs; cbn [sentence_case].
  - rewrite app_nil_r. reflexivity.
  - cbn [forallb] in Hs. apply andb_prop in Hs as [Hc Ht].
    apply negb_true_iff in Hc. rewrite Hc, (IH _ Ht), <- app_assoc.
    reflexivity.
Qed.

Lemma to_sentence_sentence_case (s : str) :
  to_sentence U s = sentence_case U s [].
Proof.
  unfold to_sentence. destruct s as [|c t]; [reflexivity|].
  cbn [TextAnalyzer.nonempty negb]. unfold split_group.
  apply (proj1 (split_group_sentence_case (c :: t)) 0%nat None []).
  reflexivity.
Qed.

(** [to_sentence] reads the text from left to right: each stretch between
    terminators is stripped and written with its first character in upper
    case and the others in lower case, and the terminators are copied.  A
    text without terminator is one such stretch. *)
Theorem to_sentence_closed_form (s : str) :
  to_sentence U s = sentence_case U s []
  /\ (forallb (fun c => negb (is_stop c)) s = true ->
      to_sentence U s = sentence_piece U s).
Proof.
  pose proof (to_sentence_sentence_case s) as H.
  split; [exact H|]. intros Hs. rewrite H.
  apply (sentence_case_no_stop s [] Hs).
Qed.

End SentenceFacts.

Lemma to_sentence_closed_form_witness :
  to_sentence BasicLatin.db (lit "  hello World ") = lit "Hello world".
Proof.
  rewrite (proj2 (to_sentence_closed_form BasicLatin.db (lit "  hello World ")));
    reflexivity.
Defined.

(** ** Sentence case of ASCII text *)

Section AsciiCaseFacts.
Import Re.
Local Open Scope Z_scope.

Lemma letter_not_space (x : N) : (65 <= x <= 122)%N -> isspace x = false.
Proof.
  intros Hx. destruct (isspace x) eqn:H; [|reflexivity].
  apply isspace_cases in H. cbn in H.
  repeat (destruct H as [<- | H]; [lia|]). contradiction.
Qed.

Lemma letter_not_stop (x : N) : (65 <= x <= 122)%N -> is_stop x = false.
Proof.
  intros Hx. unfold is_stop.
  destruct (N.eqb_spec x 46), (N.eqb_spec x 33), (N.eqb_spec x 63);
    try reflexivity; lia.
Qed.

Lemma ascii_upper_cases (c : N) :
  ascii_upper c = c \/ ((65 <= ascii_upper c <= 122)%N /\ (65 <= c <= 122)%N).
Proof.
  unfold ascii_upper.
  destruct (N.leb_spec 97 c), (N.leb_spec c 122); cbn [andb]; auto.
  right. lia.
Qed.

Lemma ascii_lower_cases (c : N) :
  ascii_lower c = c \/ ((65 <= ascii_lower c <= 122)%N /\ (65 <= c <= 122)%N).
Proof.
  unfold ascii_lower.
  destruct (N.leb_spec 65 c), (N.leb_spec c 90); cbn [andb]; auto.
  right. lia.
Qed.

Lemma ascii_upper_space (c : N) : isspace (ascii_upper c) = isspace c.
Proof.
  destruct (ascii_upper_cases c) as [-> | [H1 H2]]; [reflexivity|].
  rewrite !letter_not_space by assumption. reflexivity.
Qed.

Lemma ascii_lower_space (c : N) : isspace (ascii_lower c) = isspace c.
Proof.
  destruct (ascii_lower_cases c) as [-> | [H1 H2]]; [reflexivity|].
  rewrite !letter_not_space by assumption. reflexivity.
Qed.

Lemma ascii_upper_stop (c : N) : is_stop (ascii_upper c) = is_stop c.
Proof.
  destruct (ascii_upper_cases c) as [-> | [H1 H2]]; [reflexivity|].
  rewrite !letter_not_stop by assumption. reflexivity.
Qed.

Lemma ascii_lower_stop (c : N) : is_stop (ascii_lower c) = is_stop c.
Proof.
  destruct (ascii_lower_cases c) as [-> | [H1 H2]]; [reflexivity|].
  rewrite !letter_not_stop by assumption. reflexivity.
Qed.

Lemma ascii_upper_ascii (c : N) : is_ascii c = true -> is_ascii (ascii_upper c) = true.
Proof.
  unfold is_ascii, ascii_upper. intros H. apply N.ltb_lt in H. apply N.ltb_lt.
  destruct (N.leb_spec 97 c), (N.leb_spec c 122); cbn [andb]; lia.
Qed.

Lemma ascii_lower_ascii (c : N) : is_ascii c = true -> is_ascii (ascii_lower c) = true.
Proof.
  unfold is_ascii, ascii_lower. intros H. apply N.ltb_lt in H. apply N.ltb_lt.
  destruct (N.leb_spec 65 c), (N.leb_spec c 90); cbn [andb]; lia.
Qed.

Lemma ascii_upper_idem (c : N) : ascii_upper (ascii_upper c) = ascii_upper c.
Proof.
  unfold ascii_upper.
  destruct (N.leb_spec 97 c), (N.leb_spec c 122); cbn [andb];
    repeat match goal with
           | |- context [N.leb ?a ?b] => destruct (N.leb_spec a b)
           end; cbn [andb]; lia.
Qed.

Lemma ascii_lower_idem (c : N) : ascii_lower (ascii_lower c) = ascii_lower c.
Proof.
  unfold ascii_lower.
  destruct (N.leb_spec 65 c), (N.leb_spec c 90); cbn [andb];
    repeat match goal with
           | |- context [N.leb ?a ?b] => destruct (N.leb_spec a b)
           end; cbn [andb]; lia.
Qed.

Lemma ascii_lower_upper (c : N) : ascii_lower (ascii_upper c) = ascii_lower c.
Proof.
  unfold ascii_upper, ascii_lower.
  destruct (N.leb_spec 97 c), (N.leb_spec c 122); cbn [andb];
    repeat match goal with
           | |- context [N.leb ?a ?b] => destruct (N.leb_spec a b)
           end; cbn [andb]; lia.
Qed.

(** *** Texts without white space at the ends *)

Lemma last_visible_cons (c x : N) (t : str) :
  last_visible (c :: x :: t) = last_visible (x :: t).
Proof. reflexivity. Qed.

Lemma rstrip_cons (c : N) (t : str) :
  rstrip (c :: t)
  = match rstrip t with
    | [] => if isspace c then [] else [c]
    | x :: t' => c :: x :: t'
    end.
Proof. reflexivity. Qed.

Lemma rstrip_last_visible (p : str) : rstrip p = p <-> last_visible p = true.
Proof.
  induction p as [|c t IH]; [split; reflexivity|].
  destruct t as [|x t].
  - cbn [rstrip last_visible]. destruct (isspace c); cbn [negb];
      split; intros H; try reflexivity; discriminate.
  - rewrite last_visible_cons, <- IH, (rstrip_cons c (x :: t)).
    destruct (rstrip (x :: t)) as [|y t'].
    + split; [|discriminate].
      destruct (isspace c); intros H; discriminate.
    + split; intros H; [injection H as H1 H2; rewrite H1, H2; reflexivity|].
      rewrite H. reflexivity.
Qed.

Lemma lstrip_head_visible (p : str) : head_visible p = true -> lstrip p = p.
Proof.
  destruct p as [|c t]; [reflexivity|]. cbn [head_visible]. intros H.
  apply negb_true_iff in H. unfold lstrip. cbn [dropwhile]. rewrite H.
  reflexivity.
Qed.

Lemma strip_fix_visible (p : str) :
  strip p = p <-> head_visible p = true /\ last_visible p = true.
Proof.
  split.
  - intros H. split.
    + pose proof (strip_head p) as Hh. rewrite H in Hh.
      destruct p; [reflexivity|]. cbn [head_visible]. rewrite Hh. reflexivity.
    + apply rstrip_last_visible. rewrite <- H at 1. unfold strip.
      rewrite rstrip_idem. exact H.
  - intros [Hh Hl]. unfold strip. rewrite (lstrip_head_visible p Hh).
    apply rstrip_last_visible, Hl.
Qed.

Lemma last_visible_map (f : N -> N) (t : str) :
  (forall c, isspace (f c) = isspace c) ->
  last_visible (map f t) = last_visible t.
Proof.
  intros Hf. induction t as [|c t IH]; [reflexivity|].
  destruct t as [|x t]; [cbn [map last_visible]; rewrite Hf; reflexivity|].
  cbn [map] in IH |- *. rewrite !last_visible_cons. exact IH.
Qed.

(** *** The pieces *)

Lemma ascii_piece_shape (cur : str) :
  head_visible (ascii_piece cur) = true
  /\ last_visible (ascii_piece cur) = true.
Proof.
  unfold ascii_piece.
  destruct (proj1 (strip_fix_visible (strip cur)) (strip_idem cur)) as [Hh Hl].
  destruct (strip cur) as [|c t]; [split; reflexivity|]. split.
  - cbn [head_visible] in *. rewrite ascii_upper_space. exact Hh.
  - destruct t as [|x t].
    + cbn [map last_visible] in *. rewrite ascii_upper_space. exact Hl.
    + cbn [map]. rewrite last_visible_cons.
      rewrite last_visible_cons in Hl.
      change (ascii_lower x :: map ascii_lower t) with (map ascii_lower (x :: t)).
      rewrite (last_visible_map ascii_lower _ ascii_lower_space). exact Hl.
Qed.

Lemma ascii_piece_strip (cur : str) : strip (ascii_piece cur) = ascii_piece cur.
Proof. apply strip_fix_visible, ascii_piece_shape. Qed.

Lemma map_idem (f : N -> N) (t : str) :
  (forall c, f (f c) = f c) -> map f (map f t) = map f t.
Proof.
  intros Hf. rewrite map_map. apply map_ext. exact Hf.
Qed.

Lemma ascii_piece_idem (cur : str) :
  ascii_piece (ascii_piece cur) = ascii_piece cur.
Proof.
  unfold ascii_piece at 1. rewrite ascii_piece_strip. unfold ascii_piece.
  destruct (strip cur) as [|c t]; [reflexivity|].
  rewrite ascii_upper_idem, (map_idem _ _ ascii_lower_idem). reflexivity.
Qed.

Lemma forallb_strip (P : N -> bool) (s : str) :
  forallb P s = true -> forallb P (strip s) = true.
Proof.
  intros H. destruct (strip_decomp s) as (a & b & Hs & _). rewrite Hs in H.
  rewrite !forallb_app in H. apply andb_prop in H as [_ H].
  apply andb_prop in H as [H _]. exact H.
Qed.

Lemma forallb_map_same (P : N -> bool) (f : N -> N) (t : str) :
  (forall c, P c = true -> P (f c) = true) ->
  forallb P t = true -> forallb P (map f t) = true.
Proof.
  intros Hf. induction t as [|c t IH]; [reflexivity|]. cbn [map forallb].
  intros H. apply andb_prop in H as [Hc Ht]. rewrite (Hf c Hc), (IH Ht).
  reflexivity.
Qed.

Lemma ascii_piece_keeps (P : N -> bool) (cur : str) :
  (forall c, P c = true -> P (ascii_upper c) = true) ->
  (forall c, P c = true -> P (ascii_lower c) = true) ->
  forallb P cur = true -> forallb P (ascii_piece cur) = true.
Proof.
  intros Hu Hl H. apply forallb_strip in H. unfold ascii_piece.
  destruct (strip cur) as [|c t]; [reflexivity|]. cbn [forallb] in *.
  apply andb_prop in H as [Hc Ht].
  rewrite (Hu c Hc), (forallb_map_same P ascii_lower t Hl Ht). reflexivity.
Qed.

Lemma ascii_piece_ascii (cur : str) :
  forallb is_ascii cur = true -> forallb is_ascii (ascii_piece cur) = true.
Proof.
  apply ascii_piece_keeps; [apply ascii_upper_ascii | apply ascii_lower_ascii].
Qed.

Lemma ascii_piece_unstopped (cur : str) :
  forallb (fun c => negb (is_stop c)) cur = true ->
  forallb (fun c => negb (is_stop c)) (ascii_piece cur) = true.
Proof.
  apply ascii_piece_keeps; intros c Hc;
    [rewrite ascii_upper_stop | rewrite ascii_lower_stop]; exact Hc.
Qed.

Lemma visible_map (f : N -> N) (t : str) :
  (forall c, isspace (f c) = isspace c) ->
  visible (map f t) = map f (visible t).
Proof.
  intros Hf. unfold visible. induction t as [|c t IH]; [reflexivity|].
  cbn [map filter]. rewrite Hf, IH. destruct (isspace c); reflexivity.
Qed.

Lemma ascii_piece_visible (cur : str) :
  map ascii_lower (visible (ascii_piece cur)) = map ascii_lower (visible cur).
Proof.
  rewrite <- (visible_strip cur). unfold ascii_piece.
  destruct (strip cur) as [|c t]; [reflexivity|].
  change (ascii_upper c :: map ascii_lower t)
    with ([ascii_upper c] ++ map ascii_lower t).
  change (c :: t) with ([c] ++ t).
  rewrite !visible_app, !map_app, (visible_map ascii_lower t ascii_lower_space).
  rewrite (map_idem _ _ ascii_lower_idem). f_equal.
  unfold visible. cbn [filter]. rewrite ascii_upper_space.
  destruct (isspace c); cbn [negb map]; [reflexivity|].
  rewrite ascii_lower_upper. reflexivity.
Qed.

Lemma ascii_piece_length (cur : str) :
  (List.length (ascii_piece cur) <= List.length cur)%nat.
Proof.
  pose proof (strip_length cur) as H. unfold ascii_piece.
  destruct (strip cur) as [|c t]; cbn [List.length] in *;
    rewrite ?length_map; lia.
Qed.

Variable U : unicode_db.
Hypothesis HU : unicode_laws U.

Lemma capitalize_ascii (c : N) (t : str) :
  forallb is_ascii (c :: t) = true ->
  capitalize U (c :: t) = ascii_upper c :: map ascii_lower t.
Proof.
  intros H. unfold capitalize. pose proof H as H'. cbn [forallb] in H'.
  apply andb_prop in H' as [Hc Ht]. destruct t as [|x t].
  - cbn [len List.length]. replace (1 <? Z.of_nat 1) with false by reflexivity.
    rewrite (upper_ascii HU _ H). reflexivity.
  - replace (1 <? len (c :: x :: t)) with true
      by (symmetry; apply Z.ltb_lt; unfold len; cbn [List.length]; lia).
    cbn [firstn skipn].
    rewrite (upper_ascii HU [c]) by (cbn [forallb]; rewrite Hc; reflexivity).
    rewrite (lower_ascii HU _ Ht). reflexivity.
Qed.

Lemma sentence_piece_ascii (cur : str) :
  forallb is_ascii cur = true -> sentence_piece U cur = ascii_piece cur.
Proof.
  intros H. apply forallb_strip in H. unfold sentence_piece, ascii_piece.
  cbv zeta. destruct (strip cur) as [|c t]; [reflexivity|].
  cbn [TextAnalyzer.nonempty]. apply capitalize_ascii, H.
Qed.

Lemma forallb_snoc (P : N -> bool) (cur : str) (c : N) :
  forallb P cur = true -> P c = true -> forallb P (cur ++ [c]) = true.
Proof.
  intros H Hc. rewrite forallb_app, H. cbn [forallb]. rewrite Hc. reflexivity.
Qed.

(** On ASCII text what [sentence_case] writes is ASCII. *)
Lemma sentence_case_ascii (s : str) : forall cur,
  forallb is_ascii s = true -> forallb is_ascii cur = true ->
  forallb is_ascii (sentence_case U s cur) = true.
Proof.
  induction s as [|c t IH]; intros cur Hs Hcur; cbn [sentence_case].
  - rewrite (sentence_piece_ascii cur Hcur). apply ascii_piece_ascii, Hcur.
  - cbn [forallb] in Hs. apply andb_prop in Hs as [Hc Ht].
    destruct (is_stop c).
    + rewrite (sentence_piece_ascii cur Hcur), forallb_app.
      rewrite (ascii_piece_ascii cur Hcur). cbn [forallb andb].
      rewrite Hc. apply (IH [] Ht eq_refl).
    + apply (IH _ Ht), forallb_snoc; assumption.
Qed.

Lemma sentence_case_prefix (p : str) : forall s cur,
  forallb (fun c => negb (is_stop c)) p = true ->
  sentence_case U (p ++ s) cur = sentence_case U s (cur ++ p).
Proof.
  induction p as [|c p IH]; intros s cur Hp.
  - rewrite app_nil_r. reflexivity.
  - cbn [forallb] in Hp. apply andb_prop in Hp as [Hc Hp].
    apply negb_true_iff in Hc. cbn [app sentence_case]. rewrite Hc.
    rewrite (IH s _ Hp), <- app_assoc. reflexivity.
Qed.

(** [sentence_case] leaves what it has written as it is. *)
Lemma sentence_case_idem (s : str) : forall cur,
  forallb is_ascii s = true -> forallb is_ascii cur = true ->
  forallb (fun c => negb (is_stop c)) cur = true ->
  sentence_case U (sentence_case U s cur) [] = sentence_case U s cur.
Proof.
  induction s as [|c t IH]; intros cur Hs Hcur Hns; cbn [sentence_case].
  - rewrite (sentence_piece_ascii cur Hcur).
    rewrite <- (app_nil_r (ascii_piece cur)) at 1.
    rewrite (sentence_case_prefix _ [] [] (ascii_piece_unstopped cur Hns)).
    cbn [sentence_case app].
    rewrite (sentence_piece_ascii _ (ascii_piece_ascii cur Hcur)).
    apply ascii_piece_idem.
  - cbn [forallb] in Hs. apply andb_prop in Hs as [Hc Ht].
    destruct (is_stop c) eqn:Hstop.
    + rewrite (sentence_piece_ascii cur Hcur).
      rewrite (sentence_case_prefix _ _ [] (ascii_piece_unstopped cur Hns)).
      cbn [sentence_case app]. rewrite Hstop.
      rewrite (sentence_piece_ascii _ (ascii_piece_ascii cur Hcur)).
      rewrite ascii_piece_idem, (IH [] Ht eq_refl eq_refl). reflexivity.
    + apply (IH _ Ht).
      * apply forallb_snoc; assumption.
      * apply forallb_snoc; [exact Hns | rewrite Hstop; reflexivity].
Qed.

(** On ASCII text [to_sentence] is idempotent. *)
Theorem to_sentence_idempotent (s : str) :
  forallb is_ascii s = true ->
  to_sentence U (to_sentence U s) = to_sentence U s.
Proof.
  intros Hs.
  rewrite (to_sentence_sentence_case U (to_sentence U s)).
  rewrite (to_sentence_sentence_case U s).
  apply (sentence_case_idem s [] Hs eq_refl eq_refl).
Qed.

Lemma sentence_case_visible (s : str) : forall cur,
  forallb is_ascii s = true -> forallb is_ascii cur = true ->
  map ascii_lower (visible (sentence_case U s cur))
  = map ascii_lower (visible (cur ++ s))
  /\ (List.length (sentence_case U s cur) <= List.length (cur ++ s))%nat.
Proof.
  induction s as [|c t IH]; intros cur Hs Hcur; cbn [sentence_case].
  - rewrite (sentence_piece_ascii cur Hcur), app_nil_r.
    split; [apply ascii_piece_visible | apply ascii_piece_length].
  - cbn [forallb] in Hs. apply andb_prop in Hs as [Hc Ht].
    destruct (is_stop c).
    + rewrite (sentence_piece_ascii cur Hcur).
      destruct (IH [] Ht eq_refl) as [IHv IHl]. cbn [app] in IHv, IHl. split.
      * change (c :: sentence_case U t []) with ([c] ++ sentence_case U t []).
        change (c :: t) with ([c] ++ t).
        rewrite !visible_app, !map_app, IHv, ascii_piece_visible. reflexivity.
      * pose proof (ascii_piece_length cur).
        rewrite !length_app. cbn [List.length]. lia.
    + destruct (IH (cur ++ [c]) Ht (forallb_snoc _ _ _ Hcur Hc)) as [IHv IHl].
      rewrite <- app_assoc in IHv, IHl. split; assumption.
Qed.

(** On ASCII text [to_sentence] changes the case of letters and deletes
    white space, and nothing else: up to the case of letters the characters
    that are no white space are those of the text, in order, and the result
    is no longer than the text. *)
Theorem to_sentence_keeps_characters (s : str) :
  forallb is_ascii s = true ->
  map ascii_lower (visible (to_sentence U s)) = map ascii_lower (visible s)
  /\ len (to_sentence U s) <= len s.
Proof.
  intros Hs. rewrite (to_sentence_sentence_case U s).
  destruct (sentence_case_visible s [] Hs eq_refl) as [Hv Hl].
  split; [exact Hv|]. unfold len. apply inj_le. exact Hl.
Qed.

Lemma no_pair_unstopped (l : str) :
  forallb (fun c => negb (is_stop c)) l = true ->
  no_pair stop_by_space l = true.
Proof.
  induction l as [|x l IH]; [reflexivity|]. cbn [forallb]. intros H.
  apply andb_prop in H as [Hx Hl]. destruct l as [|y l]; [reflexivity|].
  rewrite no_pair_cons, (IH Hl), andb_true_r.
  cbn [forallb] in Hl. apply andb_prop in Hl as [Hy _].
  apply negb_true_iff in Hx, Hy. unfold stop_by_space. rewrite Hx, Hy.
  rewrite andb_false_r. reflexivity.
Qed.

Lemma stop_not_space (x : N) : is_stop x = true -> isspace x = false.
Proof.
  intros H. destruct (isspace x) eqn:Hs; [|reflexivity].
  rewrite (@space_not_stop x Hs) in H. discriminate.
Qed.

Lemma stop_pair_false (x y : N) :
  isspace x = false -> isspace y = false -> stop_by_space x y = false.
Proof.
  intros Hx Hy. unfold stop_by_space. rewrite Hx, Hy, andb_false_r.
  reflexivity.
Qed.

Lemma unstopped_pair_false (x y : N) :
  is_stop x = false -> is_stop y = false -> stop_by_space x y = false.
Proof.
  intros Hx Hy. unfold stop_by_space. rewrite Hx, Hy, andb_false_r.
  reflexivity.
Qed.

Lemma piece_then_stop (y : N) (q : str) : forall c,
  is_stop y = true -> is_stop c = false ->
  forallb (fun c => negb (is_stop c)) q = true ->
  last_visible (c :: q) = true ->
  no_pair stop_by_space (c :: q ++ [y]) = true.
Proof.
  induction q as [|c' q IH]; intros c Hy Hc Hq Hl.
  - cbn [app last_visible] in *. rewrite no_pair_cons. cbn [no_pair].
    apply negb_true_iff in Hl.
    rewrite (stop_pair_false c y Hl (stop_not_space y Hy)). reflexivity.
  - cbn [forallb] in Hq. apply andb_prop in Hq as [Hc' Hq].
    apply negb_true_iff in Hc'. rewrite last_visible_cons in Hl.
    cbn [app]. rewrite no_pair_cons, (IH c' Hy Hc' Hq Hl).
    rewrite (unstopped_pair_false c c' Hc Hc'). reflexivity.
Qed.

(** A piece between two terminators. *)
Lemma piece_between_stops (x y : N) (q : str) :
  is_stop x = true -> is_stop y = true ->
  forallb (fun c => negb (is_stop c)) q = true ->
  head_visible q = true -> last_visible q = true ->
  no_pair stop_by_space (x :: q ++ [y]) = true.
Proof.
  intros Hx Hy Hq Hh Hl. destruct q as [|c q].
  - cbn [app]. rewrite no_pair_cons. cbn [no_pair].
    rewrite (stop_pair_false x y (stop_not_space x Hx) (stop_not_space y Hy)).
    reflexivity.
  - cbn [forallb] in Hq. apply andb_prop in Hq as [Hc Hq].
    apply negb_true_iff in Hc. cbn [head_visible] in Hh.
    apply negb_true_iff in Hh. cbn [app]. rewrite no_pair_cons.
    rewrite (stop_pair_false x c (stop_not_space x Hx) Hh).
    apply (piece_then_stop y q c Hy Hc Hq Hl).
Qed.

Lemma sentence_case_pairs (s : str) : forall cur x y,
  forallb is_ascii s = true -> forallb is_ascii cur = true ->
  forallb (fun c => negb (is_stop c)) cur = true ->
  is_stop x = true -> is_stop y = true ->
  no_pair stop_by_space (x :: sentence_case U s cur ++ [y]) = true.
Proof.
  induction s as [|c t IH]; intros cur x y Hs Hcur Hns Hx Hy;
    cbn [sentence_case].
  - rewrite (sentence_piece_ascii cur Hcur).
    destruct (ascii_piece_shape cur) as [Hh Hl].
    apply piece_between_stops; auto using ascii_piece_unstopped.
  - cbn [forallb] in Hs. apply andb_prop in Hs as [Hc Ht].
    destruct (is_stop c) eqn:Hstop.
    + rewrite (sentence_piece_ascii cur Hcur), <- app_assoc.
      change (x :: ascii_piece cur ++ (c :: sentence_case U t []) ++ [y])
        with ((x :: ascii_piece cur) ++ c :: (sentence_case U t [] ++ [y])).
      rewrite no_pair_app, (IH [] c y Ht eq_refl eq_refl Hstop Hy), andb_true_r.
      destruct (ascii_piece_shape cur) as [Hh Hl].
      apply piece_between_stops; auto using ascii_piece_unstopped.
    + apply (IH _ x y Ht); auto.
      * apply forallb_snoc; assumption.
      * apply forallb_snoc; [exact Hns | rewrite Hstop; reflexivity].
Qed.

Lemma no_pair_before_stop (y : N) (r : str) : forall c,
  is_stop y = true ->
  no_pair stop_by_space (c :: r ++ [y]) = true ->
  last_visible (c :: r) = true /\ no_pair stop_by_space (c :: r) = true.
Proof.
  induction r as [|c' r IH]; intros c Hy H.
  - cbn [app] in H. rewrite no_pair_cons in H. apply andb_prop in H as [H _].
    apply negb_true_iff in H. unfold stop_by_space in H.
    apply orb_false_iff in H as [_ H]. rewrite Hy, andb_true_r in H.
    cbn [last_visible]. rewrite H. auto.
  - cbn [app] in H. rewrite no_pair_cons in H. apply andb_prop in H as [H1 H2].
    destruct (IH c' Hy H2) as [Hl Hp].
    rewrite last_visible_cons, no_pair_cons, H1, Hp. auto.
Qed.

(** On ASCII text what [to_sentence] returns has no white space at either
    end and none next to a terminator. *)
Theorem to_sentence_shape (s : str) :
  forallb is_ascii s = true ->
  strip (to_sentence U s) = to_sentence U s
  /\ no_pair stop_by_space (to_sentence U s) = true.
Proof.
  intros Hs. rewrite (to_sentence_sentence_case U s).
  pose proof (sentence_case_pairs s [] 46%N 46%N Hs eq_refl eq_refl
                eq_refl eq_refl) as H.
  destruct (sentence_case U s []) as [|c r]; [split; reflexivity|].
  cbn [app] in H. rewrite no_pair_cons in H. apply andb_prop in H as [H1 H2].
  destruct (no_pair_before_stop 46%N r c eq_refl H2) as [Hl Hp].
  split; [|exact Hp]. apply strip_fix_visible. split; [|exact Hl].
  cbn [head_visible]. apply negb_true_iff in H1. unfold stop_by_space in H1.
  apply orb_false_iff in H1 as [H1 _].
  replace (is_stop 46) with true in H1 by reflexivity. cbn [andb] in H1.
  rewrite H1. reflexivity.
Qed.

End AsciiCaseFacts.

Section AsciiCaseRuns.

Lemma to_sentence_idempotent_witness :
  to_sentence BasicLatin.db (to_sentence BasicLatin.db (lit "one. TWO! three"))
  = to_sentence BasicLatin.db (lit "one. TWO! three").
Proof.
  apply (to_sentence_idempotent BasicLatin.db basic_latin_laws
           (lit "one. TWO! three")).
  reflexivity.
Defined.

Lemma to_sentence_keeps_characters_witness :
  map ascii_lower (visible (to_sentence BasicLatin.db (lit "one. TWO! three")))
  = map ascii_lower (visible (lit "one. TWO! three"))
  /\ (len (to_sentence BasicLatin.db (lit "one. TWO! three"))
      <= len (lit "one. TWO! three"))%Z.
Proof.
  apply (to_sentence_keeps_characters BasicLatin.db basic_latin_laws
           (lit "one. TWO! three")).
  reflexivity.
Defined.

Lemma to_sentence_shape_witness :
  strip (to_sentence BasicLatin.db (lit " a. .b "))
  = to_sentence BasicLatin.db (lit " a. .b ")
  /\ no_pair stop_by_space (to_sentence BasicLatin.db (lit " a. .b ")) = true.
Proof.
  apply (to_sentence_shape BasicLatin.db basic_latin_laws (lit " a. .b ")).
  reflexivity.
Defined.

(** Outside ASCII [to_sentence] need not be idempotent: the sharp s is
    written [SS], which is then written [Ss]. *)
Lemma to_sentence_sharp_s :
  to_sentence BasicLatin.db sharp_s = lit "SS"
  /\ to_sentence BasicLatin.db (lit "SS") = lit "Ss".
Proof. split; reflexivity. Qed.

End AsciiCaseRuns.

(** ** Title case *)

Section TitleFacts.
Local Open Scope Z_scope.

Lemma ascii_tables_laws : title_laws ascii_tables.
Proof. split; reflexivity. Qed.

Lemma is_letter_range (c : N) : is_letter c = true -> (65 <= c <= 122)%N.
Proof.
  unfold is_letter. intros H. apply orb_prop in H as [H | H];
    apply andb_prop in H as [H1 H2];
    apply N.leb_le in H1, H2; lia.
Qed.

Lemma is_letter_upper (c : N) : is_letter (ascii_upper c) = is_letter c.
Proof.
  unfold is_letter, ascii_upper.
  destruct (N.leb_spec 97 c), (N.leb_spec c 122); cbn [andb orb];
    repeat match goal with
           | |- context [N.leb ?a ?b] => destruct (N.leb_spec a b)
           end; cbn [andb orb]; try reflexivity; lia.
Qed.

Lemma is_letter_lower (c : N) : is_letter (ascii_lower c) = is_letter c.
Proof.
  unfold is_letter, ascii_lower.
  destruct (N.leb_spec 65 c), (N.leb_spec c 90); cbn [andb orb];
    repeat match goal with
           | |- context [N.leb ?a ?b] => destruct (N.leb_spec a b)
           end; cbn [andb orb]; try reflexivity; lia.
Qed.

Lemma ascii_not_sigma (c : N) : is_ascii c = true -> N.eqb c 931 = false.
Proof.
  unfold is_ascii. intros H. apply N.ltb_lt in H. apply N.eqb_neq. lia.
Qed.

Variable T : case_tables.
Hypothesis HT : title_laws T.

Lemma do_title_ascii (s : str) : forall before b,
  forallb is_ascii s = true -> do_title T before b s = title_ascii b s.
Proof.
  induction s as [|c t IH]; intros before b Hs; [reflexivity|].
  cbn [forallb] in Hs. apply andb_prop in Hs as [Hc Ht].
  cbn [do_title title_ascii]. unfold lower_ucs4.
  rewrite (ascii_not_sigma c Hc), (title_ascii_row HT c Hc).
  rewrite (lower_ascii_row HT c Hc), (cased_ascii HT c Hc), (IH _ _ Ht).
  destruct b; reflexivity.
Qed.

Lemma title_ascii_idem (s : str) : forall b,
  title_ascii b (title_ascii b s) = title_ascii b s.
Proof.
  induction s as [|c t IH]; intros b; [reflexivity|]. cbn [title_ascii].
  destruct b; rewrite ?is_letter_lower, ?is_letter_upper, IH,
    ?ascii_lower_idem, ?ascii_upper_idem; reflexivity.
Qed.

Lemma title_ascii_lower (s : str) : forall b,
  title_ascii b (map ascii_lower s) = title_ascii b s
  /\ title_ascii b (map ascii_upper s) = title_ascii b s
  /\ map ascii_lower (title_ascii b s) = map ascii_lower s
  /\ List.length (title_ascii b s) = List.length s.
Proof.
  induction s as [|c t IH]; intros b; [repeat split|].
  cbn [title_ascii map List.length].
  rewrite is_letter_lower, is_letter_upper.
  destruct (IH (is_letter c)) as (H1 & H2 & H3 & H4).
  rewrite H1, H2, H3, H4.
  destruct b; rewrite ?ascii_lower_idem, ?ascii_upper_idem,
    ?(@ascii_upper_lower c), ?ascii_lower_upper; repeat split.
Qed.

Lemma title_ascii_is_ascii (s : str) : forall b,
  forallb is_ascii s = true -> forallb is_ascii (title_ascii b s) = true.
Proof.
  induction s as [|c t IH]; intros b Hs; [reflexivity|].
  cbn [forallb] in Hs. apply andb_prop in Hs as [Hc Ht].
  cbn [title_ascii forallb]. rewrite (IH _ Ht), andb_true_r.
  destruct b; [apply ascii_lower_ascii | apply ascii_upper_ascii]; exact Hc.
Qed.

(** On ASCII text [to_title] writes a letter in upper case at the start
    and after a character that is no letter (a digit, an apostrophe), and
    in lower case after a letter; the other characters stay.  So it is
    idempotent, keeps the length and changes nothing but the case of
    letters. *)
Theorem to_title_ascii (s : str) :
  forallb is_ascii s = true ->
  to_title T s = title_ascii false s
  /\ to_title T (to_title T s) = to_title T s
  /\ len (to_title T s) = len s
  /\ map ascii_lower (to_title T s) = map ascii_lower s.
Proof.
  intros Hs. unfold to_title.
  rewrite (do_title_ascii s [] false Hs).
  rewrite (do_title_ascii _ [] false (title_ascii_is_ascii s false Hs)).
  destruct (title_ascii_lower s false) as (_ & _ & H3 & H4).
  split; [reflexivity|]. split; [apply title_ascii_idem|].
  split; [unfold len; rewrite H4; reflexivity | exact H3].
Qed.

(** On ASCII text the title case does not depend on the case of the text:
    lower-casing or upper-casing it first gives the same. *)
Theorem to_title_of_case (U : unicode_db) (s : str) :
  unicode_laws U -> forallb is_ascii s = true ->
  to_title T (CaseConverter.to_lower U s) = to_title T s
  /\ to_title T (CaseConverter.to_upper U s) = to_title T s.
Proof.
  intros HU Hs. unfold CaseConverter.to_lower, CaseConverter.to_upper, to_title.
  rewrite (lower_ascii HU s Hs), (upper_ascii HU s Hs).
  rewrite (do_title_ascii s [] false Hs).
  rewrite !do_title_ascii.
  - destruct (title_ascii_lower s false) as (H1 & H2 & _). auto.
  - apply forallb_map_same; [apply ascii_upper_ascii | exact Hs].
  - apply forallb_map_same; [apply ascii_lower_ascii | exact Hs].
Qed.

End TitleFacts.

Section TitleRuns.

Lemma to_title_ascii_witness :
  to_title ascii_tables (lit "they're 3rd") = lit "They'Re 3Rd".
Proof.
  rewrite (proj1 (to_title_ascii ascii_tables ascii_tables_laws
                    (lit "they're 3rd") eq_refl)).
  reflexivity.
Defined.

Lemma to_title_of_case_witness :
  to_title ascii_tables (CaseConverter.to_lower BasicLatin.db (lit "hELLO wORLD"))
  = to_title ascii_tables (lit "hELLO wORLD").
Proof.
  apply (to_title_of_case ascii_tables ascii_tables_laws BasicLatin.db
           (lit "hELLO wORLD") basic_latin_laws eq_refl).
Defined.

End TitleRuns.

(** ** Decoded text *)

Section ScalarFacts.
Import FileProcessor.
Local Open Scope N_scope.

Ltac bool_facts :=
  repeat match goal with
  | H : (_ && _)%bool = true |- _ => apply andb_prop in H; destruct H
  | H : Codec.is_cont _ = true |- _ => unfold Codec.is_cont in H
  | H : (_ <=? _) = true |- _ => apply N.leb_le in H
  | H : (_ <=? _) = false |- _ => apply N.leb_gt in H
  | H : (_ <? _) = true |- _ => apply N.ltb_lt in H
  | H : (_ <? _) = false |- _ => apply N.ltb_ge in H
  | H : (_ =? _) = true |- _ => apply N.eqb_eq in H
  | H : (_ =? _) = false |- _ => apply N.eqb_neq in H
  | H : (if ?b then _ else _) = true |- _ => destruct b eqn:?
  | H : true = true |- _ => clear H
  end.

Lemma is_scalar_low (c : N) : c < 55296 -> is_scalar c = true.
Proof.
  intros H. unfold is_scalar. apply N.ltb_lt in H. rewrite H. reflexivity.
Qed.

Lemma is_scalar_high (c : N) : 57343 < c < 1114112 -> is_scalar c = true.
Proof.
  intros [H1 H2]. unfold is_scalar. apply N.ltb_lt in H1, H2.
  rewrite H1, H2. apply orb_true_r.
Qed.

Lemma utf_8_scalar (n : nat) : forall bs s,
  (List.length bs <= n)%nat -> Codec.utf_8 bs = Some s ->
  forallb is_scalar s = true.
Proof.
  induction n as [|n IH]; intros bs s Hn H.
  - destruct bs; [|cbn in Hn; lia]. cbn in H. injection H as <-. reflexivity.
  - destruct bs as [|b0 t0]; [cbn in H; injection H as <-; reflexivity|].
    cbn [Codec.utf_8] in H. cbn [List.length] in Hn.
    destruct (b0 <? 128) eqn:H0.
    { destruct (Codec.utf_8 t0) as [s'|] eqn:E; [|discriminate].
      cbn in H. injection H as <-. cbn [forallb].
      rewrite (IH t0 s') by (auto; lia). rewrite andb_true_r.
      apply is_scalar_low. bool_facts. lia. }
    destruct ((194 <=? b0) && (b0 <=? 223))%bool eqn:H1.
    { destruct t0 as [|b1 t1]; [discriminate|].
      destruct (Codec.is_cont b1) eqn:C1; [|discriminate].
      destruct (Codec.utf_8 t1) as [s'|] eqn:E; [|discriminate].
      cbn in H. injection H as <-. cbn [forallb].
      rewrite (IH t1 s') by (auto; cbn [List.length] in Hn; lia).
      rewrite andb_true_r. apply is_scalar_low. bool_facts. lia. }
    destruct ((224 <=? b0) && (b0 <=? 239))%bool eqn:H2.
    { destruct t0 as [|b1 [|b2 t2]]; try discriminate.
      match type of H with (if ?c then _ else _) = _ =>
        destruct c eqn:C; [|discriminate] end.
      destruct (Codec.utf_8 t2) as [s'|] eqn:E; [|discriminate].
      cbn in H. injection H as <-. cbn [forallb].
      rewrite (IH t2 s') by (auto; cbn [List.length] in Hn; lia).
      rewrite andb_true_r. bool_facts;
        destruct (N.lt_ge_cases b0 238);
        first [apply is_scalar_low; lia | apply is_scalar_high; lia]. }
    destruct ((240 <=? b0) && (b0 <=? 244))%bool eqn:H3; [|discriminate].
    destruct t0 as [|b1 [|b2 [|b3 t3]]]; try discriminate.
    match type of H with (if ?c then _ else _) = _ =>
      destruct c eqn:C; [|discriminate] end.
    destruct (Codec.utf_8 t3) as [s'|] eqn:E; [|discriminate].
    cbn in H. injection H as <-. cbn [forallb].
    rewrite (IH t3 s') by (auto; cbn [List.length] in Hn; lia).
    rewrite andb_true_r. bool_facts; apply is_scalar_high; lia.
Qed.

Lemma byte_scalar (bs : list byte) :
  forallb is_scalar (map Byte.to_N bs) = true.
Proof.
  induction bs as [|b bs IH]; [reflexivity|]. cbn [map forallb].
  rewrite IH, andb_true_r. apply is_scalar_low.
  pose proof (Byte.to_N_bounded b). lia.
Qed.

(** What [extract_text_from_txt] returns is made of Unicode scalar
    values: no surrogate and nothing above U+10FFFF. *)
Theorem extract_text_from_txt_scalar (f : file) :
  exists text,
    fst (extract_text_from_txt f) = Return text
    /\ forallb is_scalar text = true.
Proof.
  unfold extract_text_from_txt, file_read, file_seek.
  cbn [file_pos file_content file_name file_size skipn].
  destruct (Codec.utf_8 (map Byte.to_N (skipn (file_pos f) (file_content f))))
    as [text|] eqn:Hd.
  - exists text. split; [reflexivity|].
    apply (utf_8_scalar _ _ text (Nat.le_refl _) Hd).
  - rewrite (@decode_latin_1 (file_content f)).
    exists (map Byte.to_N (file_content f)). split; [reflexivity|].
    apply byte_scalar.
Qed.

End ScalarFacts.

(** ** Case conversion of ASCII text *)

Section AsciiConversions.
Import CaseConverter TextAnalyzer.
Local Open Scope Z_scope.

Variable U : unicode_db.
Hypothesis HU : unicode_laws U.

Lemma map_ascii_upper_ascii (s : str) :
  forallb is_ascii s = true -> forallb is_ascii (map ascii_upper s) = true.
Proof. apply forallb_map_same, ascii_upper_ascii. Qed.

Lemma lower_of_upper_ascii (s : str) :
  forallb is_ascii s = true ->
  str_lower U (str_upper U s) = str_lower U s.
Proof.
  intros Hs. pose proof (map_ascii_upper_ascii s Hs) as Hu.
  rewrite (upper_ascii HU s Hs), (lower_ascii HU s Hs), (lower_ascii HU _ Hu).
  rewrite map_map. apply map_ext. intros c. apply ascii_lower_upper.
Qed.

(** On ASCII text [to_upper] and [to_lower] keep the length and are
    idempotent, and lower-casing after upper-casing is lower-casing. *)
Theorem case_conversions_ascii (s : str) :
  forallb is_ascii s = true ->
  to_lower U (to_upper U s) = to_lower U s
  /\ to_upper U (to_upper U s) = to_upper U s
  /\ to_lower U (to_lower U s) = to_lower U s
  /\ len (to_upper U s) = len s
  /\ len (to_lower U s) = len s.
Proof.
  intros Hs. unfold to_lower, to_upper.
  pose proof (map_ascii_upper_ascii s Hs) as Hu.
  pose proof (@ascii_lower_is_ascii s Hs) as Hl.
  rewrite (upper_ascii HU s Hs), (lower_ascii HU s Hs).
  rewrite (lower_ascii HU _ Hu), (upper_ascii HU _ Hu), (lower_ascii HU _ Hl).
  rewrite !map_map. unfold len. rewrite !length_map.
  repeat split; apply map_ext; intros c;
    [apply ascii_lower_upper | apply ascii_upper_idem | apply ascii_lower_idem].
Qed.

(** The words of an ASCII text do not depend on its case: upper-casing
    the text first gives the same words, and so the same keywords. *)
Theorem words_ignore_case (s : str) :
  forallb is_ascii s = true ->
  fst (words U (init (to_upper U s))) = fst (words U (init s))
  /\ get_keyword_density (fst (words U (init (to_upper U s))))
     = get_keyword_density (fst (words U (init s))).
Proof.
  intros Hs.
  assert (H : fst (words U (init (to_upper U s))) = fst (words U (init s))).
  { unfold words. cbn [_words init text fst].
    unfold to_upper. rewrite (lower_of_upper_ascii s Hs). reflexivity. }
  rewrite H. split; reflexivity.
Qed.

End AsciiConversions.

Section AsciiConversionRuns.
Import CaseConverter TextAnalyzer.

Lemma case_conversions_ascii_witness :
  to_lower BasicLatin.db (to_upper BasicLatin.db (lit "Mixed Case"))
  = to_lower BasicLatin.db (lit "Mixed Case").
Proof.
  apply (case_conversions_ascii BasicLatin.db basic_latin_laws
           (lit "Mixed Case") eq_refl).
Defined.

Lemma words_ignore_case_witness :
  fst (words BasicLatin.db (init (to_upper BasicLatin.db (lit "Mixed Case"))))
  = fst (words BasicLatin.db (init (lit "Mixed Case"))).
Proof.
  apply (words_ignore_case BasicLatin.db basic_latin_laws
           (lit "Mixed Case") eq_refl).
Defined.

(** An empty line between two lines is deleted with both line feeds: the
    two lines become one. *)
Lemma remove_extra_spaces_joins_lines :
  TextCleaner.remove_extra_spaces (lit "one" ++ [LF; LF] ++ lit "two")
  = lit "onetwo".
Proof. reflexivity. Qed.

End AsciiConversionRuns.

(** ** Upper case after lower case *)

Section CaseRoundTrip.
Import CaseConverter.

Lemma app_self_nil (A : Type) (x : list A) : x = x ++ x -> x = [].
Proof.
  intros H. apply (f_equal (@List.length A)) in H.
  rewrite length_app in H. destruct x; [reflexivity | cbn in H; lia].
Qed.

Lemma round_trip_by_character (U : unicode_db) (s : str) :
  case_laws U ->
  (forall c, In c s -> str_upper U (str_lower U [c]) = str_upper U [c]) ->
  str_upper U (str_lower U s) = str_upper U s.
Proof.
  intros HU. induction s as [|c t IH]; intros H.
  - pose proof (app_self_nil _ _ (upper_app HU [] [])) as E1.
    pose proof (app_self_nil _ _ (upper_lower_app HU [] [])) as E2.
    cbn [app] in E1, E2. rewrite E1, E2. reflexivity.
  - change (c :: t) with ([c] ++ t).
    rewrite (upper_lower_app HU), (upper_app HU).
    rewrite (H c (or_introl eq_refl)), IH; [reflexivity|].
    intros d Hd. apply H. right. exact Hd.
Qed.

(** The tabulated rows satisfy the laws, and are the rows of Latin-1. *)
Lemma basic_latin_case_laws : case_laws BasicLatin.db.
Proof.
  split; cbn [str_lower str_upper BasicLatin.db]; intros a b.
  - apply flat_map_app.
  - rewrite !flat_map_app. reflexivity.
Qed.

Lemma basic_latin_rows : latin_1_rows BasicLatin.db.
Proof.
  intros c _. cbn [str_lower str_upper BasicLatin.db flat_map].
  rewrite !app_nil_r. split; reflexivity.
Qed.

Lemma in_latin_1_characters (c : N) : (c < 256)%N -> In c latin_1_characters.
Proof.
  intros H. unfold latin_1_characters. rewrite <- (N2Nat.id c).
  apply in_map, in_seq. lia.
Qed.

(** The lower case of a character of Latin-1 is one character of Latin-1,
    with the same upper case: all 256 rows are run. *)
Lemma latin_1_table (c : N) :
  (c < 256)%N ->
  exists d, BasicLatin.lower_char c = [d] /\ (d < 256)%N
            /\ BasicLatin.upper_char d = BasicLatin.upper_char c.
Proof.
  intros H. apply in_latin_1_characters in H. revert c H. apply Forall_forall.
  unfold latin_1_characters.
  assert (E : forallb (fun c =>
                match BasicLatin.lower_char c with
                | [d] => (d <? 256)%N
                         && str_eqb (BasicLatin.upper_char d)
                              (BasicLatin.upper_char c)
                | _ => false
                end) (map N.of_nat (seq 0 256)) = true)
    by (vm_compute; reflexivity).
  apply Forall_forall. intros c Hc.
  apply (proj1 (forallb_forall _ _) E) in Hc.
  destruct (BasicLatin.lower_char c) as [|d [|]]; try discriminate.
  apply andb_prop in Hc as [H1 H2]. exists d. split; [reflexivity|].
  split; [apply N.ltb_lt; exact H1|].
  apply str_eqb_eq. exact H2.
Qed.

Lemma latin_1_character (U : unicode_db) (c : N) :
  latin_1_rows U -> (c < 256)%N ->
  str_upper U (str_lower U [c]) = str_upper U [c].
Proof.
  intros HR Hc. destruct (latin_1_table c Hc) as (d & Hl & Hd & Hu).
  rewrite (proj1 (HR c Hc)), Hl, (proj2 (HR d Hd)), (proj2 (HR c Hc)).
  exact Hu.
Qed.

(** C5, as the code has it.  Upper-casing the lower-cased text gives the
    upper-cased text for every text each of whose characters, taken alone,
    has this property; the characters of Latin-1, the ASCII characters
    among them, all have it. *)
Theorem to_upper_to_lower_by_character (U : unicode_db) (s : str) :
  case_laws U ->
  ((forall c, In c s -> to_upper U (to_lower U [c]) = to_upper U [c]) ->
   to_upper U (to_lower U s) = to_upper U s)
  /\ (latin_1_rows U -> Forall (fun c => (c < 256)%N) s ->
      to_upper U (to_lower U s) = to_upper U s).
Proof.
  intros HU. unfold to_upper, to_lower. split.
  - apply round_trip_by_character. exact HU.
  - intros HR Hs. apply round_trip_by_character; [exact HU|].
    intros c Hc. apply latin_1_character; [exact HR|].
    exact (proj1 (Forall_forall _ _) Hs c Hc).
Qed.

Lemma to_upper_to_lower_by_character_witness :
  to_upper BasicLatin.db
    (to_lower BasicLatin.db [83; 116; 114; 97; 223; 101]%N)
  = to_upper BasicLatin.db [83; 116; 114; 97; 223; 101]%N.
Proof.
  apply (proj2 (to_upper_to_lower_by_character BasicLatin.db
                  [83; 116; 114; 97; 223; 101]%N basic_latin_case_laws));
    [exact basic_latin_rows | repeat constructor].
Defined.

End CaseRoundTrip.
